(** * GIP: configuration accessors, FQAN matching, response times and
      the CE/SE bind generator

    A shallow embedding of [gip_common.py] and [gip_cese_bind.py]
    (Python 2) together with the properties of these functions that the
    specification of the repository states, and further properties that
    the code of the two modules shows.

    Layout: the Python values and built-ins the two modules rely on, the
    [ConfigParser] object, the two modules themselves, and then the
    lemmas and theorems. *)

From Stdlib Require Import ZArith String Ascii List Bool Lia DecimalString DecimalPos.
From Stdlib Require Import SpecFloat.
From stdpp Require Import base option list strings gmap.

Local Open Scope string_scope.
Local Open Scope Z_scope.

(* ===================================================================== *)
(** * Exceptions *)
(* ===================================================================== *)

(** The exception classes that the modelled code raises or catches. *)
Inductive exn : Type :=
  | NoSectionError       (* ConfigParser.NoSectionError *)
  | NoOptionError        (* ConfigParser.NoOptionError *)
  | InterpolationError   (* ConfigParser.InterpolationError and subclasses *)
  | ValueError
  | TypeError
  | RuntimeError
  | OverflowError
  | ZeroDivisionError
  | OtherError (name : string).  (* raised by code outside the two modules *)

(** A computation either returns a value or raises. *)
Inductive result (A : Type) : Type :=
  | Ok (a : A)
  | Raise (e : exn).
Arguments Ok {A} a.
Arguments Raise {A} e.

Global Instance result_ret : MRet result := fun _ a => Ok a.
Global Instance result_bind : MBind result := fun _ _ f m =>
  match m with
  | Ok a => f a
  | Raise e => Raise e
  end.

Global Instance result_fmap : FMap result := fun _ _ f m =>
  match m with
  | Ok a => Ok (f a)
  | Raise e => Raise e
  end.

(** [try: m except: h] with a bare [except] clause. *)
Definition try_except {A} (m : result A) (h : result A) : result A :=
  match m with
  | Ok a => Ok a
  | Raise _ => h
  end.

Definition is_ok {A} (m : result A) : bool :=
  match m with Ok _ => true | Raise _ => false end.

(* ===================================================================== *)
(** * Python values and built-ins *)
(* ===================================================================== *)

Module Py.

(** The Python values that flow through the accessors: [None], booleans,
    integers ([int] and [long] alike), byte strings and lists of
    strings. *)
Inductive pyval : Type :=
  | PyNone
  | PyBool (b : bool)
  | PyInt (n : Z)
  | PyStr (s : string)
  | PyList (l : list string).

Global Instance pyval_eq_dec : EqDecision pyval.
Proof. solve_decision. Defined.

(** ** Characters *)

Definition ascii_in_range (lo hi c : ascii) : bool :=
  (N.leb (N_of_ascii lo) (N_of_ascii c)) && (N.leb (N_of_ascii c) (N_of_ascii hi)).

(** [c.lower()] on one byte (C locale). *)
Definition lower_ascii (c : ascii) : ascii :=
  if ascii_in_range "A" "Z" c
  then ascii_of_N (N_of_ascii c + 32)
  else c.

(** [c.isspace()]: space, \t, \n, \v, \f, \r. *)
Definition isspace (c : ascii) : bool :=
  match N_of_ascii c with
  | 9%N | 10%N | 11%N | 12%N | 13%N | 32%N => true
  | _ => false
  end.

Definition isdigit (c : ascii) : bool := ascii_in_range "0" "9" c.

(** ** Strings *)

(** [s.lower()] *)
Fixpoint lower (s : string) : string :=
  match s with
  | EmptyString => EmptyString
  | String c s' => String (lower_ascii c) (lower s')
  end.

(** [s.startswith(p)] *)
Definition startswith (s p : string) : bool := String.prefix p s.

(** [s[n:]] for [n >= 0] *)
Fixpoint drop (n : nat) (s : string) : string :=
  match n, s with
  | O, _ => s
  | S n', String _ s' => drop n' s'
  | S _, EmptyString => EmptyString
  end.

Fixpoint find_from (sub s : string) (i : Z) : Z :=
  if String.prefix sub s then i
  else match s with
       | EmptyString => -1
       | String _ s' => find_from sub s' (i + 1)
       end.

(** [s.find(sub)]: lowest index of [sub] in [s], or -1. *)
Definition find (s sub : string) : Z := find_from sub s 0.

(** [sub in s] *)
Definition contains (s sub : string) : bool := 0 <=? find s sub.

Fixpoint lstrip (s : string) : string :=
  match s with
  | EmptyString => EmptyString
  | String c s' => if isspace c then lstrip s' else s
  end.

Definition rstrip (s : string) : string :=
  String.rev (lstrip (String.rev s)).

(** [s.strip()] *)
Definition strip (s : string) : string := rstrip (lstrip s).

(** [s.split(sep)] for a non-empty separator: the occurrences of [sep]
    are found from the left and do not overlap.  [skip] counts the
    characters of a separator that are still to be passed over and [cur]
    holds the current piece, reversed. *)
Fixpoint split_go (sep s : string) (skip : nat) (cur : string) : list string :=
  match s with
  | EmptyString => [String.rev cur]
  | String c s' =>
      match skip with
      | S k => split_go sep s' k cur
      | O =>
          if String.prefix sep s
          then String.rev cur :: split_go sep s' (String.length sep - 1) EmptyString
          else split_go sep s' O (String c cur)
      end
  end.

Definition split (s sep : string) : list string := split_go sep s O EmptyString.

(** ** [str] and [repr] *)

Definition str_of_Z (n : Z) : string := NilZero.string_of_int (Z.to_int n).

Definition hex_digit (n : N) : ascii :=
  if (n <? 10)%N then ascii_of_N (48 + n) else ascii_of_N (87 + n).

Fixpoint repr_body (quote : ascii) (s : string) : string :=
  match s with
  | EmptyString => EmptyString
  | String c s' =>
      let n := N_of_ascii c in
      let rest := repr_body quote s' in
      if Ascii.eqb c quote || Ascii.eqb c "\"%char
      then String "\" (String c rest)
      else if (n =? 9)%N then String "\" (String "t" rest)
      else if (n =? 10)%N then String "\" (String "n" rest)
      else if (n =? 13)%N then String "\" (String "r" rest)
      else if (n <? 32)%N || (127 <=? n)%N
      then String "\" (String "x" (String (hex_digit (n / 16)) (String (hex_digit (n mod 16)) rest)))
      else String c rest
  end.

Definition dquote : ascii := ascii_of_N 34.
Definition squote : ascii := ascii_of_N 39.

(** [repr(s)] of a byte string. *)
Definition repr_str (s : string) : string :=
  let quote :=
    if contains s (String squote "") && negb (contains s (String dquote ""))
    then dquote else squote in
  String quote (repr_body quote s +:+ String quote "").

Fixpoint join (sep : string) (l : list string) : string :=
  match l with
  | [] => ""
  | [x] => x
  | x :: l' => x +:+ sep +:+ join sep l'
  end.

(** [str(v)] *)
Definition str (v : pyval) : string :=
  match v with
  | PyNone => "None"
  | PyBool true => "True"
  | PyBool false => "False"
  | PyInt n => str_of_Z n
  | PyStr s => s
  | PyList l => "[" +:+ join ", " (repr_str <$> l) +:+ "]"
  end.

(** Truth value of [v] in a condition. *)
Definition truthy (v : pyval) : bool :=
  match v with
  | PyNone => false
  | PyBool b => b
  | PyInt n => negb (n =? 0)
  | PyStr s => negb (String.eqb s "")
  | PyList l => match l with [] => false | _ => true end
  end.

(** [isinstance(v, types.StringType)] *)
Definition is_string (v : pyval) : bool :=
  match v with PyStr _ => true | _ => false end.

(** ** [int] *)

Fixpoint digits_value (s : string) (acc : Z) : option Z :=
  match s with
  | EmptyString => Some acc
  | String c s' =>
      if isdigit c
      then digits_value s' (10 * acc + Z.of_N (N_of_ascii c - 48))
      else None
  end.

Definition unsigned_literal (s : string) : option Z :=
  match s with
  | EmptyString => None
  | _ => digits_value s 0
  end.

(** [int(s)] for a byte string, base 10: surrounding white space, an
    optional sign, at least one digit. *)
Definition int_of_str (s : string) : result Z :=
  let body := strip s in
  let parsed :=
    match body with
    | String c d =>
        if Ascii.eqb c "-" then Z.opp <$> unsigned_literal d
        else if Ascii.eqb c "+" then unsigned_literal d
        else unsigned_literal body
    | EmptyString => unsigned_literal body
    end in
  match parsed with
  | Some n => Ok n
  | None => Raise ValueError
  end.

(** [int(v)] *)
Definition int (v : pyval) : result Z :=
  match v with
  | PyNone => Raise TypeError
  | PyBool b => Ok (if b then 1 else 0)
  | PyInt n => Ok n
  | PyStr s => int_of_str s
  | PyList _ => Raise TypeError
  end.

(** [list(v)] *)
Definition list_of (v : pyval) : result pyval :=
  match v with
  | PyList l => Ok (PyList l)
  | PyStr s => Ok (PyList ((fun c => String c "") <$> list_ascii_of_string s))
  | _ => Raise TypeError
  end.

(** ** Formatting *)

(** [fmt % args] for the directives [%s], [%d] and [%%]; [pct] tells that
    the previous character opened a directive.  Any other directive
    (flags, widths, other conversions) is outside the fragment described
    here and is reported as [OtherError]. *)
Fixpoint format_go (fmt : string) (pct : bool) (args : list pyval) : result string :=
  match fmt with
  | EmptyString =>
      if pct then Raise ValueError          (* incomplete format *)
      else match args with
           | [] => Ok EmptyString
           | _ => Raise TypeError           (* not all arguments converted *)
           end
  | String c fmt' =>
      if pct then
        if Ascii.eqb c "%" then String "%" <$> format_go fmt' false args
        else if Ascii.eqb c "s" then
          match args with
          | a :: args' => String.app (str a) <$> format_go fmt' false args'
          | [] => Raise TypeError           (* not enough arguments *)
          end
        else if Ascii.eqb c "d" then
          match args with
          | PyInt n :: args' => String.app (str_of_Z n) <$> format_go fmt' false args'
          | PyBool b :: args' =>
              String.app (str_of_Z (if b then 1 else 0)) <$> format_go fmt' false args'
          | _ => Raise TypeError
          end
        else Raise (OtherError "format directive")
      else if Ascii.eqb c "%" then format_go fmt' true args
      else String c <$> format_go fmt' false args
  end.

Definition format (fmt : string) (args : list pyval) : result string :=
  format_go fmt false args.

(** ** [float] (IEEE 754 binary64, round to nearest even) *)

Definition float : Type := spec_float.

(** [float(n)] and the conversion of an integer operand of a float
    operation; an integer beyond the range of a double raises. *)
Definition float_of_Z (n : Z) : result float :=
  match binary_normalize 53 1024 n 0 false with
  | S754_infinity _ => Raise OverflowError
  | f => Ok f
  end.

(** [a / b] on floats *)
Definition float_div (a b : float) : result float :=
  match b with
  | S754_zero _ => Raise ZeroDivisionError
  | _ => Ok (SFdiv 53 1024 a b)
  end.

(** [a * b] on floats *)
Definition float_mul (a b : float) : float := SFmul 53 1024 a b.

(** [int(x)] for a float: truncation towards zero. *)
Definition int_of_float (x : float) : result Z :=
  match x with
  | S754_zero _ => Ok 0
  | S754_infinity _ => Raise OverflowError
  | S754_nan => Raise ValueError
  | S754_finite s m e => Ok (cond_Zopp s (Z.shiftl (Zpos m) e))
  end.

(** A value that is known to be an integer. *)
Definition the_int (v : pyval) : result Z :=
  match v with
  | PyInt n => Ok n
  | PyBool b => Ok (if b then 1 else 0)
  | _ => Raise TypeError
  end.

Definition newline : ascii := ascii_of_N 10.

Fixpoint span_digits (s : string) : nat :=
  match s with
  | String c s' => if isdigit c then S (span_digits s') else O
  | EmptyString => O
  end.

Fixpoint take (n : nat) (s : string) : string :=
  match n, s with
  | S n', String c s' => String c (take n' s')
  | _, _ => EmptyString
  end.

(** [re.search(pre + r'(\d+)$', s)] for a literal, non-empty [pre]:
    group 1 of the leftmost match.  [$] matches at the end of the string
    and before a newline that ends it. *)
Fixpoint re_search_digits_end (pre s : string) : option string :=
  match s with
  | EmptyString => None
  | String _ s' =>
      let here :=
        if String.prefix pre s then
          let rest := drop (String.length pre) s in
          let n := span_digits rest in
          let tail := drop n rest in
          if negb (Nat.eqb n 0) &&
             (String.eqb tail EmptyString || String.eqb tail (String newline EmptyString))
          then Some (take n rest) else None
        else None in
      match here with
      | Some g => Some g
      | None => re_search_digits_end pre s'
      end
  end.

(** [s.count(c)] for a one-character [c] *)
Fixpoint count_char (c : ascii) (s : string) : nat :=
  match s with
  | EmptyString => O
  | String c' s' => ((if Ascii.eqb c c' then 1 else 0) + count_char c s')%nat
  end.

(** ** More of the string methods *)

(** [s[0]]; [None] stands for the [IndexError] of an empty string. *)
Definition head_char (s : string) : option ascii :=
  match s with
  | String c _ => Some c
  | EmptyString => None
  end.

(** [s[-1]]; [None] stands for the [IndexError] of an empty string. *)
Definition last_char (s : string) : option ascii :=
  match String.rev s with
  | String c _ => Some c
  | EmptyString => None
  end.

(** [c in chars] for a character [c] *)
Fixpoint char_in (c : ascii) (chars : string) : bool :=
  match chars with
  | EmptyString => false
  | String d chars' => Ascii.eqb c d || char_in c chars'
  end.

Fixpoint lstrip_chars (chars s : string) : string :=
  match s with
  | EmptyString => EmptyString
  | String c s' => if char_in c chars then lstrip_chars chars s' else s
  end.

(** [s.rstrip(chars)] *)
Definition rstrip_chars (chars s : string) : string :=
  String.rev (lstrip_chars chars (String.rev s)).

(** [s.split(sep, 1)]: at most one split, at the first occurrence of
    [sep]. *)
Definition split_max1 (s sep : string) : list string :=
  let i := find s sep in
  if i <? 0 then [s]
  else [take (Z.to_nat i) s; drop (Z.to_nat i + String.length sep) s].

(** [s.split()]: the maximal runs of characters that are not white
    space; [cur] holds the current run, reversed. *)
Fixpoint split_ws_go (s : string) (cur : string) : list string :=
  match s with
  | EmptyString =>
      match cur with
      | EmptyString => []
      | _ => [String.rev cur]
      end
  | String c s' =>
      if isspace c then
        match cur with
        | EmptyString => split_ws_go s' EmptyString
        | _ => String.rev cur :: split_ws_go s' EmptyString
        end
      else split_ws_go s' (String c cur)
  end.

Definition split_ws (s : string) : list string := split_ws_go s EmptyString.

(** ** Lists and dictionaries *)

(** [l.remove(x)] for an [x] that is in [l]: the first occurrence goes. *)
Fixpoint list_remove (x : string) (l : list string) : list string :=
  match l with
  | [] => []
  | y :: l' => if bool_decide (x = y) then l' else y :: list_remove x l'
  end.

(** [d.setdefault(k, v)]: the value and the dictionary afterwards. *)
Definition setdefault {V} (k : string) (v : V) (d : gmap string V) : V * gmap string V :=
  match d !! k with
  | Some w => (w, d)
  | None => (v, <[k := v]> d)
  end.

(** ** Rounding *)

(** [round(x)] of Python 2: the nearest integer as a float, a half
    being rounded away from zero. *)
Definition round (x : float) : float :=
  match x with
  | S754_finite sx m e =>
      if 0 <=? e then x
      else
        let q := Z.shiftr (Zpos m) (- e) in
        let r := if Z.testbit (Zpos m) (- e - 1) then q + 1 else q in
        binary_normalize 53 1024 (cond_Zopp sx r) 0 sx
  | _ => x
  end.

(** The float literal [60.0] *)
Definition float_60 : float := binary_normalize 53 1024 60 0 false.

(** ** The environment and paths *)

(** [os.environ[key] = value]: [putenv] refuses a value with a NUL
    byte. *)
Definition environ_set (environ : gmap string string) (key value : string)
  : result (gmap string string) :=
  if char_in (ascii_of_N 0) value then Raise TypeError
  else Ok (<[key := value]> environ).

(** [os.path.join(a, b)] *)
Definition path_join (a b : string) : string :=
  if startswith b "/" then b
  else if String.eqb a "" || bool_decide (last_char a = Some "/"%char) then a +:+ b
  else a +:+ "/" +:+ b.

End Py.

Import Py.

(** ** Regular-expression splitting *)

(** Length of the longest run of white space at the head of [s]. *)
Fixpoint span_space (s : string) : nat :=
  match s with
  | String c s' => if isspace c then S (span_space s') else O
  | EmptyString => O
  end.

(** Length of the (greedy) match of [\s*,?\s*] at the head of [s]. *)
Definition split_re_match (s : string) : nat :=
  let n1 := span_space s in
  match drop n1 s with
  | String "," s' => (n1 + 1 + span_space s')%nat
  | _ => n1
  end.

(** [pattern.split(s)] of Python 2 for a pattern without groups, given
    the length [m] of its match at the head of a string: an empty match
    is passed over by one character, a non-empty one ends the current
    piece, and the piece after the last match is always kept. *)
Fixpoint re_split_go (m : string -> nat) (s : string) (skip : nat) (cur : string)
  : list string :=
  match s with
  | EmptyString => [String.rev cur]
  | String c s' =>
      match skip with
      | S k => re_split_go m s' k cur
      | O =>
          match m s with
          | O => re_split_go m s' O (String c cur)
          | S k => String.rev cur :: re_split_go m s' k EmptyString
          end
      end
  end.

Definition re_split (m : string -> nat) (s : string) : list string :=
  re_split_go m s O EmptyString.

(** ** The pattern of RVF files *)

(** [(.*?)\n] at the head of [s]: the characters before the first
    newline, and the number of characters matched. *)
Fixpoint rvf_value (s : string) : option (string * nat) :=
  match s with
  | EmptyString => None
  | String c s' =>
      if Ascii.eqb c newline then Some (EmptyString, 1%nat)
      else '(val, n) ← rvf_value s'; Some (String c val, S n)
  end.

(** [(.+?): (?:(.*?)\n)] at the head of a string, after the characters
    [key] (reversed, at least one, none of them a newline) have been
    given to the first group and with [s] left: the group grows by one
    character at a time until the rest of the pattern matches. *)
Fixpoint rvf_key (s : string) (key : string) : option (string * string * nat) :=
  match (if String.prefix ": " s then rvf_value (drop 2 s) else None) with
  | Some (val, n) => Some (String.rev key, val, (String.length key + 2 + n)%nat)
  | None =>
      match s with
      | EmptyString => None
      | String c s' =>
          if Ascii.eqb c newline then None else rvf_key s' (String c key)
      end
  end.

(** The match of the pattern at the head of [s]: the two groups and the
    length of the match. *)
Definition rvf_pattern_match (s : string) : option (string * string * nat) :=
  match s with
  | EmptyString => None
  | String c s' => if Ascii.eqb c newline then None else rvf_key s' (String c EmptyString)
  end.

(** [rvf_pattern.findall(s)]: the groups of the matches from left to
    right, none overlapping another; [skip] counts the characters of
    the last match that are still to be passed over. *)
Fixpoint rvf_pattern_findall_go (s : string) (skip : nat) : list (string * string) :=
  match s with
  | EmptyString => []
  | String _ s' =>
      match skip with
      | S k => rvf_pattern_findall_go s' k
      | O =>
          match rvf_pattern_match s with
          | Some (key, val, n) => (key, val) :: rvf_pattern_findall_go s' (n - 1)
          | None => rvf_pattern_findall_go s' O
          end
      end
  end.

Definition rvf_pattern_findall (s : string) : list (string * string) := rvf_pattern_findall_go s O.

(* ===================================================================== *)
(** * The ConfigParser object *)
(* ===================================================================== *)

Module ConfigParser.

(** The state of a [ConfigParser.ConfigParser]: the [DEFAULT] section and
    the named sections in the order in which they were added; every
    section maps option names to raw string values. *)
Record t : Type := mk {
  _defaults : gmap string string;
  _sections : list (string * gmap string string)
}.

Definition DEFAULTSECT : string := "DEFAULT".

Fixpoint assoc {V} (k : string) (l : list (string * V)) : option V :=
  match l with
  | [] => None
  | (k', v) :: l' => if String.eqb k k' then Some v else assoc k l'
  end.

(** [cp.sections()] *)
Definition sections (cp : t) : list string := fst <$> _sections cp.

(** [cp.optionxform(option)] *)
Definition optionxform (option : string) : string := lower option.

End ConfigParser.

(* ===================================================================== *)
(** * What lies outside the two modules *)
(* ===================================================================== *)

(** The modules and programs that [gip_common] and [gip_cese_bind] call
    and that are not part of them.  Every property below holds for all
    of their behaviours. *)
Record Env : Type := {
  (** [ConfigParser._interpolate] on a raw value that contains [%(]:
      section, option, raw value, the chained variables.  It raises
      [InterpolationError] for a name that is not an option and for a
      nesting that is too deep, and lets through what [value % vars]
      raises otherwise ([ValueError] for [%(a], [TypeError] for
      [%(x)d]). *)
  interpolate : string -> string -> string -> gmap string string -> result string;
  (** [os.environ] as [getCEList] finds it. *)
  os_environ : gmap string string;
  (** [condor_ce_config_val -expand VAR] run as a subprocess: [None] on
      [OSError], else standard output and return code. *)
  condor_ce_config_val : string -> option (string * Z);
  (** [gip_storage.getPath] *)
  getPath : ConfigParser.t -> result (option string);
  (** [getQueueList] of [pbs_common], [lsf_common], [condor_common],
      [slurm_common] and [sge_common] *)
  getPBSQueueList : ConfigParser.t -> result (list string);
  getLSFQueueList : ConfigParser.t -> result (list string);
  getCondorQueueList : ConfigParser.t -> result (list string);
  getSlurmQueueList : ConfigParser.t -> result (list string);
  getSGEQueueList : ConfigParser.t -> result (list string);
  (** [gip.providers.lsf.bootstrapLSF], [gip.providers.sge.bootstrapSGE] *)
  bootstrapLSF : ConfigParser.t -> result unit;
  bootstrapSGE : ConfigParser.t -> result unit;
  (** [list(Set(l))] of [gip_sets]: the order of the result is that of
      the set's iteration. *)
  list_of_Set : list string -> list string
}.

(** The process and the file system around the program. *)
Record OS : Type := {
  (** [os.environ] *)
  environ : gmap string string;
  (** [os.path.expandvars] *)
  expandvars : string -> string;
  (** [os.path.exists] *)
  path_exists : string -> result bool;
  (** The lines of a file opened for reading, each with the newline that
      ends it; [None] stands for [IOError]. *)
  open_lines : string -> option (list string);
  (** The content of a file opened for reading; [None] stands for
      [IOError] and [OSError]. *)
  read_file : string -> option string;
  (** [d.values()]: the values of a dictionary in the order of its
      iteration. *)
  dict_values : gmap string string -> list string
}.

Module ConfigParserMethods.
Import ConfigParser.

(** [cp._interpolate(section, option, rawval, vars)]: a value without
    [%(] is returned as it is. *)
Definition _interpolate (E : Env) (section option rawval : string)
    (vars : gmap string string) : result string :=
  if truthy (PyStr rawval) && contains rawval "%("
  then interpolate E section option rawval vars
  else Ok rawval.

(** [cp.get(section, option)] *)
Definition get (E : Env) (cp : t) (section option : string) : result string :=
  sectiondict ← match assoc section (_sections cp) with
                | Some d => Ok d
                | None => if String.eqb section DEFAULTSECT
                          then Ok ∅ else Raise NoSectionError
                end;
  let d := sectiondict ∪ _defaults cp in
  let option := optionxform option in
  match d !! option with
  | None => Raise NoOptionError
  | Some value => _interpolate E section option value d
  end.

(** [cp.getboolean(section, option)] *)
Definition getboolean (E : Env) (cp : t) (section option : string) : result bool :=
  v ← get E cp section option;
  let v := lower v in
  if String.eqb v "1" || String.eqb v "yes" || String.eqb v "true" || String.eqb v "on"
  then Ok true
  else if String.eqb v "0" || String.eqb v "no" || String.eqb v "false" || String.eqb v "off"
  then Ok false
  else Raise ValueError.

(** ** Changing the configuration *)

(** Replacing the value of the first entry for [k]. *)
Fixpoint assoc_set {V} (k : string) (v : V) (l : list (string * V)) : list (string * V) :=
  match l with
  | [] => []
  | (k', w) :: l' => if String.eqb k k' then (k', v) :: l' else (k', w) :: assoc_set k v l'
  end.

(** [cp.has_section(section)] *)
Definition has_section (cp : t) (section : string) : bool :=
  bool_decide (is_Some (assoc section (_sections cp))).

(** [cp.add_section(section)] *)
Definition add_section (cp : t) (section : string) : result t :=
  if String.eqb (lower section) "default" then Raise ValueError
  else if has_section cp section then Raise (OtherError "DuplicateSectionError")
  else Ok (mk (_defaults cp) (_sections cp ++ [(section, ∅)])).

(** [cp.has_option(section, option)] *)
Definition has_option (cp : t) (section option : string) : bool :=
  if negb (truthy (PyStr section)) || String.eqb section DEFAULTSECT then
    bool_decide (is_Some (_defaults cp !! optionxform option))
  else
    match assoc section (_sections cp) with
    | None => false
    | Some d =>
        bool_decide (is_Some (d !! optionxform option)) ||
        bool_decide (is_Some (_defaults cp !! optionxform option))
    end.

(** [cp.set(section, option, value)] *)
Definition set (cp : t) (section option value : string) : result t :=
  if negb (truthy (PyStr section)) || String.eqb section DEFAULTSECT then
    Ok (mk (<[optionxform option := value]> (_defaults cp)) (_sections cp))
  else
    match assoc section (_sections cp) with
    | None => Raise NoSectionError
    | Some d =>
        Ok (mk (_defaults cp)
               (assoc_set section (<[optionxform option := value]> d) (_sections cp)))
    end.

End ConfigParserMethods.

(* ===================================================================== *)
(** * gip_common.py *)
(* ===================================================================== *)

Module gip_common.
Import ConfigParser ConfigParserMethods.

(** [cp_get(cp, section, option, default)].  The [isinstance] guard on
    [cp] always passes: [cp] is a [ConfigParser.t]. *)
Definition cp_get (E : Env) (cp : ConfigParser.t) (section option : string)
    (default : pyval) : result pyval :=
  if negb (truthy (PyStr section)) || negb (truthy (PyStr option))
  then Ok default
  else match get E cp section option with
       | Ok v => Ok (PyStr v)
       | Raise NoSectionError => Ok default
       | Raise NoOptionError => Ok default
       | Raise e => Raise e
       end.

(** [cp_getBoolean(cp, section, option, default=True)] *)
Definition cp_getBoolean (E : Env) (cp : ConfigParser.t) (section option : string)
    (default : pyval) : result pyval :=
  v ← cp_get E cp section option default;
  let val := lower (str v) in
  if (0 <=? find val "t") || (0 <=? find val "y") || (0 <=? find val "1")
  then Ok (PyBool true)
  else if (0 <=? find val "f") || (0 <=? find val "n") || (0 <=? find val "0")
  then Ok (PyBool false)
  else Ok default.

(** [cp_getInt(cp, section, option, default)]: the bare [except] turns
    every failure into the default. *)
Definition cp_getInt (E : Env) (cp : ConfigParser.t) (section option : string)
    (default : pyval) : pyval :=
  match (v ← cp_get E cp section option default;
         n ← int (PyStr (strip (str v)));
         Ok (PyInt n)) with
  | Ok r => r
  | Raise _ => default
  end.

(** [split_re = re.compile("\s*,?\s*")] *)
Definition split_re_split (s : string) : list string := re_split split_re_match s.

(** [cp_getList(cp, section, option, default)] *)
Definition cp_getList (E : Env) (cp : ConfigParser.t) (section option : string)
    (default : pyval) : result pyval :=
  try_except
    (results ← cp_get E cp section option default;
     match results with
     | PyStr s => Ok (PyList (split_re_split s))
     | _ => Ok results
     end)
    (list_of default).

(** [normalizeFQAN(fqan)] *)
Definition normalizeFQAN (fqan : string) : string :=
  let fqan := if startswith fqan "VOMS:" then drop 5 fqan else fqan in
  let fqan := if startswith fqan "VO:" then drop 3 fqan else fqan in
  let fqan := if negb (startswith fqan "/") then "/" +:+ fqan else fqan in
  let fqan := if find fqan "Role=" <? 0 then fqan +:+ "/Role=*" else fqan in
  fqan.

(** [a, b = l]: unpacking into exactly two names. *)
Definition unpack2 (l : list string) : result (string * string) :=
  match l with
  | [a; b] => Ok (a, b)
  | _ => Raise ValueError
  end.

(** [matchFQAN(fqan1, fqan2)] *)
Definition matchFQAN (fqan1 fqan2 : string) : result bool :=
  let fqan1 := normalizeFQAN fqan1 in
  let fqan2 := normalizeFQAN fqan2 in
  '(vog1, vor1) ← unpack2 (split fqan1 "/Role=");
  '(vog2, vor2) ← unpack2 (split fqan2 "/Role=");
  let vog_matches := false in
  let vor_matches := false in
  let vor_matches :=
    if String.eqb vor2 "*" then true
    else if String.eqb vor2 vor1 then true
    else vor_matches in
  let vog_matches := if startswith vog1 vog2 then true else vog_matches in
  Ok (vog_matches && vor_matches).

(** [responseTimes(cp, running, waiting, average_job_time=None,
    max_job_time=None)] *)
Definition responseTimes (E : Env) (cp : ConfigParser.t)
    (running waiting average_job_time max_job_time : pyval) : result (Z * Z) :=
  let running := match int running with Ok n => n | Raise _ => 0 end in
  let waiting := match int waiting with Ok n => n | Raise _ => 0 end in
  let average_job_time :=
    match int average_job_time with Ok n => PyInt n | Raise _ => PyNone end in
  let max_job_time :=
    match int max_job_time with Ok n => PyInt n | Raise _ => PyNone end in
  let average_job_time :=
    if decide (average_job_time = PyNone)
    then cp_getInt E cp "gip" "average_job_time" (PyInt (4 * 3600))
    else average_job_time in
  let max_job_time :=
    if decide (max_job_time = PyNone)
    then cp_getInt E cp "gip" "max_job_time" (PyInt (24 * 3600))
    else max_job_time in
  average_job_time ← the_int average_job_time;
  max_job_time ← the_int max_job_time;
  let max_job_time :=
    if max_job_time <? average_job_time then 2 * average_job_time else max_job_time in
  if Z.abs running + Z.abs waiting <? 10 then
    if (Z.abs running =? 0) || (Z.abs waiting =? 0)
    then Ok (60, 86400)
    else Ok (3600, 86400)
  else
    ERT ← (d ← float_of_Z (running + 10);
           a ← float_of_Z average_job_time;
           q ← float_div a d;
           w ← float_of_Z waiting;
           int_of_float (float_mul q w));
    WRT ← (d ← float_of_Z (running + 1);
           a ← float_of_Z max_job_time;
           q ← float_div a d;
           w ← float_of_Z waiting;
           int_of_float (float_mul q w));
    let ERT := Z.max (Z.min ERT 86400) 60 in
    let WRT := Z.max (Z.min WRT (30 * 86400)) (2 * ERT) in
    Ok (ERT, WRT).

(** [getCondorCEConfigVal(variable)] *)
Definition getCondorCEConfigVal (E : Env) (variable : string) : option string :=
  match condor_ce_config_val E variable with
  | None => None                                     (* OSError *)
  | Some (output, returncode) =>
      if negb (returncode =? 0) then None else Some (strip output)
  end.

(** [getHTCondorCEPort()] *)
Definition getHTCondorCEPort (E : Env) : Z :=
  let collector_host := getCondorCEConfigVal E "COLLECTOR_HOST" in
  let from_host :=
    match collector_host with
    | Some h =>
        if truthy (PyStr h) then
          if (1 <? count_char ":" h)%nat
          then re_search_digits_end "]:" h
          else re_search_digits_end ":" h
        else None
    | None => None
    end in
  match from_host with
  | Some g =>
      (* [int(match.group(1))]: a run of digits always converts *)
      match int_of_str g with Ok n => n | Raise _ => 9619 end
  | None =>
      match getCondorCEConfigVal E "COLLECTOR_PORT" with
      | Some v => match int_of_str v with Ok n => n | Raise _ => 9619 end
      | None => 9619
      end
  end.

(** ** The installation and the command line *)

(** [pickDir(dir, fallbackDir, envVar)] *)
Definition pickDir (O : OS) (dir fallbackDir envVar : string) : string :=
  if bool_decide (is_Some (environ O !! envVar)) then dir else fallbackDir.

(** [gipDir(tarDir, RPMDir)] *)
Definition gipDir (O : OS) (tarDir RPMDir : string) : string :=
  pickDir O tarDir RPMDir "GIP_LOCATION".

(** [vdtDir(tarDir, RPMDir)] *)
Definition vdtDir (O : OS) (tarDir RPMDir : string) : string :=
  pickDir O tarDir RPMDir "VDT_LOCATION".

(** [check_gip_location()]: the environment of the process afterwards. *)
Definition check_gip_location (O : OS) : result (gmap string string) :=
  if negb (bool_decide (is_Some (environ O !! "GIP_LOCATION"))) &&
     negb (bool_decide (is_Some (environ O !! "VDT_LOCATION")))
  then Ok (environ O)                                    (* RPM-based install *)
  else if negb (bool_decide (is_Some (environ O !! "GIP_LOCATION"))) then
    let vdt_loc := expandvars O "$VDT_LOCATION/gip" in
    if bool_decide (is_Some (environ O !! "VDT_LOCATION")) then
      found ← path_exists O vdt_loc;
      if found : bool then environ_set (environ O) "GIP_LOCATION" vdt_loc
      else Raise ValueError
    else Raise ValueError
  else
    let loc := expandvars O "$GIP_LOCATION" in
    found ← path_exists O loc;
    if negb found then Raise ValueError else Ok (environ O).

(** [parseOpts(args)]; [None] stands for the [IndexError] that indexing
    an empty argument raises.  The loop over [optNum] is a recursion on
    the arguments that are left. *)
Fixpoint parseOpts_loop (args : list string) (keywordOpts : gmap string string)
    (passedOpts givenOpts : list string)
  : option (gmap string string * list string * list string) :=
  match args with
  | [] => Some (keywordOpts, passedOpts, givenOpts)
  | opt :: rest =>
      hasKeyword ←
        (if (2 <? String.length opt)%nat && String.eqb (take 2 opt) "--"
         then Some (Some (drop 2 opt))
         else c ← head_char opt;
              if String.eqb (String c "") "-" then Some (Some (drop 1 opt))
              else Some None);
      match hasKeyword with
      | Some keyword =>
          if 0 <=? find keyword "=" then
            match split_max1 keyword "=" with
            | [keyword; value] =>
                parseOpts_loop rest (<[keyword := value]> keywordOpts) passedOpts givenOpts
            | _ => None               (* not reached: the separator occurs *)
            end
          else
            match rest with
            | [] => parseOpts_loop rest keywordOpts (passedOpts ++ [keyword])%list givenOpts
            | next :: rest' =>
                c ← head_char next;
                if String.eqb (String c "") "-"
                then parseOpts_loop rest keywordOpts (passedOpts ++ [keyword])%list givenOpts
                else parseOpts_loop rest' (<[keyword := next]> keywordOpts)
                       passedOpts givenOpts
            end
      | None => parseOpts_loop rest keywordOpts passedOpts (givenOpts ++ [opt])%list
      end
  end.

Definition parseOpts (args : list string)
  : option (gmap string string * list string * list string) :=
  parseOpts_loop args ∅ [] [].

(** [__write_config(cp, override, dict_object, key, section, option)]:
    the configuration afterwards. *)
Definition __write_config (cp : ConfigParser.t) (override : bool)
    (dict_object : gmap string string) (key section option : string)
  : result ConfigParser.t :=
  match dict_object !! key with
  | None => Ok cp                                        (* except: return *)
  | Some new_val =>
      cp ← (if negb (has_section cp section) then add_section cp section else Ok cp);
      if override && negb (has_option cp section option)
      then set cp section option new_val
      else if negb override then set cp section option new_val
      else Ok cp
  end.

(** ** The user-to-VO map *)

Module VoMapper.

(** An instance of the class [VoMapper]. *)
Record t : Type := mk {
  cp : ConfigParser.t;
  map_location : string;
  voi : list string;
  voc : list string;
  userMap : gmap string string
}.

(** The body of the loop of [parse], for one line of the file. *)
Definition parse_line (self : t) (line : string) : t :=
  let line := strip line in
  if startswith line "#voi" then
    mk (cp self) (map_location self) (tail (split_ws line)) (voc self) (userMap self)
  else if startswith line "#VOc" then
    mk (cp self) (map_location self) (voi self) (tail (split_ws line)) (userMap self)
  else if startswith line "#" then self
  else
    match unpack2 (split_ws line) with
    | Ok (user, vo) =>
        let vo := if startswith vo "uscms" || startswith vo "usatlas"
                  then drop 2 vo else vo in
        mk (cp self) (map_location self) (voi self) (voc self) (<[user := vo]> (userMap self))
    | Raise _ => self                                    (* except: pass *)
    end.

(** [self.parse()] *)
Definition parse (O : OS) (self : t) : result t :=
  match open_lines O (expandvars O (map_location self)) with
  | None => Raise (OtherError "IOError")
  | Some fp => Ok (foldl parse_line self fp)
  end.

(** [VoMapper(cp)] *)
Definition __init__ (E : Env) (O : OS) (cp : ConfigParser.t) : result t :=
  map_location ← cp_get E cp "vo" "user_vo_map"
                   (PyStr (vdtDir O "$VDT_LOCATION/monitoring/osg-user-vo-map.txt"
                                    "/var/lib/osg/user-vo-map"));
  match map_location with
  | PyStr map_location =>
      self ← parse O (mk cp map_location [] [] ∅);
      if bool_decide (userMap self = ∅) then Raise ValueError
      else Ok self
  | _ => Raise TypeError              (* not reached: the value is a string *)
  end.

(** [self[username]] *)
Definition __getitem__ (self : t) (username : string) : result string :=
  match userMap self !! username with
  | Some vo => Ok vo
  | None => Raise ValueError                             (* from KeyError *)
  end.

End VoMapper.

(** ** The search path, times and the VOs *)

(** The list comprehension of [addToPath]:
    [[set.setdefault(e,e) for e in pathlist if e not in set]]. *)
Fixpoint uniquepathlist_of (pathlist : list string) (set : gmap string string)
  : list string :=
  match pathlist with
  | [] => []
  | e :: pathlist' =>
      match set !! e with
      | None => let '(v, set) := setdefault e e set in v :: uniquepathlist_of pathlist' set
      | Some _ => uniquepathlist_of pathlist' set
      end
  end.

(** [addToPath(new_element)]: the environment of the process before and
    after. *)
Definition addToPath (environ : gmap string string) (new_element : pyval)
  : result (gmap string string) :=
  let path := match environ !! "PATH" with Some p => PyStr p | None => PyNone end in
  path ← format "%s:%s" [PyStr (str new_element); path];
  let pathlist := split path ":" in
  let uniquepathlist := uniquepathlist_of pathlist ∅ in
  let uniquepath := join ":" uniquepathlist in
  environ_set environ "PATH" uniquepath.

(** [a, b, c = l] *)
Definition unpack3 (l : list string) : result (string * string * string) :=
  match l with
  | [a; b; c] => Ok (a, b, c)
  | _ => Raise ValueError
  end.

(** [HMSToMin(hms)] *)
Definition HMSToMin (hms : string) : result Z :=
  '(h, m, s) ← unpack3 (split hms ":");
  h ← int (PyStr h);
  m ← int (PyStr m);
  s ← int (PyStr s);
  r ← (x ← float_of_Z s;
       q ← float_div x float_60;
       int_of_float (round q));
  Ok (h * 60 + m + r).

(** [[i.strip() for i in cp.get("vo", option).split(',')]], or the
    empty list when the option cannot be read. *)
Definition vo_list_option (E : Env) (cp : ConfigParser.t) (option : string)
  : list string :=
  match get E cp "vo" option with
  | Ok v => strip <$> split v ","
  | Raise _ => []
  end.

(** [if vo not in vos: vos.append(vo)] *)
Definition append_new (vos : list string) (vo : string) : list string :=
  if bool_decide (vo ∈ vos) then vos else (vos ++ [vo])%list.

(** [if vo in vos: vos.remove(vo)] *)
Definition remove_present (vos : list string) (vo : string) : list string :=
  if bool_decide (vo ∈ vos) then list_remove vo vos else vos.

(** [voList(cp, vo_map=None)] *)
Definition voList (E : Env) (O : OS) (cp : ConfigParser.t) (vo_map : option VoMapper.t)
  : result (list string) :=
  vo_map ← match vo_map with
           | None => VoMapper.__init__ E O cp
           | Some vo_map => Ok vo_map
           end;
  let vos : list string := [] in
  let vos := foldl append_new vos (dict_values O (VoMapper.userMap vo_map)) in
  let blacklist := vo_list_option E cp "vo_blacklist" in
  let whitelist := vo_list_option E cp "vo_whitelist" in
  let vos := foldl append_new vos whitelist in
  let vos := foldl remove_present vos blacklist in
  Ok vos.

(** ** Paths, defined values and RVF files *)

(** [pathFormatter(path, slash=False)]; [None] stands for the
    [IndexError] that [path[-1]] raises. *)
Definition pathFormatter (path : string) (slash : bool) : option string :=
  if slash then
    c ← last_char path;
    if negb (String.eqb (String c "") "/") then Some (path +:+ "/") else Some path
  else Some (rstrip_chars "/" path).

(** [notDefined(val)]; [None] stands for the [AttributeError] of a value
    without a method [lower]. *)
Definition notDefined (val : pyval) : option bool :=
  match val with
  | PyStr s =>
      if bool_decide (lower s ∈ ["UNAVAILABLE"; "UNDEFINED"; "UNKNOWN"])
      then Some true else Some false
  | _ => None
  end.

(** [isDefined(val)] *)
Definition isDefined (val : pyval) : option bool :=
  if truthy val && negb (bool_decide (val = PyStr "DEFAULT")) then
    n ← notDefined val;
    if negb n then Some true else Some false
  else Some false.

(** The body of the loop of [_parseRvfHelper] over the pairs. *)
Definition rvf_step (state : option string * gmap string (gmap string string))
    (kv : string * string) : option string * gmap string (gmap string string) :=
  let '(curAttr, results) := state in
  let '(key, val) := kv in
  if String.eqb key "Attribute" then (Some val, <[val := ∅]> results)
  else
    match curAttr with
    | Some attr =>
        match results !! attr with
        | Some entry => (curAttr, <[attr := <[key := val]> entry]> results)
        | None => state               (* not reached: the entry was made above *)
        end
    | None => state
    end.

(** [_parseRvfHelper(filepath)] *)
Definition _parseRvfHelper (O : OS) (filepath : string) : gmap string (gmap string string) :=
  match read_file O filepath with
  | None => ∅                                            (* EnvironmentError *)
  | Some rvf =>
      let pairs := rvf_pattern_findall rvf in
      snd (foldl rvf_step (None, ∅) pairs)
  end.

(** [parseRvf(name)]; [results.update(d)] lets the entries of [d]
    replace those of [results]. *)
Definition parseRvf (O : OS) (name : string) : gmap string (gmap string string) :=
  let defaults_basepath :=
    match environ O !! "GLOBUS_LOCATION" with
    | Some loc => loc +:+ "/share/globus_gram_job_manager"
    | None =>
        expandvars O (vdtDir O "$VDT_LOCATION/globus/share/globus_gram_job_manager"
                               "/usr/share/globus/globus_gram_job_manager")
    end in
  let defaults_filepath := path_join defaults_basepath name in
  let customized_filepath := path_join "/etc/globus/gram" name in
  foldl (fun results filepath => _parseRvfHelper O filepath ∪ results) ∅
        [defaults_filepath; customized_filepath].

(** [strContains(main_str, sub_str)]; [py23] is the module's flag for
    Python 2.3 or later. *)
Definition strContains (py23 : bool) (main_str sub_str : string) : bool :=
  let result := false in
  if py23 then contains main_str sub_str
  else
    let contains := fun haystack needle : string => -1 <? find haystack needle in
    if 0 <? (if contains main_str sub_str then 1 else 0) then true else result.

End gip_common.

(* ===================================================================== *)
(** * gip_sections *)
(* ===================================================================== *)

Module gip_sections.

(** Modelled from the spec: the module [gip_sections], which names the
    configuration sections and is not among the sources.  The spec
    speaks of the "ce" job manager, the "cesebind" simple flag and the
    literal section "se". *)
Definition ce : string := "ce".
Definition cesebind : string := "cesebind".
Definition se : string := "se".

End gip_sections.

(* ===================================================================== *)
(** * gip_cese_bind.py *)
(* ===================================================================== *)

Module gip_cese_bind.
Import ConfigParser ConfigParserMethods gip_common gip_sections.

(** The batch systems that [getCEList] knows. *)
Inductive job_manager : Type := PBS | LSF | Condor | Slurm | SGE.

Definition job_manager_of (jobman : string) : option job_manager :=
  if String.eqb jobman "pbs" then Some PBS
  else if String.eqb jobman "lsf" then Some LSF
  else if String.eqb jobman "condor" then Some Condor
  else if String.eqb jobman "slurm" then Some Slurm
  else if String.eqb jobman "sge" then Some SGE
  else None.

(** The branch of [getCEList] taken for each batch system.  In the one
    for [sge], [addToPath] assigns the [PATH] of the process, which can
    raise; the environment it leaves is not read again by the module. *)
Definition queue_entries_of (E : Env) (cp : ConfigParser.t) (jm : job_manager)
  : result (list string) :=
  match jm with
  | PBS => getPBSQueueList E cp
  | LSF => _ ← bootstrapLSF E cp; getLSFQueueList E cp
  | Condor => getCondorQueueList E cp
  | Slurm => getSlurmQueueList E cp
  | SGE =>
      _ ← bootstrapSGE E cp;
      sge_path ← cp_get E cp "sge" "sge_path" (PyStr ".");
      _ ← addToPath (os_environ E) sge_path;
      getSGEQueueList E cp
  end.

(** [getCEList(cp, extraCEs=[])] *)
Definition getCEList (E : Env) (cp : ConfigParser.t) (extraCEs : list string)
  : result (list string) :=
  jobman ← (fun v => lower (strip v)) <$> get E cp ce "job_manager";
  name ← get E cp ce "name";
  let hostnames := ([name] ++ extraCEs)%list in
  let prefix := "jobmanager" in
  let port := 2119 in
  cream ← cp_getBoolean E cp "cream" "enabled" (PyBool false);
  let '(prefix, port) := if truthy cream then ("cream", 8443) else (prefix, port) in
  htcondorce ← cp_getBoolean E cp "htcondorce" "enabled" (PyBool false);
  let '(prefix, port) :=
    if truthy htcondorce then ("htcondorce", getHTCondorCEPort E) else (prefix, port) in
  ce_names ← mapM (fun hostname =>
                     format "%s:%d/%s-%s-%%s"
                       [PyStr hostname; PyInt port; PyStr prefix; PyStr jobman])
                  hostnames;
  queue_entries ← match job_manager_of jobman with
                  | Some jm => queue_entries_of E cp jm
                  | None => Raise ValueError     (* Unknown job manager *)
                  end;
  @concat string <$> mapM (fun queue =>
                     mapM (fun ce_name => format ce_name [PyStr queue]) ce_names)
                  queue_entries.

(** A string-valued result of [cp_get]. *)
Definition the_str (v : pyval) : result string :=
  match v with
  | PyStr s => Ok s
  | _ => Raise TypeError
  end.

(** [getClassicSEList(cp)] *)
Definition getClassicSEList (E : Env) (cp : ConfigParser.t) : result (list string) :=
  let classic_list : list string := [] in
  advertise ← cp_getBoolean E cp "classic_se" "advertise_se" (PyBool true);
  if truthy advertise then
    classicSE ← cp_get E cp "classic_se" "unique_name" PyNone;
    if truthy classicSE then
      classicSE ← the_str classicSE;
      Ok [classicSE]
    else
      siteUniqueID ← cp_get E cp "site" "unique_name" (PyStr "UNKNOWN");
      siteUniqueID ← the_str siteUniqueID;
      let classicSE := siteUniqueID +:+ "_classicSE" in
      Ok [classicSE]
  else Ok classic_list.

(** The test that [getSEList] and [getSESections] apply to a section
    name before looking at it. *)
Definition skipped_section (sect : string) : bool :=
  negb (startswith (lower sect) "se") || String.eqb (lower sect) "se".

(** The loop of [getSEList] over [cp.sections()] in simple mode. *)
Fixpoint getSEList_scan (E : Env) (cp : ConfigParser.t) (sects : list string)
    (se_list : list string) : result (list string) :=
  match sects with
  | [] => Ok se_list
  | sect :: sects' =>
      if skipped_section sect then getSEList_scan E cp sects' se_list
      else
        advertise ← cp_getBoolean E cp sect "advertise_se" (PyBool true);
        if negb (truthy advertise) then getSEList_scan E cp sects' se_list
        else
          match get E cp sect "unique_name" with
          | Ok v => getSEList_scan E cp sects' (se_list ++ [v])%list
          | Raise _ => getSEList_scan E cp sects' se_list
          end
  end.

(** [getSEList(cp, classicSEs=True)].  The function calls itself;
    [depth] is the number of frames that the interpreter still allows
    (its recursion limit), and running out of them raises
    [RuntimeError]. *)
Fixpoint getSEList (depth : nat) (E : Env) (cp : ConfigParser.t) (classicSEs : bool)
  : result (list string) :=
  match depth with
  | O => Raise RuntimeError      (* maximum recursion depth exceeded *)
  | S depth' =>
      simple ← getboolean E cp cesebind "simple";
      let se_list : list string := [] in
      se_list ←
        (if simple : bool then
           let se_list :=
             match (advertise ← cp_getBoolean E cp se "advertise_se" (PyBool true);
                    if truthy advertise
                    then v ← get E cp se "unique_name"; Ok [v]
                    else Ok se_list) with
             | Ok l => l
             | Raise _ => se_list
             end in
           getSEList_scan E cp (sections cp) se_list
         else
           match get E cp cesebind "se_list" with
           | Ok v => Ok (split_re_split v)
           | Raise _ => getSEList depth' E cp classicSEs
           end);
      se_list ← (if classicSEs
                 then classic ← getClassicSEList E cp; Ok (se_list ++ classic)%list
                 else Ok se_list);
      Ok (list_of_Set E se_list)
  end.

(** [getSESections(cp)] *)
Fixpoint getSESections_scan (E : Env) (cp : ConfigParser.t) (sects : list string)
    (se_map : gmap string string) : result (gmap string string) :=
  match sects with
  | [] => Ok se_map
  | sect :: sects' =>
      if skipped_section sect then getSESections_scan E cp sects' se_map
      else
        advertise ← cp_getBoolean E cp sect "advertise_se" (PyBool true);
        if negb (truthy advertise) then getSESections_scan E cp sects' se_map
        else
          match get E cp sect "unique_name" with
          | Ok v => getSESections_scan E cp sects' (<[v := sect]> se_map)
          | Raise _ => getSESections_scan E cp sects' se_map
          end
  end.

Definition getSESections (E : Env) (cp : ConfigParser.t) : result (gmap string string) :=
  getSESections_scan E cp (sections cp) ∅.

(** A CESE bind entry: the dictionary with the four keys that
    [getCESEBindInfo] fills in. *)
Record bind : Type := mk_bind {
  ceUniqueID : string;
  seUniqueID : string;
  access_point : string;
  mount_point : string
}.

(** The mount point of one SE, looked up once per SE. *)
Definition mount_point_of (E : Env) (cp : ConfigParser.t)
    (section_map : gmap string string) (myse : string) : result pyval :=
  match section_map !! myse with
  | Some section => cp_get E cp section "mount_point" PyNone
  | None => Ok PyNone
  end.

(** The body of the inner loop: the entry for one SE and one CE. *)
Definition bind_entry (classicse_list : list string)
    (access_point classic_access_point : string) (mount_point : pyval)
    (myse myce : string) : result bind :=
  let ap := if bool_decide (myse ∈ classicse_list)
            then classic_access_point else access_point in
  mp ← (if truthy mount_point
        then format (String newline "GlueCESEBindMountInfo: %s") [mount_point]
        else Ok "");
  Ok {| ceUniqueID := myce; seUniqueID := myse; access_point := ap; mount_point := mp |}.

(** [getCESEBindInfo(cp)].  [depth] is passed on to [getSEList]. *)
Definition getCESEBindInfo (depth : nat) (E : Env) (cp : ConfigParser.t)
  : result (list bind) :=
  ce_list ← getCEList E cp [];
  se_list ← getSEList depth E cp false;
  classicse_list ← getClassicSEList E cp;
  let se_list := (se_list ++ classicse_list)%list in
  section_map ← getSESections E cp;
  access_point ← getPath E cp;
  let access_point :=
    match access_point with
    | Some p => if truthy (PyStr p) then p else "/"
    | None => "/"
    end in
  classic_access_point ← cp_get E cp "osg_dirs" "data" (PyStr "/");
  classic_access_point ← the_str classic_access_point;
  @concat bind <$> mapM (fun myse =>
                     mount_point ← mount_point_of E cp section_map myse;
                     mapM (bind_entry classicse_list access_point
                                      classic_access_point mount_point myse)
                          ce_list)
                  se_list.

End gip_cese_bind.

Import ConfigParser ConfigParserMethods gip_common gip_sections gip_cese_bind.

(* ===================================================================== *)
(** * Specification-level notions *)
(* ===================================================================== *)

(** [sub] occurs somewhere in [s]. *)
Fixpoint occurs (sub s : string) : bool :=
  String.prefix sub s ||
  match s with
  | EmptyString => false
  | String _ s' => occurs sub s'
  end.

(** Number of positions of [s] at which [sub] starts. *)
Fixpoint occurrences (sub s : string) : nat :=
  ((if String.prefix sub s then 1 else 0) +
   match s with
   | EmptyString => 0
   | String _ s' => occurrences sub s'
   end)%nat.

(** The first [k] characters of [s] are not [/]. *)
Fixpoint no_slash_upto (k : nat) (s : string) : Prop :=
  match k, s with
  | S k', String c s' => c <> "/"%char /\ no_slash_upto k' s'
  | _, _ => True
  end.

(** The character [c] occurs in [s], in either case. *)
Fixpoint mentions (s : string) (c : ascii) : bool :=
  match s with
  | EmptyString => false
  | String c' s' => Ascii.eqb (lower_ascii c') c || mentions s' c
  end.

(** The normal form of an FQAN, following the words of the
    specification: an optional [VOMS:] prefix and an optional [VO:]
    prefix are removed, a leading [/] is ensured, and [/Role=*] is
    appended exactly when the given string has no [Role=] in it. *)
Definition strip_prefix (p s : string) : string :=
  if String.prefix p s then drop (String.length p) s else s.

Definition ensure_leading_slash (s : string) : string :=
  match s with
  | String "/" _ => s
  | _ => String "/" s
  end.

Definition normalizeFQAN_spec (fqan : string) : string :=
  let body := ensure_leading_slash (strip_prefix "VO:" (strip_prefix "VOMS:" fqan)) in
  if occurs "Role=" fqan then body else body +:+ "/Role=*".

(** The pair [(section, option)] is stored in [cp]: the section exists
    (or is [DEFAULT]) and the option, lower-cased, is in the section or
    among the defaults. *)
Definition stored (cp : ConfigParser.t) (section option : string) : bool :=
  match assoc section (_sections cp) with
  | Some d => bool_decide (is_Some ((d ∪ _defaults cp) !! optionxform option))
  | None => String.eqb section DEFAULTSECT &&
            bool_decide (is_Some (_defaults cp !! optionxform option))
  end.

(** The interpolation of the value stored for the pair raises [e]: the
    options of the section (none for [DEFAULT]) over the defaults have
    a value for the option, the value has a [%(] in it, and the
    substitution raises [e]. *)
Definition interpolation_raises (E : Env) (cp : ConfigParser.t) (section option : string)
    (e : exn) : Prop :=
  exists (d : gmap string string) (rawval : string),
    (assoc section (_sections cp) = Some d \/
     assoc section (_sections cp) = None /\ section = DEFAULTSECT /\ d = ∅) /\
    (d ∪ _defaults cp) !! optionxform option = Some rawval /\
    contains rawval "%(" = true /\
    interpolate E section (optionxform option) rawval (d ∪ _defaults cp) = Raise e.

(** The value that the specification gives to [getBoolean] for a stored
    string [v]: the letters for true are looked for first, then the
    letters for false, in either case. *)
Definition getBoolean_spec (v : string) (default : pyval) : pyval :=
  if mentions v "t" || mentions v "y" || mentions v "1" then PyBool true
  else if mentions v "f" || mentions v "n" || mentions v "0" then PyBool false
  else default.

(** Every character of [s] satisfies [P]. *)
Fixpoint all_chars (P : ascii -> bool) (s : string) : bool :=
  match s with
  | EmptyString => true
  | String c s' => P c && all_chars P s'
  end.

Definition digit_or_minus (c : ascii) : bool := isdigit c || Ascii.eqb c "-".

(** The names of the batch systems that [getCEList] accepts. *)
Definition known_job_managers : list string := ["pbs"; "lsf"; "condor"; "slurm"; "sge"].

(** The identifier of a CE: [hostname:port/prefix-jobmanager-queue]. *)
Definition ce_id (hostname : string) (port : Z) (prefix jobman queue : string) : string :=
  hostname +:+ ":" +:+ str_of_Z port +:+ "/" +:+ prefix +:+ "-" +:+ jobman +:+ "-" +:+ queue.

(** Prefix and port of the CE identifiers, from the [cream] and
    [htcondorce] flags. *)
Definition ce_prefix (cream htcondorce : pyval) : string :=
  if truthy htcondorce then "htcondorce"
  else if truthy cream then "cream" else "jobmanager".

Definition ce_port (E : Env) (cream htcondorce : pyval) : Z :=
  if truthy htcondorce then getHTCondorCEPort E
  else if truthy cream then 8443 else 2119.

(** The default access point: the storage path, or [/] when there is
    none. *)
Definition default_access_point (path : option string) : string :=
  match path with
  | Some p => if String.eqb p "" then "/" else p
  | None => "/"
  end.

(** The [mount_point] entry of a bind record for the SE [myse]: the
    attribute line, when [section_map] knows the SE and the section it
    gives has a non-empty [mount_point]; the empty string otherwise. *)
Definition mount_line (E : Env) (cp : ConfigParser.t)
    (section_map : gmap string string) (myse : string) : string :=
  match section_map !! myse with
  | Some section =>
      match cp_get E cp section "mount_point" PyNone with
      | Ok (PyStr mp) =>
          if String.eqb mp "" then ""
          else String newline "GlueCESEBindMountInfo: " +:+ mp
      | _ => ""
      end
  | None => ""
  end.

(** The bind record for one SE and one CE. *)
Definition bind_record (E : Env) (cp : ConfigParser.t)
    (classicse_list : list string) (section_map : gmap string string)
    (access_point classic_access_point : string) (myse myce : string) : bind :=
  {| ceUniqueID := myce;
     seUniqueID := myse;
     access_point := if bool_decide (myse ∈ classicse_list)
                     then classic_access_point else access_point;
     mount_point := mount_line E cp section_map myse |}.

(** The job time that [responseTimes] works with: the argument when
    [int] accepts it, else the option of the [gip] section, else the
    default. *)
Definition job_time (E : Env) (cp : ConfigParser.t) (arg : pyval)
    (option : string) (default : Z) : pyval :=
  match int arg with
  | Ok n => PyInt n
  | Raise _ => cp_getInt E cp "gip" option (PyInt default)
  end.

(** [int(a / float(d) * w)] for integers [a], [d] and [w]. *)
Definition scaled_time (a d w : Z) : result Z :=
  d ← float_of_Z d;
  a ← float_of_Z a;
  q ← float_div a d;
  w ← float_of_Z w;
  int_of_float (float_mul q w).

(** The magnitude of a float is bounded by [2^B]: it is a zero, or a
    finite number whose mantissa has [d] digits and whose exponent [e]
    satisfies [d + e <= B]. *)
Definition mag_le (B : Z) (x : float) : Prop :=
  match x with
  | S754_zero _ => True
  | S754_finite _ m e => Zpos (digits2_pos m) + e <= B
  | _ => False
  end.

Definition not_percent (c : ascii) : bool := negb (Ascii.eqb c "%").

(** ** Notions for the rest of [gip_common] *)

(** A character that [split_re] never matches: neither white space nor
    a comma. *)
Definition token_char (c : ascii) : bool := negb (isspace c) && negb (Ascii.eqb c ",").

(** The characters of [s] that satisfy [P], in order. *)
Fixpoint filter_chars (P : ascii -> bool) (s : string) : string :=
  match s with
  | EmptyString => EmptyString
  | String c s' => if P c then String c (filter_chars P s') else filter_chars P s'
  end.

(** [n] copies of the character [c]. *)
Fixpoint replicate_char (n : nat) (c : ascii) : string :=
  match n with
  | O => EmptyString
  | S n' => String c (replicate_char n' c)
  end.

(** What [addToPath] prints for the old search path: its value, or
    [None] when [PATH] is not set. *)
Definition old_path (environ : gmap string string) : string :=
  match environ !! "PATH" with
  | Some p => p
  | None => "None"
  end.

(** [int(round(s/60.0))] for an integer [s]. *)
Definition rounded_minutes (s : Z) : result Z :=
  x ← float_of_Z s;
  q ← float_div x float_60;
  int_of_float (round q).

(** A name without white space in it, and not empty. *)
Definition no_space (s : string) : bool := all_chars (fun c => negb (isspace c)) s.

(** The VO that [VoMapper.parse] records for the VO name [vo] of a
    line: [uscms...] and [usatlas...] lose their first two letters. *)
Definition recorded_vo (vo : string) : string :=
  if startswith vo "uscms" || startswith vo "usatlas" then drop 2 vo else vo.

(** The process after its environment has become [environ']. *)
Definition with_environ (O : OS) (environ' : gmap string string) : OS := {|
  environ := environ';
  expandvars := expandvars O;
  path_exists := path_exists O;
  open_lines := open_lines O;
  read_file := read_file O;
  dict_values := dict_values O
|}.

(** One of the two location variables is set. *)
Definition located (O : OS) : bool :=
  bool_decide (is_Some (environ O !! "GIP_LOCATION")) ||
  bool_decide (is_Some (environ O !! "VDT_LOCATION")).

(** The section [sect] is advertised: its [advertise_se] flag, read
    with the default [True], is true. *)
Definition advertised (E : Env) (cp : ConfigParser.t) (sect : string) : Prop :=
  exists a, cp_getBoolean E cp sect "advertise_se" (PyBool true) = Ok a /\ truthy a = true.

(** ** The text of an RVF file *)

(** A line [Key: Value]. *)
Definition rvf_line (kv : string * string) : string :=
  kv.1 +:+ ": " +:+ kv.2 +:+ String newline "".

(** The file made of the lines for [pairs]. *)
Fixpoint rvf_text (pairs : list (string * string)) : string :=
  match pairs with
  | [] => ""
  | kv :: pairs' => rvf_line kv +:+ rvf_text pairs'
  end.

(** A key is not empty and has neither a newline nor a colon; a value
    has no newline. *)
Definition rvf_pair_ok (kv : string * string) : bool :=
  negb (String.eqb kv.1 "") &&
  all_chars (fun c => negb (Ascii.eqb c newline) && negb (Ascii.eqb c ":")) kv.1 &&
  all_chars (fun c => negb (Ascii.eqb c newline)) kv.2.

Definition not_attribute (kv : string * string) : bool :=
  negb (String.eqb kv.1 "Attribute").

(** The entry of an attribute whose block has the lines [body]. *)
Definition rvf_entry (body : list (string * string)) : gmap string string :=
  foldl (fun entry kv => <[kv.1 := kv.2]> entry) ∅ body.

(** The pairs of a sequence of attribute blocks, each a name and the
    lines that follow it. *)
Definition rvf_block_pairs (block : string * list (string * string))
  : list (string * string) :=
  ("Attribute", block.1) :: block.2.

(** The dictionary for a sequence of attribute blocks: a later block
    replaces an earlier one of the same name. *)
Definition rvf_results (blocks : list (string * list (string * string)))
  : gmap string (gmap string string) :=
  foldl (fun results block => <[block.1 := rvf_entry block.2]> results) ∅ blocks.

(* ===================================================================== *)
(** * Sample environment and configurations *)
(* ===================================================================== *)

(** An environment in which PBS reports two queues, no storage path is
    known and [condor_ce_config_val] cannot be run. *)
Definition sample_env : Env := {|
  interpolate := fun _ _ _ _ => Raise InterpolationError;
  os_environ := <["PATH" := "/usr/bin:/bin"]> ∅;
  condor_ce_config_val := fun _ => None;
  getPath := fun _ => Ok None;
  getPBSQueueList := fun _ => Ok ["q1"; "q2"];
  getLSFQueueList := fun _ => Ok [];
  getCondorQueueList := fun _ => Ok [];
  getSlurmQueueList := fun _ => Ok [];
  getSGEQueueList := fun _ => Ok [];
  bootstrapLSF := fun _ => Ok ();
  bootstrapSGE := fun _ => Ok ();
  list_of_Set := remove_dups
|}.

(** A configuration without any section. *)
Definition empty_cp : ConfigParser.t := ConfigParser.mk ∅ [].

(** A site with a PBS compute element and two storage elements. *)
Definition sample_cp : ConfigParser.t :=
  ConfigParser.mk ∅
    [ ("ce", {[ "name" := "host"; "job_manager" := " PBS " ]});
      ("cesebind", {[ "simple" := "True" ]});
      ("se_a", {[ "unique_name" := "sea"; "mount_point" := "/mnt/a,/b" ]});
      ("SE_b", {[ "unique_name" := "seb" ]});
      ("gip", {[ "flag" := "Maybe" ]}) ].

(** Explicit mode is asked for, but no [se_list] is given. *)
Definition explicit_without_list_cp : ConfigParser.t :=
  ConfigParser.mk ∅
    [ ("cesebind", {[ "simple" := "False" ]});
      ("se_a", {[ "unique_name" := "sea" ]}) ].

(** An unknown job manager, with and without the name of the CE. *)
Definition bogus_cp : ConfigParser.t :=
  ConfigParser.mk ∅ [ ("ce", {[ "name" := "host"; "job_manager" := "bogus" ]}) ].

Definition bogus_nameless_cp : ConfigParser.t :=
  ConfigParser.mk ∅ [ ("ce", {[ "job_manager" := "bogus" ]}) ].

(** A site whose only storage element is described by the section
    [se] itself, with a mount point. *)
Definition literal_se_cp : ConfigParser.t :=
  ConfigParser.mk ∅
    [ ("ce", {[ "name" := "host"; "job_manager" := "pbs" ]});
      ("cesebind", {[ "simple" := "True" ]});
      ("se", {[ "unique_name" := "se0"; "mount_point" := "/mnt/0" ]});
      ("classic_se", {[ "advertise_se" := "False" ]}) ].

(** A CE name with a doubled percent sign. *)
Definition percent_cp : ConfigParser.t :=
  ConfigParser.mk ∅ [ ("ce", {[ "name" := "h%%"; "job_manager" := "pbs" ]}) ].

(** An SGE site whose [sge_path] is a NUL byte. *)
Definition sge_nul_cp : ConfigParser.t :=
  ConfigParser.mk ∅ [ ("ce", {[ "name" := "host"; "job_manager" := "sge" ]});
                      ("sge", {[ "sge_path" := String (ascii_of_N 0) "" ]}) ].

(** An environment in which the substitution fails in the [%] operator:
    [ValueError] for a value that ends inside a key, as in [%(a]. *)
Definition incomplete_key_env : Env := {|
  interpolate := fun _ _ rawval _ =>
    if contains rawval ")" then Raise InterpolationError else Raise ValueError;
  os_environ := ∅;
  condor_ce_config_val := fun _ => None;
  getPath := fun _ => Ok None;
  getPBSQueueList := fun _ => Ok [];
  getLSFQueueList := fun _ => Ok [];
  getCondorQueueList := fun _ => Ok [];
  getSlurmQueueList := fun _ => Ok [];
  getSGEQueueList := fun _ => Ok [];
  bootstrapLSF := fun _ => Ok ();
  bootstrapSGE := fun _ => Ok ();
  list_of_Set := remove_dups
|}.

(** A value that ends inside a key. *)
Definition incomplete_key_cp : ConfigParser.t :=
  ConfigParser.mk ∅ [ ("gip", {[ "dirs" := "%(a" ]}) ].

(** An environment in which [condor_ce_config_val] answers from a table
    of variables. *)
Definition condor_env (table : list (string * string)) : Env := {|
  interpolate := fun _ _ _ _ => Raise InterpolationError;
  os_environ := <["PATH" := "/usr/bin:/bin"]> ∅;
  condor_ce_config_val := fun v =>
    match assoc v table with
    | Some out => Some (out, 0)
    | None => Some ("", 1)
    end;
  getPath := fun _ => Ok None;
  getPBSQueueList := fun _ => Ok [];
  getLSFQueueList := fun _ => Ok [];
  getCondorQueueList := fun _ => Ok [];
  getSlurmQueueList := fun _ => Ok [];
  getSGEQueueList := fun _ => Ok [];
  bootstrapLSF := fun _ => Ok ();
  bootstrapSGE := fun _ => Ok ();
  list_of_Set := remove_dups
|}.

(** A file system with one user-to-VO map at the place of an RPM
    install. *)
Definition sample_os : OS := {|
  environ := ∅;
  expandvars := fun path => path;
  path_exists := fun _ => Ok true;
  open_lines := fun path =>
    if String.eqb path "/var/lib/osg/user-vo-map"
    then Some [ String.app "#voi cms atlas" (String newline "");
                String.app "# comment" (String newline "");
                String.app "cmsuser uscms" (String newline "");
                String.app "broken" (String newline "");
                String.app " atlasuser   usatlas01 " (String newline "");
                String.app "osguser osg" (String newline "") ]
    else None;
  read_file := fun _ => None;
  dict_values := fun d => (map_to_list d).*2
|}.

Definition sample_vo_map : VoMapper.t :=
  VoMapper.mk empty_cp "/var/lib/osg/user-vo-map" ["cms"; "atlas"] []
    (<["cmsuser" := "cms"]> (<["atlasuser" := "atlas01"]> (<["osguser" := "osg"]> ∅))).

(** A VDT install: only [VDT_LOCATION] is set. *)
Definition vdt_os : OS := {|
  environ := <["VDT_LOCATION" := "/opt/vdt"]> ∅;
  expandvars := fun path =>
    if String.eqb path "$VDT_LOCATION/gip" then "/opt/vdt/gip" else path;
  path_exists := fun _ => Ok true;
  open_lines := fun _ => None;
  read_file := fun _ => None;
  dict_values := fun d => (map_to_list d).*2
|}.

(** A file system with an RVF file of defaults and a customized one. *)
Definition rvf_os : OS := {|
  environ := <["GLOBUS_LOCATION" := "/opt/globus"]> ∅;
  expandvars := fun path => path;
  path_exists := fun _ => Ok true;
  open_lines := fun _ => None;
  read_file := fun path =>
    if String.eqb path "/opt/globus/share/globus_gram_job_manager/pbs.rvf"
    then Some (rvf_text [ ("Comment", "defaults");
                          ("Attribute", "queue"); ("Default", "batch"); ("Publish", "true");
                          ("Attribute", "maxtime"); ("Default", "60") ])
    else if String.eqb path "/etc/globus/gram/pbs.rvf"
    then Some (rvf_text [ ("Attribute", "queue"); ("Default", "long") ])
    else None;
  dict_values := fun d => (map_to_list d).*2
|}.

(** A site whose VO white list is empty. *)
Definition empty_whitelist_cp : ConfigParser.t :=
  ConfigParser.mk ∅ [ ("vo", {[ "vo_whitelist" := "" ]}) ].

(** A site with three SE sections, one of them not advertised and two
    with the same unique name. *)
Definition se_sections_cp : ConfigParser.t :=
  ConfigParser.mk ∅
    [ ("cesebind", {[ "simple" := "yes" ]});
      ("se", {[ "unique_name" := "main" ]});
      ("se_a", {[ "unique_name" := "sea" ]});
      ("SE_hidden", {[ "unique_name" := "hidden"; "advertise_se" := "False" ]});
      ("se_b", {[ "unique_name" := "sea" ]});
      ("site", {[ "unique_name" := "mysite" ]}) ].

(* ===================================================================== *)
(** * Strings: basic facts *)
(* ===================================================================== *)

Section StringFacts.

Lemma append_cons c s t : String c s +:+ t = String c (s +:+ t).
Proof. reflexivity. Qed.

Lemma append_nil_l t : "" +:+ t = t.
Proof. reflexivity. Qed.

Lemma prefix_nil s : String.prefix "" s = true.
Proof. destruct s; reflexivity. Qed.

Lemma prefix_cons a p b s :
  String.prefix (String a p) (String b s) = Ascii.eqb a b && String.prefix p s.
Proof.
  simpl. destruct (ascii_dec a b) as [->|Hn].
  - now rewrite Ascii.eqb_refl.
  - apply Ascii.eqb_neq in Hn. now rewrite Hn.
Qed.

Lemma prefix_split p s : String.prefix p s = true -> s = p +:+ drop (String.length p) s.
Proof.
  revert s; induction p as [|a p IH]; intros s H; [reflexivity|].
  destruct s as [|b s]; [discriminate|]. simpl in H.
  destruct (ascii_dec a b) as [->|]; [|discriminate].
  simpl. rewrite append_cons. f_equal. now apply IH.
Qed.

Lemma prefix_app_same p s : String.prefix p (p +:+ s) = true.
Proof.
  induction p as [|a p IH]; [apply prefix_nil|].
  rewrite append_cons. simpl.
  destruct (ascii_dec a a); [assumption|congruence].
Qed.

Lemma find_from_occurs sub s i :
  0 <= i -> (find_from sub s i <? 0) = negb (occurs sub s).
Proof.
  revert i; induction s as [|c s IH]; intros i Hi; cbn [find_from occurs].
  - destruct (String.prefix sub ""); cbn [orb negb]; [apply Z.ltb_ge; lia|reflexivity].
  - destruct (String.prefix sub (String c s)); cbn [orb negb].
    + apply Z.ltb_ge; lia.
    + apply IH; lia.
Qed.

Lemma find_occurs s sub : (find s sub <? 0) = negb (occurs sub s).
Proof. apply find_from_occurs; lia. Qed.

Lemma find_nonneg_occurs s sub : (0 <=? find s sub) = occurs sub s.
Proof.
  pose proof (find_occurs s sub) as H.
  destruct (occurs sub s); simpl in H.
  - apply Z.ltb_ge in H. now apply Z.leb_le.
  - apply Z.ltb_lt in H. apply Z.leb_gt. lia.
Qed.

Lemma rev_app_append s t : String.rev_app s t = String.rev s +:+ t.
Proof.
  unfold String.rev. revert t; induction s as [|c s IH]; intros t; simpl; [reflexivity|].
  rewrite IH, (IH (String c "")). clear IH.
  induction (String.rev_app s "") as [|d u IHu]; [reflexivity|].
  rewrite !append_cons. f_equal. exact IHu.
Qed.

Lemma append_nil_r s : s +:+ "" = s.
Proof. induction s as [|c s IH]; [reflexivity|]. rewrite append_cons. congruence. Qed.

Lemma append_assoc s t u : (s +:+ t) +:+ u = s +:+ (t +:+ u).
Proof. induction s as [|c s IH]; [reflexivity|]. rewrite !append_cons. congruence. Qed.

Lemma rev_cons c s : String.rev (String c s) = String.rev s +:+ String c "".
Proof. unfold String.rev at 1. simpl. apply rev_app_append. Qed.

End StringFacts.

(* ===================================================================== *)
(** * FQAN normalisation and matching *)
(* ===================================================================== *)

Lemma occurs_Role_strip_VOMS s :
  occurs "Role=" (strip_prefix "VOMS:" s) = occurs "Role=" s.
Proof.
  unfold strip_prefix. destruct (String.prefix "VOMS:" s) eqn:H; [|reflexivity].
  apply prefix_split in H. rewrite H at 2. reflexivity.
Qed.

Lemma occurs_Role_strip_VO s :
  occurs "Role=" (strip_prefix "VO:" s) = occurs "Role=" s.
Proof.
  unfold strip_prefix. destruct (String.prefix "VO:" s) eqn:H; [|reflexivity].
  apply prefix_split in H. rewrite H at 2. reflexivity.
Qed.

Lemma occurs_Role_slash s :
  occurs "Role=" (ensure_leading_slash s) = occurs "Role=" s.
Proof.
  destruct s as [|c s]; [reflexivity|].
  unfold ensure_leading_slash.
  destruct (ascii_dec c "/") as [->|Hc]; [reflexivity|].
  assert (Hs : match c with "/"%char => String c s | _ => String "/" (String c s) end
               = String "/" (String c s)).
  { destruct c as [[] [] [] [] [] [] [] []]; try reflexivity. congruence. }
  rewrite Hs. reflexivity.
Qed.

Lemma ensure_leading_slash_eq s :
  (if negb (startswith s "/") then "/" +:+ s else s) = ensure_leading_slash s.
Proof.
  destruct s as [|c s]; [reflexivity|].
  unfold startswith, ensure_leading_slash. rewrite prefix_cons, prefix_nil, andb_true_r.
  destruct (Ascii.eqb_spec "/" c) as [<-|Hc]; [reflexivity|].
  destruct c as [[] [] [] [] [] [] [] []]; try reflexivity. congruence.
Qed.

Lemma ensure_leading_slash_starts s : startswith (ensure_leading_slash s) "/" = true.
Proof.
  destruct s as [|c s]; [reflexivity|].
  unfold ensure_leading_slash, startswith.
  destruct c as [[] [] [] [] [] [] [] []]; rewrite prefix_cons, prefix_nil; reflexivity.
Qed.

Lemma normalizeFQAN_refines fqan : normalizeFQAN fqan = normalizeFQAN_spec fqan.
Proof.
  unfold normalizeFQAN, normalizeFQAN_spec.
  change (if startswith fqan "VOMS:" then drop 5 fqan else fqan)
    with (strip_prefix "VOMS:" fqan).
  set (f1 := strip_prefix "VOMS:" fqan).
  change (if startswith f1 "VO:" then drop 3 f1 else f1) with (strip_prefix "VO:" f1).
  set (f2 := strip_prefix "VO:" f1).
  rewrite ensure_leading_slash_eq.
  rewrite find_occurs, occurs_Role_slash.
  unfold f2, f1. rewrite occurs_Role_strip_VO, occurs_Role_strip_VOMS.
  destruct (occurs "Role=" fqan); reflexivity.
Qed.

(** C8. [normalizeFQAN] removes an optional leading [VOMS:] and an
    optional leading [VO:], makes the result start with [/], and appends
    [/Role=*] exactly when the given string has no [Role=] in it; the
    result always starts with [/] and contains [Role=].  In particular
    [VOMS:/cms] becomes [/cms/Role=*] and [VO:cms/Role=production]
    becomes [/cms/Role=production]. *)
Theorem normalizeFQAN_correct :
  (forall fqan : string,
     normalizeFQAN fqan = normalizeFQAN_spec fqan /\
     startswith (normalizeFQAN fqan) "/" = true /\
     occurs "Role=" (normalizeFQAN fqan) = true) /\
  normalizeFQAN "VOMS:/cms" = "/cms/Role=*" /\
  normalizeFQAN "VO:cms/Role=production" = "/cms/Role=production".
Proof.
  split; [|split; reflexivity].
  intros fqan. split; [apply normalizeFQAN_refines|].
  rewrite normalizeFQAN_refines. unfold normalizeFQAN_spec.
  set (body := ensure_leading_slash _).
  assert (Hb : startswith body "/" = true) by apply ensure_leading_slash_starts.
  assert (Ho : occurs "Role=" body = occurs "Role=" fqan).
  { unfold body. now rewrite occurs_Role_slash, occurs_Role_strip_VO, occurs_Role_strip_VOMS. }
  destruct (occurs "Role=" fqan) eqn:Hr.
  - split; assumption.
  - split.
    + destruct body as [|c b]; [discriminate|].
      unfold startswith in *. rewrite append_cons, prefix_cons in *.
      rewrite prefix_nil in *. exact Hb.
    + clear. induction body as [|c b IH]; [reflexivity|].
      rewrite append_cons. cbn [occurs]. rewrite IH. apply orb_true_r.
Qed.

(** ** Splitting on a separator *)

Lemma split_go_not_nil sep s skip cur : split_go sep s skip cur <> [].
Proof.
  revert skip cur; induction s as [|c s IH]; intros skip cur; [discriminate|].
  cbn [split_go]. destruct skip as [|k]; [|apply IH].
  destruct (String.prefix sep (String c s)); [discriminate|apply IH].
Qed.

Lemma join_cons sep x l : l <> [] -> join sep (x :: l) = x +:+ sep +:+ join sep l.
Proof. destruct l; [congruence|reflexivity]. Qed.

Lemma drop_nil n : drop n "" = "".
Proof. destruct n; reflexivity. Qed.

(** Joining the pieces with the separator gives the string back. *)
Lemma split_go_join sep s skip cur :
  sep <> "" ->
  join sep (split_go sep s skip cur) = String.rev cur +:+ drop skip s.
Proof.
  intros Hsep. revert skip cur; induction s as [|c s IH]; intros skip cur.
  - cbn [split_go join]. now rewrite drop_nil, append_nil_r.
  - cbn [split_go]. destruct skip as [|k]; [|apply IH].
    destruct (String.prefix sep (String c s)) eqn:Hp.
    + rewrite join_cons by apply split_go_not_nil.
      rewrite IH. change (String.rev "") with "". rewrite append_nil_l.
      destruct sep as [|a sep']; [congruence|].
      apply prefix_split in Hp. cbn [String.length drop] in Hp.
      rewrite append_cons in Hp. injection Hp as Hc Hs.
      cbn [String.length drop].
      replace (S (String.length sep') - 1)%nat with (String.length sep') by lia.
      rewrite append_cons, <- Hs, Hc. reflexivity.
    + rewrite IH. cbn [drop]. rewrite rev_cons, append_assoc. reflexivity.
Qed.

Lemma split_join s sep : sep <> "" -> join sep (split s sep) = s.
Proof. intros H. unfold split. now rewrite split_go_join. Qed.

Lemma occurrences_Role_cons c s :
  c <> "/"%char -> occurrences "/Role=" (String c s) = occurrences "/Role=" s.
Proof.
  intros Hc. cbn [occurrences]. rewrite prefix_cons.
  destruct (Ascii.eqb_spec "/" c) as [<-|_]; [congruence|reflexivity].
Qed.

Lemma occurrences_Role_drop k s :
  no_slash_upto k s -> occurrences "/Role=" (drop k s) = occurrences "/Role=" s.
Proof.
  revert s; induction k as [|k IH]; intros s H; [reflexivity|].
  destruct s as [|c s]; [reflexivity|]. destruct H as [Hc H].
  cbn [drop]. rewrite occurrences_Role_cons by assumption. now apply IH.
Qed.

Lemma split_go_Role_length s skip cur :
  no_slash_upto skip s ->
  length (split_go "/Role=" s skip cur) = S (occurrences "/Role=" s).
Proof.
  revert skip cur; induction s as [|c s IH]; intros skip cur H; [reflexivity|].
  cbn [split_go]. destruct skip as [|k].
  - cbn [occurrences]. destruct (String.prefix "/Role=" (String c s)) eqn:Hp.
    + cbn [length]. f_equal.
      apply prefix_split in Hp. cbn [String.length drop] in Hp.
      injection Hp as _ Hs.
      change (String.length "/Role=" - 1)%nat with 5%nat.
      rewrite IH; [reflexivity|].
      rewrite Hs, !append_cons. cbn [no_slash_upto]. repeat split; discriminate.
    + now apply IH.
  - destruct H as [Hc H]. rewrite occurrences_Role_cons by assumption. now apply IH.
Qed.

Lemma split_Role_length s : length (split s "/Role=") = S (occurrences "/Role=" s).
Proof. unfold split. now apply split_go_Role_length. Qed.

Lemma unpack2_ok l : is_ok (unpack2 l) = true <-> length l = 2%nat.
Proof.
  destruct l as [|a [|b [|c l]]]; cbn; split; intros H; try discriminate; reflexivity.
Qed.

(** C9. [matchFQAN] returns a boolean exactly when the normal form of
    each argument contains [/Role=] once; otherwise unpacking the split
    raises.  A string with [Role=] that no [/] precedes, such as
    [/cms/subRole=x], and a string with two [/Role=], make it raise. *)
Theorem matchFQAN_total_iff :
  (forall fqan1 fqan2 : string,
     is_ok (matchFQAN fqan1 fqan2) = true <->
     occurrences "/Role=" (normalizeFQAN fqan1) = 1%nat /\
     occurrences "/Role=" (normalizeFQAN fqan2) = 1%nat) /\
  matchFQAN "/cms/subRole=x" "/cms" = Raise ValueError /\
  matchFQAN "/cms" "/cms/subRole=x" = Raise ValueError /\
  matchFQAN "/cms/Role=a/Role=b" "/cms" = Raise ValueError.
Proof.
  split; [|repeat split; reflexivity].
  intros fqan1 fqan2. unfold matchFQAN.
  pose proof (unpack2_ok (split (normalizeFQAN fqan1) "/Role=")) as H1.
  pose proof (unpack2_ok (split (normalizeFQAN fqan2) "/Role=")) as H2.
  rewrite split_Role_length in H1, H2.
  destruct (unpack2 (split (normalizeFQAN fqan1) "/Role=")) as [[g1 r1]|e1];
    destruct (unpack2 (split (normalizeFQAN fqan2) "/Role=")) as [[g2 r2]|e2];
    cbn in *; split.
  - intros _. split; [apply proj1 in H1|apply proj1 in H2]; lia.
  - reflexivity.
  - intros H; discriminate.
  - intros [_ H]. apply H2. lia.
  - intros H; discriminate.
  - intros [H _]. apply H1. lia.
  - intros H; discriminate.
  - intros [H _]. apply H1. lia.
Qed.

Lemma unpack2_inv l a b : unpack2 l = Ok (a, b) <-> l = [a; b].
Proof.
  destruct l as [|x [|y [|z l]]]; cbn; split; intros H; try discriminate;
    congruence.
Qed.

Lemma matchFQAN_split fqan1 fqan2 vog1 vor1 vog2 vor2 :
  split (normalizeFQAN fqan1) "/Role=" = [vog1; vor1] ->
  split (normalizeFQAN fqan2) "/Role=" = [vog2; vor2] ->
  matchFQAN fqan1 fqan2 =
    Ok (startswith vog1 vog2 && (String.eqb vor2 "*" || String.eqb vor2 vor1)).
Proof.
  intros H1 H2. unfold matchFQAN. rewrite H1, H2. cbn.
  destruct (startswith vog1 vog2), (String.eqb vor2 "*"), (String.eqb vor2 vor1);
    reflexivity.
Qed.

(** C7. [matchFQAN(a, b)] normalises both arguments and splits each on
    [/Role=] into a group and a role (so that the normal form is the
    group, [/Role=] and the role); it then returns true exactly when the
    role of [b] is [*] or equals the role of [a], and the group of [a]
    starts with the group of [b].  [/cms/production/Role=pilot] matches
    [/cms/Role=*], and [/cms/Role=pilot] does not match
    [/cms/Role=production]. *)
Theorem matchFQAN_correct :
  (forall fqan1 fqan2 vog1 vor1 vog2 vor2 : string,
     split (normalizeFQAN fqan1) "/Role=" = [vog1; vor1] ->
     split (normalizeFQAN fqan2) "/Role=" = [vog2; vor2] ->
     normalizeFQAN fqan1 = vog1 +:+ "/Role=" +:+ vor1 /\
     normalizeFQAN fqan2 = vog2 +:+ "/Role=" +:+ vor2 /\
     matchFQAN fqan1 fqan2 =
       Ok (startswith vog1 vog2 && (String.eqb vor2 "*" || String.eqb vor2 vor1))) /\
  (forall fqan1 fqan2 : string,
     matchFQAN fqan1 fqan2 = Ok true <->
     exists vog1 vor1 vog2 vor2 : string,
       split (normalizeFQAN fqan1) "/Role=" = [vog1; vor1] /\
       split (normalizeFQAN fqan2) "/Role=" = [vog2; vor2] /\
       (vor2 = "*" \/ vor2 = vor1) /\
       startswith vog1 vog2 = true) /\
  matchFQAN "/cms/production/Role=pilot" "/cms/Role=*" = Ok true /\
  matchFQAN "/cms/Role=pilot" "/cms/Role=production" = Ok false.
Proof.
  split; [|split; [|split; reflexivity]].
  - intros fqan1 fqan2 vog1 vor1 vog2 vor2 H1 H2. split; [|split].
    + rewrite <- (split_join (normalizeFQAN fqan1) "/Role=") at 1 by discriminate.
      now rewrite H1.
    + rewrite <- (split_join (normalizeFQAN fqan2) "/Role=") at 1 by discriminate.
      now rewrite H2.
    + now apply matchFQAN_split.
  - intros fqan1 fqan2. split.
    + intros H. unfold matchFQAN in H.
      destruct (unpack2 (split (normalizeFQAN fqan1) "/Role=")) as [[vog1 vor1]|e1] eqn:U1;
        [|discriminate].
      destruct (unpack2 (split (normalizeFQAN fqan2) "/Role=")) as [[vog2 vor2]|e2] eqn:U2;
        [|discriminate].
      apply unpack2_inv in U1, U2.
      pose proof (matchFQAN_split _ _ _ _ _ _ U1 U2) as M.
      unfold matchFQAN in M. rewrite U1, U2 in M. cbn in M, H. rewrite M in H.
      injection H as H. apply andb_true_iff in H as [Hg Hr].
      exists vog1, vor1, vog2, vor2. repeat split; try assumption.
      apply orb_true_iff in Hr as [Hr|Hr]; apply String.eqb_eq in Hr; auto.
    + intros (vog1 & vor1 & vog2 & vor2 & H1 & H2 & Hr & Hg).
      rewrite (matchFQAN_split _ _ _ _ _ _ H1 H2), Hg. f_equal. cbn.
      destruct Hr as [->| ->]; [reflexivity|].
      rewrite String.eqb_refl. apply orb_true_r.
Qed.

Lemma matchFQAN_correct_witness :
  matchFQAN "/cms/production/Role=pilot" "/cms/Role=*" = Ok true.
Proof.
  exact (proj2 (proj2 (proj1 matchFQAN_correct
           "/cms/production/Role=pilot" "/cms/Role=*"
           "/cms/production" "pilot" "/cms" "*" eq_refl eq_refl))).
Defined.

(* ===================================================================== *)
(** * The configuration accessors *)
(* ===================================================================== *)

Lemma occurs_char_lower c v : occurs (String c "") (lower v) = mentions v c.
Proof.
  induction v as [|a v IH]; [reflexivity|].
  cbn [lower occurs mentions]. rewrite prefix_cons, prefix_nil, andb_true_r, IH.
  now rewrite Ascii.eqb_sym.
Qed.

Lemma truthy_nonempty s : s <> "" -> truthy (PyStr s) = true.
Proof. intros H. cbn. now apply String.eqb_neq in H as ->. Qed.

Lemma cp_get_stored_value E cp section option v default :
  section <> "" -> option <> "" ->
  get E cp section option = Ok v ->
  cp_get E cp section option default = Ok (PyStr v).
Proof.
  intros Hs Ho Hg. unfold cp_get.
  rewrite (truthy_nonempty _ Hs), (truthy_nonempty _ Ho), Hg. reflexivity.
Qed.

(** Reading a pair that is not stored raises one of the two exceptions
    that [cp_get] catches. *)
Lemma get_not_stored E cp section option :
  stored cp section option = false ->
  get E cp section option = Raise NoSectionError \/
  get E cp section option = Raise NoOptionError.
Proof.
  unfold stored, get. intros H.
  destruct (assoc section (_sections cp)) as [d|].
  - right. cbn. apply bool_decide_eq_false in H.
    destruct ((d ∪ _defaults cp) !! optionxform option) eqn:L; [|reflexivity].
    exfalso. apply H. eauto.
  - destruct (String.eqb section DEFAULTSECT); [|left; reflexivity].
    right. cbn in *. apply bool_decide_eq_false in H.
    rewrite (left_id_L ∅ (∪)).
    destruct (_defaults cp !! optionxform option) eqn:L; [|reflexivity].
    exfalso. apply H. eauto.
Qed.

Lemma cp_get_not_stored E cp section option default :
  stored cp section option = false ->
  cp_get E cp section option default = Ok default.
Proof.
  intros H. unfold cp_get.
  destruct (negb (truthy (PyStr section)) || negb (truthy (PyStr option)));
    [reflexivity|].
  destruct (get_not_stored E cp section option H) as [-> | ->]; reflexivity.
Qed.

Lemma cp_getBoolean_value E cp section option v default :
  cp_get E cp section option default = Ok (PyStr v) ->
  cp_getBoolean E cp section option default = Ok (getBoolean_spec v default).
Proof.
  intros H. unfold cp_getBoolean. rewrite H. cbn [mbind result_bind str].
  rewrite !find_nonneg_occurs, !occurs_char_lower. unfold getBoolean_spec.
  destruct (mentions v "t" || mentions v "y" || mentions v "1"); [reflexivity|].
  destruct (mentions v "f" || mentions v "n" || mentions v "0"); reflexivity.
Qed.

Lemma cp_get_unnamed E cp section option default :
  section = "" \/ option = "" ->
  cp_get E cp section option default = Ok default.
Proof. intros [-> | ->]; unfold cp_get; cbn; [|rewrite orb_true_r]; reflexivity. Qed.

(** What [cp_getBoolean] makes of the value that [cp_get] hands to it. *)
Lemma cp_getBoolean_classifies E cp section option default v :
  cp_get E cp section option default = Ok v ->
  cp_getBoolean E cp section option default = Ok (getBoolean_spec (str v) default).
Proof.
  intros H. unfold cp_getBoolean. rewrite H. cbn [mbind result_bind].
  rewrite !find_nonneg_occurs, !occurs_char_lower. unfold getBoolean_spec.
  destruct (mentions (str v) "t" || mentions (str v) "y" || mentions (str v) "1");
    [reflexivity|].
  destruct (mentions (str v) "f" || mentions (str v) "n" || mentions (str v) "0");
    reflexivity.
Qed.

(** C4. [cp_getBoolean] looks at the stored string without regard to
    case: it gives true when the string has a [t], [y] or [1] in it,
    else false when it has an [f], [n] or [0], else the default.  When
    the option is not stored, or the section or option name is empty,
    it is [str(default)] that is looked at in the same way: a boolean
    default comes back as it is, and so does every default whose
    [str] has none of the six characters, but [None] gives false and
    the string [True] gives true.  So [True], [yes] and [1] give true,
    and [False], [no] and [0] give false. *)
Theorem cp_getBoolean_correct :
  (forall (E : Env) (cp : ConfigParser.t) (section option v : string) (default : pyval),
     section <> "" -> option <> "" ->
     get E cp section option = Ok v ->
     cp_getBoolean E cp section option default = Ok (getBoolean_spec v default)) /\
  (forall (E : Env) (cp : ConfigParser.t) (section option : string) (default : pyval),
     stored cp section option = false \/ section = "" \/ option = "" ->
     cp_getBoolean E cp section option default
       = Ok (getBoolean_spec (str default) default)) /\
  (forall (E : Env) (cp : ConfigParser.t) (section option : string) (default : bool),
     stored cp section option = false \/ section = "" \/ option = "" ->
     cp_getBoolean E cp section option (PyBool default) = Ok (PyBool default)) /\
  (forall (v : string) (default : pyval),
     (forall c, c ∈ ["t"; "y"; "1"; "f"; "n"; "0"]%char -> mentions v c = false) ->
     getBoolean_spec v default = default) /\
  (forall default : pyval,
     getBoolean_spec "True" default = PyBool true /\
     getBoolean_spec "yes" default = PyBool true /\
     getBoolean_spec "1" default = PyBool true /\
     getBoolean_spec "False" default = PyBool false /\
     getBoolean_spec "no" default = PyBool false /\
     getBoolean_spec "0" default = PyBool false /\
     getBoolean_spec "TRUE" default = PyBool true /\
     getBoolean_spec "" default = default /\
     getBoolean_spec (str PyNone) default = PyBool false).
Proof.
  assert (Hdef : forall E cp section option default,
            stored cp section option = false \/ section = "" \/ option = "" ->
            cp_getBoolean E cp section option default
              = Ok (getBoolean_spec (str default) default)).
  { intros E cp section option default [H|H].
    - apply cp_getBoolean_classifies. now apply cp_get_not_stored.
    - apply cp_getBoolean_classifies. now apply cp_get_unnamed. }
  split; [|split; [|split; [|split]]].
  - intros E cp section option v default Hs Ho Hg.
    apply cp_getBoolean_value. now apply cp_get_stored_value.
  - exact Hdef.
  - intros E cp section option default H. rewrite Hdef by assumption.
    destruct default; reflexivity.
  - intros v default H. unfold getBoolean_spec.
    rewrite !H by (repeat first [now left | right]). reflexivity.
  - intros default. repeat split; reflexivity.
Qed.

Lemma cp_getBoolean_correct_witness :
  cp_getBoolean sample_env sample_cp "gip" "flag" (PyBool false) = Ok (PyBool true) /\
  cp_getBoolean sample_env sample_cp "gip" "none" (PyInt 7) = Ok (PyInt 7) /\
  cp_getBoolean sample_env sample_cp "gip" "none" (PyBool false) = Ok (PyBool false).
Proof.
  split; [|split].
  - exact (proj1 cp_getBoolean_correct sample_env sample_cp "gip" "flag" "Maybe"
             (PyBool false) ltac:(discriminate) ltac:(discriminate) eq_refl).
  - exact (proj1 (proj2 cp_getBoolean_correct) sample_env sample_cp "gip" "none"
             (PyInt 7) (or_introl eq_refl)).
  - exact (proj1 (proj2 (proj2 cp_getBoolean_correct)) sample_env sample_cp "gip" "none"
             false (or_introl eq_refl)).
Defined.

(** The claim of C4 as it is written fails for an option that is not
    stored: the default is not returned as it is but read like a stored
    value, so [None] comes back as false and the string [True] as
    true. *)
Lemma cp_getBoolean_counterexample :
  stored empty_cp "cream" "enabled" = false /\
  cp_getBoolean sample_env empty_cp "cream" "enabled" PyNone = Ok (PyBool false) /\
  cp_getBoolean sample_env empty_cp "cream" "enabled" (PyStr "True") = Ok (PyBool true) /\
  ~ (forall (E : Env) (cp : ConfigParser.t) (section option : string) (default : pyval),
       stored cp section option = false ->
       cp_getBoolean E cp section option default = Ok default).
Proof.
  repeat split; try reflexivity.
  intros H.
  discriminate (H sample_env empty_cp "cream" "enabled" PyNone eq_refl).
Qed.

(** ** Printing and reading integers *)

Lemma digits_value_acc d acc :
  digits_value (NilEmpty.string_of_uint d) (Zpos acc) = Some (Zpos (Pos.of_uint_acc d acc)).
Proof.
  revert acc; induction d; intros acc; cbn [NilEmpty.string_of_uint digits_value Pos.of_uint_acc];
    [reflexivity|..];
    (change (isdigit _) with true; cbv iota;
     match goal with
     | |- digits_value _ ?a = Some (Zpos (Pos.of_uint_acc _ ?b)) =>
         replace a with (Zpos b) by (cbn; lia)
     end; apply IHd).
Qed.

Lemma digits_value_uint d :
  digits_value (NilEmpty.string_of_uint d) 0 = Some (Z.of_N (Pos.of_uint d)).
Proof.
  induction d; cbn [NilEmpty.string_of_uint digits_value Pos.of_uint];
    [reflexivity|..];
    change (isdigit _) with true; cbv iota;
    first [ exact IHd | apply (digits_value_acc d) ].
Qed.

Lemma string_of_uint_nonempty d : d <> Decimal.Nil -> NilEmpty.string_of_uint d <> "".
Proof. destruct d; [congruence|discriminate..]. Qed.

Lemma unsigned_literal_pos p :
  unsigned_literal (NilEmpty.string_of_uint (Pos.to_uint p)) = Some (Zpos p).
Proof.
  unfold unsigned_literal.
  pose proof (string_of_uint_nonempty _ (DecimalPos.Unsigned.to_uint_nonnil p)) as Hne.
  destruct (NilEmpty.string_of_uint (Pos.to_uint p)) eqn:Hs; [congruence|].
  rewrite <- Hs, digits_value_uint, DecimalPos.Unsigned.of_to. reflexivity.
Qed.

Lemma all_chars_string_of_uint d : all_chars isdigit (NilEmpty.string_of_uint d) = true.
Proof. induction d; cbn [NilEmpty.string_of_uint all_chars]; [reflexivity|exact IHd..]. Qed.

Lemma all_chars_weaken (P Q : ascii -> bool) s :
  (forall c, P c = true -> Q c = true) -> all_chars P s = true -> all_chars Q s = true.
Proof.
  intros HPQ. induction s as [|c s IH]; [reflexivity|]. cbn [all_chars].
  intros [Hc Hs]%andb_true_iff. rewrite (HPQ _ Hc). now apply IH.
Qed.

Lemma str_of_Z_pos p : str_of_Z (Zpos p) = NilEmpty.string_of_uint (Pos.to_uint p).
Proof.
  unfold str_of_Z. cbn [Z.to_int NilZero.string_of_int]. unfold NilZero.string_of_uint.
  pose proof (DecimalPos.Unsigned.to_uint_nonnil p).
  destruct (Pos.to_uint p); [congruence|reflexivity..].
Qed.

Lemma str_of_Z_neg p :
  str_of_Z (Zneg p) = String "-" (NilEmpty.string_of_uint (Pos.to_uint p)).
Proof.
  unfold str_of_Z. cbn [Z.to_int NilZero.string_of_int]. unfold NilZero.string_of_uint.
  pose proof (DecimalPos.Unsigned.to_uint_nonnil p).
  destruct (Pos.to_uint p); [congruence|reflexivity..].
Qed.

Lemma all_chars_str_of_Z n : all_chars digit_or_minus (str_of_Z n) = true.
Proof.
  assert (W : forall d, all_chars digit_or_minus (NilEmpty.string_of_uint d) = true).
  { intros d. apply (all_chars_weaken isdigit); [|apply all_chars_string_of_uint].
    intros c Hc. unfold digit_or_minus. now rewrite Hc. }
  destruct n as [|p|p].
  - reflexivity.
  - rewrite str_of_Z_pos. apply W.
  - rewrite str_of_Z_neg. cbn [all_chars]. now rewrite W.
Qed.

(** ** Stripping *)

Lemma rev_append s t : String.rev (s +:+ t) = String.rev t +:+ String.rev s.
Proof.
  induction s as [|c s IH].
  - now rewrite append_nil_l, append_nil_r.
  - rewrite append_cons, !rev_cons, IH, append_assoc. reflexivity.
Qed.

Lemma rev_involutive s : String.rev (String.rev s) = s.
Proof.
  induction s as [|c s IH]; [reflexivity|].
  rewrite rev_cons, rev_append, IH. reflexivity.
Qed.

Lemma all_chars_app P s t : all_chars P (s +:+ t) = all_chars P s && all_chars P t.
Proof.
  induction s as [|c s IH]; [reflexivity|].
  rewrite append_cons. cbn [all_chars]. now rewrite IH, andb_assoc.
Qed.

Lemma all_chars_rev P s : all_chars P (String.rev s) = all_chars P s.
Proof.
  induction s as [|c s IH]; [reflexivity|].
  rewrite rev_cons, all_chars_app, IH. cbn [all_chars].
  rewrite andb_true_r. apply andb_comm.
Qed.

Lemma lstrip_head c s : isspace c = false -> lstrip (String c s) = String c s.
Proof. intros H. cbn [lstrip]. now rewrite H. Qed.

Lemma strip_ends c s d :
  isspace c = false -> isspace d = false ->
  strip (String c (s +:+ String d "")) = String c (s +:+ String d "").
Proof.
  intros Hc Hd. unfold strip, rstrip. rewrite (lstrip_head _ _ Hc).
  rewrite <- (rev_involutive (String c (s +:+ String d ""))) at 2. f_equal.
  rewrite <- append_cons, rev_append. change (String.rev (String d "")) with (String d "").
  rewrite append_cons. now apply lstrip_head.
Qed.

Lemma strip_no_space s :
  all_chars (fun c => negb (isspace c)) s = true -> strip s = s.
Proof.
  intros H. unfold strip, rstrip.
  assert (L : forall u, all_chars (fun c => negb (isspace c)) u = true -> lstrip u = u).
  { intros [|c u]; [reflexivity|]. cbn [all_chars].
    intros [Hc _]%andb_true_iff. apply lstrip_head. now destruct (isspace c). }
  rewrite (L s H), L; [apply rev_involutive|]. now rewrite all_chars_rev.
Qed.

Lemma digit_or_minus_no_space c : digit_or_minus c = true -> negb (isspace c) = true.
Proof. destruct c as [[] [] [] [] [] [] [] []]; vm_compute; congruence. Qed.

Lemma isdigit_not_sign c :
  isdigit c = true -> Ascii.eqb c "-" = false /\ Ascii.eqb c "+" = false.
Proof.
  destruct c as [[] [] [] [] [] [] [] []]; vm_compute; intros H;
    try discriminate H; now split.
Qed.

(** Reading back a printed integer. *)
Lemma int_of_str_str_of_Z n : int_of_str (strip (str_of_Z n)) = Ok n.
Proof.
  rewrite strip_no_space
    by (apply (all_chars_weaken digit_or_minus);
        [apply digit_or_minus_no_space|apply all_chars_str_of_Z]).
  unfold int_of_str.
  rewrite strip_no_space
    by (apply (all_chars_weaken digit_or_minus);
        [apply digit_or_minus_no_space|apply all_chars_str_of_Z]).
  destruct n as [|p|p].
  - reflexivity.
  - rewrite str_of_Z_pos.
    pose proof (unsigned_literal_pos p) as U.
    pose proof (all_chars_string_of_uint (Pos.to_uint p)) as D.
    destruct (NilEmpty.string_of_uint (Pos.to_uint p)) as [|c s]; [discriminate|].
    cbn [all_chars] in D. apply andb_true_iff in D as [Dc _].
    destruct (isdigit_not_sign c Dc) as [-> ->]. now rewrite U.
  - rewrite str_of_Z_neg. change (Ascii.eqb "-" "-") with true. cbv iota.
    now rewrite unsigned_literal_pos.
Qed.

(** ** Defaults *)

Lemma cp_getBoolean_not_stored E cp section option default :
  stored cp section option = false ->
  cp_getBoolean E cp section option default = Ok (getBoolean_spec (str default) default).
Proof.
  intros H. unfold cp_getBoolean. rewrite (cp_get_not_stored _ _ _ _ _ H).
  cbn [mbind result_bind].
  rewrite !find_nonneg_occurs, !occurs_char_lower. unfold getBoolean_spec.
  destruct (mentions (str default) "t" || mentions (str default) "y"
            || mentions (str default) "1"); [reflexivity|].
  destruct (mentions (str default) "f" || mentions (str default) "n"
            || mentions (str default) "0"); reflexivity.
Qed.

Lemma int_of_str_list l : int_of_str (strip (str (PyList l))) = Raise ValueError.
Proof.
  cbn [str]. set (body := join ", " (repr_str <$> l)).
  change ("[" +:+ body +:+ "]") with (String "[" (body +:+ String "]" "")).
  rewrite strip_ends by reflexivity.
  unfold int_of_str. rewrite strip_ends by reflexivity. reflexivity.
Qed.

Lemma cp_getInt_not_stored E cp section option default :
  stored cp section option = false -> is_string default = false ->
  cp_getInt E cp section option default = default.
Proof.
  intros H Hd. unfold cp_getInt. rewrite (cp_get_not_stored _ _ _ _ _ H).
  cbn [mbind result_bind int].
  destruct default as [|[]|n|s|l]; try reflexivity; try discriminate.
  - cbn [str]. now rewrite int_of_str_str_of_Z.
  - now rewrite int_of_str_list.
Qed.

Lemma cp_getList_not_stored E cp section option default :
  stored cp section option = false ->
  cp_getList E cp section option default =
    Ok (match default with
        | PyStr s => PyList (split_re_split s)
        | _ => default
        end).
Proof.
  intros H. unfold cp_getList. rewrite (cp_get_not_stored _ _ _ _ _ H).
  destruct default; reflexivity.
Qed.

(** C5. For a pair that is not stored: [cp_get] returns the default,
    whatever it is, and does not raise; [cp_getBoolean] returns the
    default when it is a boolean (in general, what the letters of
    [str(default)] say); [cp_getInt] returns the default when it is not
    a string (an integer, [None], a boolean, a list); [cp_getList]
    returns the default when it is not a string, and the split of the
    default when it is one. *)
Theorem accessors_default_when_absent
    (E : Env) (cp : ConfigParser.t) (section option : string) :
  stored cp section option = false ->
  (forall default : pyval, cp_get E cp section option default = Ok default) /\
  (forall default : bool,
     cp_getBoolean E cp section option (PyBool default) = Ok (PyBool default)) /\
  (forall default : pyval,
     cp_getBoolean E cp section option default
       = Ok (getBoolean_spec (str default) default)) /\
  (forall default : pyval,
     is_string default = false -> cp_getInt E cp section option default = default) /\
  (forall default : pyval,
     is_string default = false -> cp_getList E cp section option default = Ok default) /\
  (forall s : string,
     cp_getList E cp section option (PyStr s) = Ok (PyList (split_re_split s))).
Proof.
  intros H. repeat split.
  - intros default. now apply cp_get_not_stored.
  - intros default. rewrite cp_getBoolean_not_stored by assumption.
    destruct default; reflexivity.
  - intros default. now apply cp_getBoolean_not_stored.
  - intros default Hd. now apply cp_getInt_not_stored.
  - intros default Hd. rewrite cp_getList_not_stored by assumption.
    destruct default; try reflexivity; discriminate.
  - intros s. now rewrite cp_getList_not_stored.
Qed.

Lemma accessors_default_when_absent_witness :
  stored empty_cp "gip" "average_job_time" = false /\
  cp_get sample_env empty_cp "gip" "average_job_time" PyNone = Ok PyNone /\
  cp_getInt sample_env empty_cp "gip" "average_job_time" (PyInt 14400) = PyInt 14400.
Proof.
  split; [reflexivity|].
  pose proof (accessors_default_when_absent sample_env empty_cp
                "gip" "average_job_time" eq_refl) as (Hget & _ & _ & HgetInt & _).
  split; [apply Hget|apply HgetInt; reflexivity].
Defined.

(** The claim of C5 as it is written fails: with a string default,
    [cp_getList] returns the split string and not the default; with
    [None] as default, [cp_getBoolean] returns false. *)
Lemma accessors_default_counterexample :
  stored empty_cp "vo" "vo_blacklist" = false /\
  cp_getList sample_env empty_cp "vo" "vo_blacklist" (PyStr "a,b") = Ok (PyList ["a"; "b"]) /\
  cp_getBoolean sample_env empty_cp "vo" "vo_blacklist" PyNone = Ok (PyBool false) /\
  ~ (forall (E : Env) (cp : ConfigParser.t) (section option : string) (default : pyval),
       stored cp section option = false ->
       cp_get E cp section option default = Ok default /\
       cp_getBoolean E cp section option default = Ok default /\
       cp_getInt E cp section option default = default /\
       cp_getList E cp section option default = Ok default).
Proof.
  repeat split; try reflexivity.
  intros H.
  destruct (H sample_env empty_cp "vo" "vo_blacklist" (PyStr "a,b") eq_refl)
    as (_ & _ & _ & HL).
  discriminate HL.
Qed.

(* ===================================================================== *)
(** * The lists of CEs and SEs *)
(* ===================================================================== *)

(** C2. When [simple] is false and [se_list] cannot be read, the
    fallback of [getSEList] calls [getSEList] again with the same
    configuration; every call takes the same branch, and whatever the
    recursion limit is the call ends in [RuntimeError] and returns no
    list. *)
Theorem getSEList_fallback_recurses
    (depth : nat) (E : Env) (cp : ConfigParser.t) (classicSEs : bool) (e : exn) :
  getboolean E cp cesebind "simple" = Ok false ->
  get E cp cesebind "se_list" = Raise e ->
  getSEList depth E cp classicSEs = Raise RuntimeError.
Proof.
  intros Hsimple Hlist. induction depth as [|depth IH]; [reflexivity|].
  cbn [getSEList]. rewrite Hsimple. cbn [mbind result_bind].
  rewrite Hlist, IH. reflexivity.
Qed.

Lemma getSEList_fallback_recurses_witness :
  getSEList 1000 sample_env explicit_without_list_cp true = Raise RuntimeError.
Proof.
  exact (getSEList_fallback_recurses 1000 sample_env explicit_without_list_cp true
           NoOptionError eq_refl eq_refl).
Defined.

(** ** Formatting the identifiers *)

Lemma mapM_ok {A B} (f : A -> result B) (g : A -> B) (l : list A) :
  (forall x, x ∈ l -> f x = Ok (g x)) -> mapM f l = Ok (g <$> l).
Proof.
  induction l as [|x l IH]; intros H; [reflexivity|].
  cbn [mapM]. rewrite (H x) by left. cbn [mbind result_bind].
  rewrite IH by (intros y Hy; apply H; now right). reflexivity.
Qed.

Lemma mapM_fmap_arg {A B C} (f : B -> result C) (h : A -> B) (l : list A) :
  mapM f (h <$> l) = mapM (fun x => f (h x)) l.
Proof.
  induction l as [|x l IH]; [reflexivity|].
  cbn [fmap list_fmap mapM]. now rewrite <- IH.
Qed.

Lemma format_ce_name hostname port prefix jobman :
  format "%s:%d/%s-%s-%%s" [PyStr hostname; PyInt port; PyStr prefix; PyStr jobman]
  = Ok (hostname +:+ ":" +:+ str_of_Z port +:+ "/" +:+ prefix +:+ "-" +:+ jobman +:+ "-%s").
Proof. reflexivity. Qed.

Lemma format_go_literal s rest args :
  all_chars not_percent s = true ->
  format_go (s +:+ rest) false args = String.app s <$> format_go rest false args.
Proof.
  induction s as [|c s IH]; intros H.
  - rewrite append_nil_l. now destruct (format_go rest false args).
  - cbn [all_chars] in H. apply andb_true_iff in H as [Hc Hs].
    rewrite append_cons. cbn [format_go].
    unfold not_percent in Hc. apply negb_true_iff in Hc. rewrite Hc.
    rewrite (IH Hs). now destruct (format_go rest false args).
Qed.

Lemma occurs_percent_all_chars s :
  occurs "%" s = false <-> all_chars not_percent s = true.
Proof.
  induction s as [|c s IH]; [now split|].
  cbn [occurs all_chars]. rewrite prefix_cons, prefix_nil, andb_true_r.
  unfold not_percent at 1. rewrite (Ascii.eqb_sym c).
  destruct (Ascii.eqb "%" c); cbn [orb negb andb]; [split; discriminate|exact IH].
Qed.

Lemma digit_or_minus_not_percent c : digit_or_minus c = true -> not_percent c = true.
Proof.
  destruct c as [[] [] [] [] [] [] [] []]; vm_compute; congruence.
Qed.

Lemma job_manager_of_known jobman jm :
  job_manager_of jobman = Some jm -> jobman ∈ known_job_managers.
Proof.
  unfold job_manager_of, known_job_managers.
  destruct (String.eqb_spec jobman "pbs") as [->|_]; [intros _; set_solver|].
  destruct (String.eqb_spec jobman "lsf") as [->|_]; [intros _; set_solver|].
  destruct (String.eqb_spec jobman "condor") as [->|_]; [intros _; set_solver|].
  destruct (String.eqb_spec jobman "slurm") as [->|_]; [intros _; set_solver|].
  destruct (String.eqb_spec jobman "sge") as [->|_]; [intros _; set_solver|].
  intros H; discriminate H.
Qed.

Lemma job_manager_of_unknown jobman :
  jobman ∉ known_job_managers -> job_manager_of jobman = None.
Proof.
  intros H. destruct (job_manager_of jobman) as [jm|] eqn:J; [|reflexivity].
  exfalso. apply H. eapply job_manager_of_known, J.
Qed.

Lemma format_ce_id hostname port prefix jobman queue :
  occurs "%" hostname = false ->
  prefix ∈ ["jobmanager"; "cream"; "htcondorce"] ->
  jobman ∈ known_job_managers ->
  format (hostname +:+ ":" +:+ str_of_Z port +:+ "/" +:+ prefix +:+ "-" +:+ jobman +:+ "-%s")
         [PyStr queue]
  = Ok (ce_id hostname port prefix jobman queue).
Proof.
  intros Hh Hp Hj. unfold format, ce_id.
  assert (Hpre : all_chars not_percent
                   (hostname +:+ ":" +:+ str_of_Z port +:+ "/" +:+ prefix +:+ "-"
                    +:+ jobman +:+ "-") = true).
  { rewrite !all_chars_app. apply occurs_percent_all_chars in Hh. rewrite Hh.
    rewrite (all_chars_weaken digit_or_minus not_percent (str_of_Z port)
               digit_or_minus_not_percent (all_chars_str_of_Z port)).
    assert (all_chars not_percent prefix = true) as ->.
    { unfold known_job_managers in *.
      repeat (apply elem_of_cons in Hp as [->|Hp]; [reflexivity|]).
      now apply elem_of_nil in Hp. }
    assert (all_chars not_percent jobman = true) as ->.
    { unfold known_job_managers in *.
      repeat (apply elem_of_cons in Hj as [->|Hj]; [reflexivity|]).
      now apply elem_of_nil in Hj. }
    reflexivity. }
  replace (hostname +:+ ":" +:+ str_of_Z port +:+ "/" +:+ prefix +:+ "-" +:+ jobman +:+ "-%s")
    with ((hostname +:+ ":" +:+ str_of_Z port +:+ "/" +:+ prefix +:+ "-" +:+ jobman +:+ "-")
          +:+ "%s")
    by (rewrite !append_assoc; reflexivity).
  rewrite (format_go_literal _ _ _ Hpre). cbn.
  rewrite append_nil_r, !append_assoc. reflexivity.
Qed.

(** ** [getCEList] *)

(** Once the four options it reads first are available, [getCEList] is
    the dispatch on the job manager followed by the two loops. *)
Lemma getCEList_unfold E cp extraCEs v name cream htcondorce :
  get E cp ce "job_manager" = Ok v ->
  get E cp ce "name" = Ok name ->
  cp_getBoolean E cp "cream" "enabled" (PyBool false) = Ok cream ->
  cp_getBoolean E cp "htcondorce" "enabled" (PyBool false) = Ok htcondorce ->
  getCEList E cp extraCEs =
    (queue_entries ← match job_manager_of (lower (strip v)) with
                     | Some jm => queue_entries_of E cp jm
                     | None => Raise ValueError
                     end;
     @concat string <$>
       mapM (fun queue =>
               mapM (fun ce_name => format ce_name [PyStr queue])
                    ((fun hostname =>
                        hostname +:+ ":" +:+ str_of_Z (ce_port E cream htcondorce) +:+ "/"
                        +:+ ce_prefix cream htcondorce +:+ "-" +:+ lower (strip v) +:+ "-%s")
                     <$> name :: extraCEs))
            queue_entries).
Proof.
  intros Hjm Hname Hcream Hhtc. unfold getCEList.
  rewrite Hjm, Hname. cbn [fmap result_fmap mbind result_bind].
  rewrite Hcream. cbn [mbind result_bind].
  unfold ce_port, ce_prefix.
  destruct (truthy cream); rewrite Hhtc; cbn [mbind result_bind];
    destruct (truthy htcondorce);
    (rewrite (mapM_ok _ _ _ (fun h _ => format_ce_name h _ _ _));
     reflexivity).
Qed.

(** The branch for [sge] answers only when the bootstrap, the reading
    of [sge_path], the assignment of [PATH] and the query all do. *)
Lemma queue_entries_of_sge E cp queue_entries :
  queue_entries_of E cp SGE = Ok queue_entries <->
  exists sge_path environ',
    bootstrapSGE E cp = Ok () /\
    cp_get E cp "sge" "sge_path" (PyStr ".") = Ok sge_path /\
    addToPath (os_environ E) sge_path = Ok environ' /\
    getSGEQueueList E cp = Ok queue_entries.
Proof.
  cbn [queue_entries_of]. split.
  - destruct (bootstrapSGE E cp) as [[]|]; [|discriminate]. cbn [mbind result_bind].
    destruct (cp_get E cp "sge" "sge_path" (PyStr ".")) as [sge_path|] eqn:Hp;
      [|discriminate].
    cbn [mbind result_bind].
    destruct (addToPath (os_environ E) sge_path) as [environ'|] eqn:Ha; [|discriminate].
    cbn [mbind result_bind]. intros H. now exists sge_path, environ'.
  - intros (sge_path & environ' & -> & Hp & Ha & Hq). cbn [mbind result_bind].
    rewrite Hp. cbn [mbind result_bind]. rewrite Ha. exact Hq.
Qed.

(** A NUL byte in [sge_path] makes the assignment of [PATH] raise, and
    with it [getCEList]. *)
Lemma getCEList_sge_path_nul :
  get sample_env sge_nul_cp "sge" "sge_path" = Ok (String (ascii_of_N 0) "") /\
  getCEList sample_env sge_nul_cp [] = Raise TypeError.
Proof. split; reflexivity. Qed.

(** C3. With a job manager that is none of [pbs], [lsf], [condor],
    [slurm] and [sge], [getCEList] never returns a list, whatever the
    batch systems would answer; and when the name of the CE and the
    [cream] and [htcondorce] flags can be read, what it raises is the
    [ValueError] of the dispatch. *)
Theorem getCEList_unknown_job_manager
    (E : Env) (cp : ConfigParser.t) (extraCEs : list string) (v : string) :
  get E cp ce "job_manager" = Ok v ->
  (lower (strip v) ∉ known_job_managers) ->
  is_ok (getCEList E cp extraCEs) = false /\
  (forall (name : string) (cream htcondorce : pyval),
     get E cp ce "name" = Ok name ->
     cp_getBoolean E cp "cream" "enabled" (PyBool false) = Ok cream ->
     cp_getBoolean E cp "htcondorce" "enabled" (PyBool false) = Ok htcondorce ->
     getCEList E cp extraCEs = Raise ValueError).
Proof.
  intros Hjm Hunknown.
  assert (Hall : forall name cream htcondorce,
            get E cp ce "name" = Ok name ->
            cp_getBoolean E cp "cream" "enabled" (PyBool false) = Ok cream ->
            cp_getBoolean E cp "htcondorce" "enabled" (PyBool false) = Ok htcondorce ->
            getCEList E cp extraCEs = Raise ValueError).
  { intros name cream htcondorce Hname Hcream Hhtc.
    rewrite (getCEList_unfold _ _ _ _ _ _ _ Hjm Hname Hcream Hhtc).
    now rewrite (job_manager_of_unknown _ Hunknown). }
  split; [|exact Hall].
  destruct (get E cp ce "name") as [name|e1] eqn:Hname.
  - destruct (cp_getBoolean E cp "cream" "enabled" (PyBool false)) as [cream|e2] eqn:Hcream.
    + destruct (cp_getBoolean E cp "htcondorce" "enabled" (PyBool false))
        as [htcondorce|e3] eqn:Hhtc.
      * now rewrite (Hall name cream htcondorce).
      * unfold getCEList. rewrite Hjm, Hname. cbn [fmap result_fmap mbind result_bind].
        rewrite Hcream. cbn [mbind result_bind].
        destruct (truthy cream); now rewrite Hhtc.
    + unfold getCEList. rewrite Hjm, Hname. cbn [fmap result_fmap mbind result_bind].
      now rewrite Hcream.
  - unfold getCEList. rewrite Hjm, Hname. reflexivity.
Qed.

Lemma getCEList_unknown_job_manager_witness :
  getCEList sample_env bogus_cp ["other"] = Raise ValueError.
Proof.
  refine (proj2 (getCEList_unknown_job_manager sample_env bogus_cp ["other"] "bogus"
                   eq_refl _) "host" (PyBool false) (PyBool false) eq_refl eq_refl eq_refl).
  vm_compute. intros H.
  repeat (apply elem_of_cons in H as [H|H]; [discriminate H|]).
  now apply elem_of_nil in H.
Defined.

(** The claim of C3 as it is written fails: when the [ce] section has no
    [name], the exception is [NoOptionError], raised before the job
    manager is looked at. *)
Lemma getCEList_unknown_job_manager_counterexample :
  get sample_env bogus_nameless_cp ce "job_manager" = Ok "bogus" /\
  (lower (strip "bogus") ∉ known_job_managers) /\
  getCEList sample_env bogus_nameless_cp [] = Raise NoOptionError /\
  getCEList sample_env bogus_nameless_cp [] <> Raise ValueError.
Proof.
  repeat split; try reflexivity; try discriminate.
  vm_compute. intros H.
  repeat (apply elem_of_cons in H as [H|H]; [discriminate H|]).
  now apply elem_of_nil in H.
Qed.

Lemma ce_prefix_cases cream htcondorce :
  ce_prefix cream htcondorce ∈ ["jobmanager"; "cream"; "htcondorce"].
Proof.
  unfold ce_prefix. destruct (truthy htcondorce), (truthy cream); set_solver.
Qed.

Lemma concat_map_flat_map {A B} (f : A -> list B) (l : list A) :
  concat (f <$> l) = flat_map f l.
Proof. induction l as [|x l IH]; [reflexivity|]. cbn. now rewrite IH. Qed.

Lemma flat_map_const_length {A B} (f : A -> list B) (l : list A) (n : nat) :
  (forall x, length (f x) = n) -> length (flat_map f l) = (length l * n)%nat.
Proof.
  intros H. induction l as [|x l IH]; [reflexivity|].
  cbn [flat_map length]. rewrite length_app, H, IH. lia.
Qed.

(** C6. With a job manager that [getCEList] knows, a readable CE name
    and readable flags, a batch system whose branch answers (for [sge]
    this takes in the bootstrap and the assignment of [PATH]), and host
    names without [%] in them, [getCEList] returns one identifier
    [hostname:port/prefix-jobmanager-queue] per queue and host name:
    queue by queue, and for each queue the configured name first and
    then the extra CEs. *)
Theorem getCEList_correct
    (E : Env) (cp : ConfigParser.t) (extraCEs : list string)
    (v name : string) (cream htcondorce : pyval) (jm : job_manager)
    (queue_entries : list string) :
  get E cp ce "job_manager" = Ok v ->
  job_manager_of (lower (strip v)) = Some jm ->
  get E cp ce "name" = Ok name ->
  cp_getBoolean E cp "cream" "enabled" (PyBool false) = Ok cream ->
  cp_getBoolean E cp "htcondorce" "enabled" (PyBool false) = Ok htcondorce ->
  queue_entries_of E cp jm = Ok queue_entries ->
  (forall hostname, hostname ∈ name :: extraCEs -> occurs "%" hostname = false) ->
  let ce_list :=
    flat_map (fun queue =>
                (fun hostname =>
                   ce_id hostname (ce_port E cream htcondorce)
                         (ce_prefix cream htcondorce) (lower (strip v)) queue)
                <$> name :: extraCEs)
             queue_entries in
  getCEList E cp extraCEs = Ok ce_list /\
  length ce_list = (length queue_entries * length (name :: extraCEs))%nat.
Proof.
  intros Hjm Hknown Hname Hcream Hhtc Hq Hpct ce_list. split.
  - rewrite (getCEList_unfold _ _ _ _ _ _ _ Hjm Hname Hcream Hhtc).
    rewrite Hknown, Hq. cbn [mbind result_bind].
    rewrite (mapM_ok _
               (fun queue =>
                  (fun hostname =>
                     ce_id hostname (ce_port E cream htcondorce)
                           (ce_prefix cream htcondorce) (lower (strip v)) queue)
                  <$> name :: extraCEs)).
    + cbn [fmap result_fmap]. now rewrite concat_map_flat_map.
    + intros queue _. rewrite mapM_fmap_arg. apply mapM_ok.
      intros hostname Hin. cbn.
      rewrite format_ce_id; [reflexivity| |apply ce_prefix_cases|].
      * now apply Hpct.
      * eapply job_manager_of_known, Hknown.
  - unfold ce_list. apply flat_map_const_length. intros queue.
    now rewrite length_fmap.
Qed.

Lemma getCEList_correct_witness :
  getCEList sample_env sample_cp ["h2"] =
    Ok ["host:2119/jobmanager-pbs-q1"; "h2:2119/jobmanager-pbs-q1";
        "host:2119/jobmanager-pbs-q2"; "h2:2119/jobmanager-pbs-q2"].
Proof.
  refine (proj1 (getCEList_correct sample_env sample_cp ["h2"] " PBS " "host"
                   (PyBool false) (PyBool false) PBS ["q1"; "q2"]
                   eq_refl eq_refl eq_refl eq_refl eq_refl eq_refl _)).
  intros hostname H.
  repeat (apply elem_of_cons in H as [->|H]; [reflexivity|]).
  now apply elem_of_nil in H.
Defined.

(** The claim of C6 as it is written fails for a host name with a
    percent sign: the name is part of the template that [ce_name % queue]
    formats, so [h%%] comes out as [h%]. *)
Lemma getCEList_counterexample :
  get sample_env percent_cp ce "name" = Ok "h%%" /\
  getCEList sample_env percent_cp [] =
    Ok ["h%:2119/jobmanager-pbs-q1"; "h%:2119/jobmanager-pbs-q2"] /\
  ce_id "h%%" 2119 "jobmanager" "pbs" "q1" = "h%%:2119/jobmanager-pbs-q1" /\
  ~ (exists ce_list, getCEList sample_env percent_cp [] = Ok ce_list /\
                     ce_id "h%%" 2119 "jobmanager" "pbs" "q1" ∈ ce_list).
Proof.
  repeat split; try reflexivity.
  intros (ce_list & Hl & Hin). vm_compute in Hl. injection Hl as <-.
  vm_compute in Hin.
  repeat (apply elem_of_cons in Hin as [Hin|Hin]; [discriminate Hin|]).
  now apply elem_of_nil in Hin.
Qed.

(* ===================================================================== *)
(** * The bind generator *)
(* ===================================================================== *)

Lemma mapM_ok_inv {A B} (f : A -> result B) (g : A -> B) (l : list A) (r : list B) :
  (forall x y, x ∈ l -> f x = Ok y -> y = g x) ->
  mapM f l = Ok r -> r = g <$> l.
Proof.
  revert r; induction l as [|x l IH]; intros r Hf H.
  - cbn in H. now injection H as <-.
  - cbn [mapM] in H. destruct (f x) as [y|e] eqn:Hx; [|discriminate H].
    cbn [mbind result_bind] in H.
    destruct (mapM f l) as [k|e] eqn:Hk; [|discriminate H].
    cbn in H. injection H as <-. cbn [fmap list_fmap]. f_equal.
    + apply Hf; [left|assumption].
    + apply IH; [|reflexivity]. intros z w Hz. apply Hf. now right.
Qed.

Lemma cp_get_None_cases E cp section option v :
  cp_get E cp section option PyNone = Ok v -> v = PyNone \/ exists s, v = PyStr s.
Proof.
  unfold cp_get.
  destruct (negb (truthy (PyStr section)) || negb (truthy (PyStr option))).
  - intros [= <-]. now left.
  - destruct (get E cp section option) as [s|[]]; intros [= <-]; eauto.
Qed.

Lemma mount_point_of_line E cp section_map myse v :
  mount_point_of E cp section_map myse = Ok v ->
  (if truthy v
   then format (String newline "GlueCESEBindMountInfo: %s") [v]
   else Ok "") = Ok (mount_line E cp section_map myse).
Proof.
  unfold mount_point_of, mount_line.
  destruct (section_map !! myse) as [section|].
  - intros H. rewrite H. destruct (cp_get_None_cases _ _ _ _ _ H) as [->|[mp ->]].
    + reflexivity.
    + cbn [truthy]. destruct (String.eqb mp ""); [reflexivity|].
      cbn. now rewrite append_nil_r.
  - intros [= <-]. reflexivity.
Qed.

Lemma binds_row E cp classicse_list section_map ap cap ce_list myse row :
  (mount_point ← mount_point_of E cp section_map myse;
   mapM (bind_entry classicse_list ap cap mount_point myse) ce_list) = Ok row ->
  row = bind_record E cp classicse_list section_map ap cap myse <$> ce_list.
Proof.
  destruct (mount_point_of E cp section_map myse) as [v|e] eqn:Hv; [|discriminate].
  cbn [mbind result_bind]. apply mapM_ok_inv.
  intros myce b _. unfold bind_entry.
  rewrite (mount_point_of_line _ _ _ _ _ Hv). cbn [mbind result_bind].
  now intros [= <-].
Qed.

Lemma elem_of_flat_map_row {A B C} (f : A -> B -> C) (l : list A) (k : list B) (c : C) :
  c ∈ flat_map (fun a => f a <$> k) l -> exists a b, a ∈ l /\ b ∈ k /\ c = f a b.
Proof.
  intros H. apply list_elem_of_In, in_flat_map in H as (a & Ha & Hc).
  apply list_elem_of_In in Ha, Hc. apply list_elem_of_fmap in Hc as (b & -> & Hb).
  eauto.
Qed.

(** C1. When [getCESEBindInfo] returns, its list has one record per SE
    (the non-classic ones followed by the classic ones) and CE, SE by
    SE; the access point of a record is the classic access point when
    its SE is in the classic list and the default access point
    otherwise, so that, when the two access points differ, it is the
    classic one exactly for the classic SEs; the mount point of a record
    is the attribute line when [getSESections] maps the SE to a section
    with a non-empty [mount_point], and the empty string otherwise. *)
Theorem getCESEBindInfo_correct
    (depth : nat) (E : Env) (cp : ConfigParser.t) (binds : list bind) :
  getCESEBindInfo depth E cp = Ok binds ->
  exists (ce_list se_list classicse_list : list string)
         (section_map : gmap string string) (path : option string)
         (classic_access_point : string),
    getCEList E cp [] = Ok ce_list /\
    getSEList depth E cp false = Ok se_list /\
    getClassicSEList E cp = Ok classicse_list /\
    getSESections E cp = Ok section_map /\
    getPath E cp = Ok path /\
    cp_get E cp "osg_dirs" "data" (PyStr "/") = Ok (PyStr classic_access_point) /\
    binds = flat_map (fun myse =>
                        bind_record E cp classicse_list section_map
                          (default_access_point path) classic_access_point myse
                        <$> ce_list)
                     (se_list ++ classicse_list)%list /\
    length binds = ((length se_list + length classicse_list) * length ce_list)%nat /\
    (forall b, b ∈ binds ->
       access_point b = (if bool_decide (seUniqueID b ∈ classicse_list)
                         then classic_access_point
                         else default_access_point path) /\
       mount_point b = mount_line E cp section_map (seUniqueID b)) /\
    (default_access_point path <> classic_access_point ->
     forall b, b ∈ binds ->
       access_point b = classic_access_point <-> seUniqueID b ∈ classicse_list).
Proof.
  unfold getCESEBindInfo. intros H.
  destruct (getCEList E cp []) as [ce_list|] eqn:Hce; [|discriminate H].
  destruct (getSEList depth E cp false) as [se_list|] eqn:Hse; [|discriminate H].
  destruct (getClassicSEList E cp) as [classicse_list|] eqn:Hcl; [|discriminate H].
  destruct (getSESections E cp) as [section_map|] eqn:Hmap; [|discriminate H].
  destruct (getPath E cp) as [path|] eqn:Hpath; [|discriminate H].
  destruct (cp_get E cp "osg_dirs" "data" (PyStr "/")) as [capv|] eqn:Hcap;
    [|discriminate H].
  cbn [mbind result_bind] in H.
  destruct capv as [| | |cap|]; try discriminate H.
  cbn [the_str mbind result_bind fmap result_fmap] in H.
  assert (Hap : match path with
                | Some p => if truthy (PyStr p) then p else "/"
                | None => "/"
                end = default_access_point path).
  { destruct path as [p|]; [|reflexivity]. cbn. now destruct (String.eqb p ""). }
  rewrite Hap in H. clear Hap.
  set (ap := default_access_point path) in *.
  destruct (mapM _ (se_list ++ classicse_list)) as [rows|] eqn:Hrows;
    [|discriminate H].
  cbn [fmap result_fmap] in H. injection H as <-.
  apply (mapM_ok_inv _ (fun myse =>
           bind_record E cp classicse_list section_map ap cap myse <$> ce_list)) in Hrows;
    [|intros myse row _; apply binds_row].
  subst rows. rewrite concat_map_flat_map.
  exists ce_list, se_list, classicse_list, section_map, path, cap.
  do 7 (split; [reflexivity|]). split; [|split].
  - rewrite (flat_map_const_length _ _ (length ce_list))
      by (intros; apply length_fmap).
    now rewrite length_app.
  - intros b Hb.
    apply elem_of_flat_map_row in Hb as (myse & myce & _ & _ & ->).
    split; reflexivity.
  - intros Hneq b Hb.
    apply elem_of_flat_map_row in Hb as (myse & myce & _ & _ & ->).
    cbn [bind_record access_point seUniqueID].
    subst ap. case_bool_decide as Hin; split; intros Hx.
    + assumption.
    + reflexivity.
    + now destruct Hneq.
    + now destruct Hin.
Qed.

Lemma getCESEBindInfo_correct_witness :
  exists binds,
    getCESEBindInfo 1000 sample_env sample_cp = Ok binds /\
    length binds = 6%nat /\
    (forall b, b ∈ binds -> access_point b = "/").
Proof.
  eexists. split; [vm_compute; reflexivity|].
  destruct (getCESEBindInfo_correct 1000 sample_env sample_cp _ eq_refl)
    as (ce_list & se_list & classicse_list & section_map & path & cap &
        Hce & Hse & Hcl & _ & Hpath & Hcap & _ & Hlen & Hrec & _).
  vm_compute in Hce, Hse, Hcl, Hpath, Hcap.
  injection Hce as <-. injection Hse as <-. injection Hcl as <-.
  injection Hpath as <-. injection Hcap as <-.
  split; [exact Hlen|].
  intros b Hb. destruct (Hrec b Hb) as [-> _].
  destruct (bool_decide (seUniqueID b ∈ ["UNKNOWN_classicSE"])); reflexivity.
Defined.

(** The claim of C1 as it is written fails.  With no storage path and no
    [osg_dirs] section both access points are [/]: the record of a
    non-classic SE has the classic access point although the SE is not
    in the classic list.  And an SE that comes from the section [se]
    itself gets no mount point although that section declares one. *)
Lemma getCESEBindInfo_counterexample :
  (exists binds b,
     getCESEBindInfo 1000 sample_env sample_cp = Ok binds /\
     getClassicSEList sample_env sample_cp = Ok ["UNKNOWN_classicSE"] /\
     cp_get sample_env sample_cp "osg_dirs" "data" (PyStr "/") = Ok (PyStr "/") /\
     b ∈ binds /\
     seUniqueID b = "sea" /\
     ~ (access_point b = "/" <-> seUniqueID b ∈ ["UNKNOWN_classicSE"])) /\
  (exists binds b,
     getCESEBindInfo 1000 sample_env literal_se_cp = Ok binds /\
     get sample_env literal_se_cp se "unique_name" = Ok "se0" /\
     get sample_env literal_se_cp se "mount_point" = Ok "/mnt/0" /\
     b ∈ binds /\
     seUniqueID b = "se0" /\
     mount_point b = "").
Proof.
  split.
  - eexists. exists (mk_bind "host:2119/jobmanager-pbs-q1" "sea" "/"
                       (String newline "GlueCESEBindMountInfo: /mnt/a,/b")).
    split; [vm_compute; reflexivity|].
    repeat split; try reflexivity.
    + set_solver.
    + cbn. intros [H _]. specialize (H eq_refl).
      apply elem_of_cons in H as [H|H]; [discriminate H|]. now apply elem_of_nil in H.
  - eexists. exists (mk_bind "host:2119/jobmanager-pbs-q1" "se0" "/" "").
    split; [vm_compute; reflexivity|].
    repeat split; try reflexivity. set_solver.
Qed.

(* ===================================================================== *)
(** * Response times *)
(* ===================================================================== *)

Lemma cp_getInt_int E cp section option (default : Z) :
  exists n, cp_getInt E cp section option (PyInt default) = PyInt n.
Proof.
  unfold cp_getInt. destruct (cp_get E cp section option (PyInt default)) as [v|e];
    cbn [mbind result_bind]; [|eauto].
  destruct (int (PyStr (strip (str v)))); cbn [mbind result_bind]; eauto.
Qed.

Lemma job_time_int E cp arg option default :
  exists n, job_time E cp arg option default = PyInt n.
Proof.
  unfold job_time. destruct (int arg); [eauto|apply cp_getInt_int].
Qed.

(** [responseTimes] in terms of the two job times it settles on. *)
Lemma responseTimes_unfold E cp running waiting average_job_time max_job_time a m :
  job_time E cp average_job_time "average_job_time" (4 * 3600) = PyInt a ->
  job_time E cp max_job_time "max_job_time" (24 * 3600) = PyInt m ->
  responseTimes E cp (PyInt running) (PyInt waiting) average_job_time max_job_time =
    (let m := if m <? a then 2 * a else m in
     if Z.abs running + Z.abs waiting <? 10 then
       if (Z.abs running =? 0) || (Z.abs waiting =? 0)
       then Ok (60, 86400) else Ok (3600, 86400)
     else
       ERT ← scaled_time a (running + 10) waiting;
       WRT ← scaled_time m (running + 1) waiting;
       let ERT := Z.max (Z.min ERT 86400) 60 in
       let WRT := Z.max (Z.min WRT (30 * 86400)) (2 * ERT) in
       Ok (ERT, WRT)).
Proof.
  unfold job_time, responseTimes. cbn [int].
  intros Ha Hm.
  destruct (int average_job_time) as [a'|] eqn:Ia.
  - injection Ha as ->.
    destruct (decide (PyInt a = PyNone)) as [?|_]; [discriminate|].
    destruct (int max_job_time) as [m'|] eqn:Im.
    + injection Hm as ->.
      destruct (decide (PyInt m = PyNone)) as [?|_]; [discriminate|]. reflexivity.
    + destruct (decide (PyNone = PyNone)) as [_|?]; [|congruence].
      rewrite Hm. reflexivity.
  - destruct (decide (PyNone = PyNone)) as [_|?]; [|congruence]. rewrite Ha.
    destruct (int max_job_time) as [m'|] eqn:Im.
    + injection Hm as ->.
      destruct (decide (PyInt m = PyNone)) as [?|_]; [discriminate|]. reflexivity.
    + destruct (decide (PyNone = PyNone)) as [_|?]; [|congruence].
      rewrite Hm. reflexivity.
Qed.

(** Whatever it is computed from, a returned pair is within the bounds. *)
Lemma responseTimes_bounds E cp running waiting average_job_time max_job_time ERT WRT :
  responseTimes E cp (PyInt running) (PyInt waiting) average_job_time max_job_time
    = Ok (ERT, WRT) ->
  60 <= ERT <= 86400 /\ 2 * ERT <= WRT <= 30 * 86400.
Proof.
  destruct (job_time_int E cp average_job_time "average_job_time" (4 * 3600)) as [a Ha].
  destruct (job_time_int E cp max_job_time "max_job_time" (24 * 3600)) as [m Hm].
  rewrite (responseTimes_unfold _ _ _ _ _ _ _ _ Ha Hm). cbv zeta.
  destruct (Z.abs running + Z.abs waiting <? 10).
  - destruct ((Z.abs running =? 0) || (Z.abs waiting =? 0)); intros [= <- <-]; lia.
  - destruct (scaled_time a (running + 10) waiting) as [e|]; [|discriminate].
    destruct (scaled_time _ (running + 1) waiting) as [w|]; [|discriminate].
    cbn [mbind result_bind]. intros [= <- <-]. lia.
Qed.

Lemma responseTimes_few_jobs E cp running waiting average_job_time max_job_time :
  0 <= running -> 0 <= waiting -> running + waiting < 10 ->
  responseTimes E cp (PyInt running) (PyInt waiting) average_job_time max_job_time =
    Ok (if (running =? 0) || (waiting =? 0) then (60, 86400) else (3600, 86400)).
Proof.
  intros Hr Hw Hlt.
  destruct (job_time_int E cp average_job_time "average_job_time" (4 * 3600)) as [a Ha].
  destruct (job_time_int E cp max_job_time "max_job_time" (24 * 3600)) as [m Hm].
  rewrite (responseTimes_unfold _ _ _ _ _ _ _ _ Ha Hm). cbv zeta.
  rewrite !Z.abs_eq by assumption.
  destruct (Z.ltb_spec (running + waiting) 10); [|lia].
  destruct ((running =? 0) || (waiting =? 0)); reflexivity.
Qed.

(** ** Floats: magnitudes *)

Lemma digits2_pos_size p : digits2_pos p = Pos.size p.
Proof. induction p; cbn; congruence. Qed.

Lemma Zdigits2_nonneg z : 0 <= Zdigits2 z.
Proof. destruct z; cbn; lia. Qed.

Lemma Zdigits2_gt z : 0 <= z -> z < 2 ^ Zdigits2 z.
Proof.
  destruct z as [|p|p]; intros H; [cbn; lia| |lia].
  cbn [Zdigits2]. rewrite digits2_pos_size.
  pose proof (Pos.size_gt p) as G. 
  apply Pos2Z.pos_lt_pos in G. rewrite Pos2Z.inj_pow in G. exact G.
Qed.

Lemma Zdigits2_le z k : 0 <= z < 2 ^ k -> 0 <= k -> Zdigits2 z <= k.
Proof.
  destruct z as [|p|p]; intros [H1 H2] Hk; [cbn; lia| |lia].
  cbn [Zdigits2]. rewrite digits2_pos_size.
  pose proof (Pos.size_le p) as G.
  apply Pos2Z.pos_le_pos in G. rewrite Pos2Z.inj_pow in G.
  change (Z.pos p~0) with (2 * Z.pos p) in G.
  assert (2 ^ Z.pos (Pos.size p) < 2 ^ (k + 1)).
  { rewrite Z.pow_add_r by lia. lia. }
  apply Z.pow_lt_mono_r_iff in H; lia.
Qed.

Lemma shr_1_m r : 0 <= shr_m r -> shr_m (shr_1 r) = Z.div2 (shr_m r).
Proof.
  destruct r as [m rr ss]. cbn [shr_m]. intros H.
  destruct m as [|[p|p|]|p]; try reflexivity; lia.
Qed.

Lemma iter_shr_1_m p r :
  0 <= shr_m r -> shr_m (SpecFloat.iter_pos shr_1 p r) = Z.shiftr (shr_m r) (Zpos p).
Proof.
  revert r; induction p as [p IH|p IH|]; intros r H; cbn [SpecFloat.iter_pos].
  - assert (H1 : 0 <= shr_m (shr_1 r)) by (rewrite shr_1_m by assumption; apply Z.div2_nonneg; assumption).
    assert (H2 : 0 <= shr_m (SpecFloat.iter_pos shr_1 p (shr_1 r))) by (rewrite IH by assumption; apply Z.shiftr_nonneg; assumption).
    rewrite IH, IH, shr_1_m by assumption.
    rewrite Z.div2_spec, !Z.shiftr_shiftr by lia. f_equal. lia.
  - assert (H2 : 0 <= shr_m (SpecFloat.iter_pos shr_1 p r)) by (rewrite IH by assumption; apply Z.shiftr_nonneg; assumption).
    rewrite IH, IH by assumption. rewrite Z.shiftr_shiftr by lia. f_equal. lia.
  - rewrite shr_1_m by assumption. apply Z.div2_spec.
Qed.

Lemma shr_record_of_loc_m m l : shr_m (shr_record_of_loc m l) = m.
Proof. destruct l as [|[]]; reflexivity. Qed.

Lemma Zdigits2_shiftr m p :
  0 <= m -> 0 <= p -> Zdigits2 (Z.shiftr m p) + p <= Z.max (Zdigits2 m) p.
Proof.
  intros Hm Hp. pose proof (Zdigits2_gt m Hm) as G.
  pose proof (Zdigits2_nonneg m) as D.
  rewrite Z.shiftr_div_pow2 by assumption.
  destruct (Z_lt_le_dec (Zdigits2 m) p) as [Hlt|Hle].
  - rewrite Z.div_small; [cbn; lia|]. split; [assumption|].
    eapply Z.lt_le_trans; [exact G|]. apply Z.pow_le_mono_r; lia.
  - assert (Zdigits2 (m / 2 ^ p) <= Zdigits2 m - p); [|lia].
    apply Zdigits2_le; [|lia]. split; [apply Z.div_pos; lia|].
    apply Z.div_lt_upper_bound; [lia|].
    rewrite <- Z.pow_add_r by lia. now replace (p + (Zdigits2 m - p)) with (Zdigits2 m) by lia.
Qed.

Lemma shr_fexp_props m e l B :
  0 <= m -> Zdigits2 m + e <= B -> -1074 <= B ->
  0 <= shr_m (fst (shr_fexp 53 1024 m e l)) /\
  Zdigits2 (shr_m (fst (shr_fexp 53 1024 m e l))) + snd (shr_fexp 53 1024 m e l) <= B /\
  snd (shr_fexp 53 1024 m e l) <= Z.max e (fexp 53 1024 (Zdigits2 m + e)).
Proof.
  intros Hm HB Hlow. unfold shr_fexp, shr.
  pose proof (Zdigits2_nonneg m) as D.
  destruct (fexp 53 1024 (Zdigits2 m + e) - e) as [|p|p] eqn:Hn; cbn [fst snd];
    rewrite ?shr_record_of_loc_m; try (repeat split; lia).
  rewrite iter_shr_1_m by (rewrite shr_record_of_loc_m; assumption).
  rewrite shr_record_of_loc_m.
  repeat split.
  - now apply Z.shiftr_nonneg.
  - pose proof (Zdigits2_shiftr m (Z.pos p) Hm ltac:(lia)).
    unfold fexp, emin in Hn. lia.
  - lia.
Qed.

Lemma round_nearest_even_bounds m l :
  m <= round_nearest_even m l <= m + 1.
Proof.
  unfold round_nearest_even. destruct l as [|[]]; try lia.
  destruct (Z.even m); lia.
Qed.

Lemma Zdigits2_succ m m1 : 0 <= m -> 0 <= m1 <= m + 1 -> Zdigits2 m1 <= Zdigits2 m + 1.
Proof.
  intros Hm H1. pose proof (Zdigits2_gt m Hm). pose proof (Zdigits2_nonneg m).
  apply Zdigits2_le; [|lia]. rewrite Z.pow_add_r by lia. lia.
Qed.

(** Rounding does not overflow below the range of a double, and adds at
    most one to the magnitude. *)
Lemma binary_round_aux_mag sx mx ex lx B :
  0 <= mx -> Zdigits2 mx + ex <= B -> -1074 <= B -> B <= 970 ->
  mag_le (B + 1) (binary_round_aux 53 1024 sx mx ex lx).
Proof.
  intros Hm HB Hlow Hhigh. unfold binary_round_aux.
  pose proof (shr_fexp_props mx ex lx B Hm HB Hlow) as (P1 & P2 & P3).
  destruct (shr_fexp 53 1024 mx ex lx) as [mrs' e']. cbn [fst snd] in *.
  set (m1 := round_nearest_even (shr_m mrs') (loc_of_shr_record mrs')).
  pose proof (round_nearest_even_bounds (shr_m mrs') (loc_of_shr_record mrs')) as R.
  fold m1 in R.
  assert (H1 : 0 <= m1) by lia.
  assert (D1 : Zdigits2 m1 + e' <= B + 1).
  { pose proof (Zdigits2_succ (shr_m mrs') m1 P1 ltac:(lia)). lia. }
  pose proof (shr_fexp_props m1 e' loc_Exact (B + 1) H1 D1 ltac:(lia)) as (Q1 & Q2 & Q3).
  destruct (shr_fexp 53 1024 m1 e' loc_Exact) as [mrs'' e'']. cbn [fst snd] in *.
  destruct (shr_m mrs'') as [|m|m] eqn:Hm''.
  - exact I.
  - assert (He : e'' <= 1024 - 53).
    { pose proof (Zdigits2_nonneg mx). pose proof (Zdigits2_nonneg m1).
      unfold fexp, emin in *. lia. }
    apply Z.leb_le in He. rewrite He. cbn [mag_le]. exact Q2.
  - lia.
Qed.

Lemma Zdigits2_lower m : 0 < m -> 2 ^ (Zdigits2 m - 1) <= m.
Proof.
  destruct m as [|p|p]; intros H; try lia.
  cbn [Zdigits2]. rewrite digits2_pos_size.
  pose proof (Pos.size_le p) as G.
  apply Pos2Z.pos_le_pos in G. rewrite Pos2Z.inj_pow in G.
  change (Z.pos p~0) with (2 * Z.pos p) in G.
  replace (Z.pos (Pos.size p)) with (1 + (Z.pos (Pos.size p) - 1)) in G by lia.
  rewrite Z.pow_add_r in G by lia. lia.
Qed.

Lemma shr_fexp_pos m e l :
  0 < m -> -1021 <= e ->
  0 < shr_m (fst (shr_fexp 53 1024 m e l)) /\ e <= snd (shr_fexp 53 1024 m e l).
Proof.
  intros Hm He. unfold shr_fexp, shr.
  pose proof (Zdigits2_lower m Hm) as L.
  assert (D : 1 <= Zdigits2 m) by (destruct m; cbn; lia).
  destruct (fexp 53 1024 (Zdigits2 m + e) - e) as [|p|p] eqn:Hn; cbn [fst snd];
    rewrite ?shr_record_of_loc_m; try (split; lia).
  rewrite iter_shr_1_m by (rewrite shr_record_of_loc_m; lia).
  rewrite shr_record_of_loc_m. split; [|lia].
  rewrite Z.shiftr_div_pow2 by lia.
  assert (Hp : Z.pos p <= Zdigits2 m - 1) by (unfold fexp, emin in Hn; lia).
  assert (2 ^ Z.pos p <= m).
  { eapply Z.le_trans; [|exact L]. apply Z.pow_le_mono_r; lia. }
  assert (1 <= m / 2 ^ Z.pos p); [|lia].
  apply Z.div_le_lower_bound; lia.
Qed.

(** Rounding a positive number never gives zero. *)
Lemma binary_round_aux_pos sx mx ex lx :
  0 < mx -> -1021 <= ex ->
  match binary_round_aux 53 1024 sx mx ex lx with
  | S754_finite _ _ e => ex <= e
  | S754_infinity _ => True
  | _ => False
  end.
Proof.
  intros Hm He. unfold binary_round_aux.
  pose proof (shr_fexp_pos mx ex lx Hm He) as (P1 & P2).
  destruct (shr_fexp 53 1024 mx ex lx) as [mrs' e']. cbn [fst snd] in *.
  pose proof (round_nearest_even_bounds (shr_m mrs') (loc_of_shr_record mrs')) as R.
  set (m1 := round_nearest_even (shr_m mrs') (loc_of_shr_record mrs')) in *.
  pose proof (shr_fexp_pos m1 e' loc_Exact ltac:(lia) ltac:(lia)) as (Q1 & Q2).
  destruct (shr_fexp 53 1024 m1 e' loc_Exact) as [mrs'' e'']. cbn [fst snd] in *.
  destruct (shr_m mrs'') as [|m|m]; try lia.
  destruct (e'' <=? 1024 - 53); [lia|exact I].
Qed.

Lemma digits2_pos_iter_xO p k :
  Zpos (digits2_pos (Pos.iter xO p k)) = Zpos (digits2_pos p) + Zpos k.
Proof.
  induction k as [|k IH] using Pos.peano_ind.
  - cbn. lia.
  - rewrite Pos.iter_succ. cbn [digits2_pos]. lia.
Qed.

Lemma shl_align_props p :
  let d := Zpos (digits2_pos p) in
  let '(mz, ez) := shl_align p 0 (fexp 53 1024 (d + 0)) in
  Zpos (digits2_pos mz) + ez = d /\ -52 <= ez <= 0.
Proof.
  cbv zeta. unfold shl_align.
  destruct (fexp 53 1024 (Z.pos (digits2_pos p) + 0) - 0) as [|k|k] eqn:Hk.
  - lia.
  - lia.
  - rewrite digits2_pos_iter_xO. unfold fexp, emin in *. lia.
Qed.

(** The conversion of a non-zero integer: a finite non-zero float, or
    an overflow. *)
Lemma float_of_Z_nonzero z :
  z <> 0 ->
  float_of_Z z = Raise OverflowError \/
  exists s m e, float_of_Z z = Ok (S754_finite s m e) /\ -52 <= e.
Proof.
  intros Hz. unfold float_of_Z, binary_normalize.
  destruct z as [|p|p]; [congruence| |]; unfold binary_round;
    pose proof (shl_align_props p) as A; cbv zeta in A;
    destruct (shl_align p 0 (fexp 53 1024 (Z.pos (digits2_pos p) + 0))) as [mz ez];
    destruct A as [A1 A2];
    match goal with
    | |- context [binary_round_aux 53 1024 ?s _ _ _] =>
        pose proof (binary_round_aux_pos s (Z.pos mz) ez loc_Exact ltac:(lia) ltac:(lia)) as P
    end;
    destruct (binary_round_aux 53 1024 _ (Z.pos mz) ez loc_Exact) as [| | |s m e];
    try contradiction; [left; reflexivity|right; exists s, m, e; split; [reflexivity|lia]
                       |left; reflexivity|right; exists s, m, e; split; [reflexivity|lia]].
Qed.

(** Below [2^k] the conversion does not overflow. *)
Lemma float_of_Z_bounded z k :
  Z.abs z < 2 ^ k -> 0 <= k <= 969 ->
  exists f, float_of_Z z = Ok f /\ mag_le (k + 1) f /\
            (z <> 0 -> exists s m e, f = S754_finite s m e /\ -52 <= e).
Proof.
  intros Hz Hk.
  assert (M : mag_le (k + 1) (binary_normalize 53 1024 z 0 false)).
  { unfold binary_normalize.
    destruct z as [|p|p]; [exact I| |]; unfold binary_round;
      pose proof (shl_align_props p) as A; cbv zeta in A;
      destruct (shl_align p 0 (fexp 53 1024 (Z.pos (digits2_pos p) + 0))) as [mz ez];
      destruct A as [A1 A2];
      (apply binary_round_aux_mag; [lia| |lia|lia]);
      cbn [Zdigits2]; rewrite A1;
      change (Z.pos (digits2_pos p)) with (Zdigits2 (Z.pos p));
      apply Zdigits2_le; lia. }
  destruct (Z.eq_dec z 0) as [->|Hnz].
  - exists (S754_zero false). repeat split; congruence.
  - destruct (float_of_Z_nonzero z Hnz) as [Hr|(s & m & e & Hf & He)].
    + exfalso. unfold float_of_Z in Hr.
      destruct (binary_normalize 53 1024 z 0 false); try discriminate. exact M.
    + exists (S754_finite s m e). split; [exact Hf|]. split.
      * unfold float_of_Z in Hf.
        destruct (binary_normalize 53 1024 z 0 false); try discriminate.
        now injection Hf as <- <- <-.
      * intros _. eauto.
Qed.

Lemma Zdigits2_mul a b : 0 <= a -> 0 <= b -> Zdigits2 (a * b) <= Zdigits2 a + Zdigits2 b.
Proof.
  intros Ha Hb.
  pose proof (Zdigits2_gt a Ha). pose proof (Zdigits2_gt b Hb).
  pose proof (Zdigits2_nonneg a). pose proof (Zdigits2_nonneg b).
  apply Zdigits2_le; [|lia]. rewrite Z.pow_add_r by lia. nia.
Qed.

Lemma SFmul_mag x y Bx By :
  mag_le Bx x -> mag_le By y -> -1074 <= Bx + By -> Bx + By <= 970 ->
  mag_le (Bx + By + 1) (SFmul 53 1024 x y).
Proof.
  destruct x as [sx|sx| |sx mx ex], y as [sy|sy| |sy my ey]; cbn [mag_le SFmul];
    try contradiction; try (intros; exact I).
  intros Hx Hy Hlow Hhigh. apply binary_round_aux_mag; try lia.
  pose proof (Zdigits2_mul (Z.pos mx) (Z.pos my) ltac:(lia) ltac:(lia)) as M.
  change (Z.pos mx * Z.pos my) with (Z.pos (mx * my)) in M.
  cbn [Zdigits2] in *. lia.
Qed.

Lemma SFdiv_core_props m1 e1 m2 e2 :
  0 < m1 -> 0 < m2 ->
  let '(q, e', l) := SFdiv_core_binary 53 1024 m1 e1 m2 e2 in
  0 <= q /\ Zdigits2 q + e' <= Zdigits2 m1 + e1 - e2.
Proof.
  intros H1 H2. unfold SFdiv_core_binary.
  set (e' := Z.min _ (e1 - e2)).
  assert (He' : e' <= e1 - e2) by apply Z.le_min_r.
  set (m' := match e1 - e2 - e' with
             | 0 => m1 | Z.pos _ => Z.shiftl m1 (e1 - e2 - e') | Z.neg _ => 0 end).
  assert (Hm' : 0 <= m' < 2 ^ (Zdigits2 m1 + (e1 - e2 - e'))).
  { pose proof (Zdigits2_gt m1 ltac:(lia)) as G.
    pose proof (Zdigits2_nonneg m1) as D.
    unfold m'. destruct (e1 - e2 - e') as [|s|s] eqn:Hs; try lia.
    - rewrite Z.add_0_r. lia.
    - rewrite Z.shiftl_mul_pow2 by lia. rewrite Z.pow_add_r by lia.
      assert (0 < 2 ^ Z.pos s) by (apply Z.pow_pos_nonneg; lia). nia. }
  pose proof (Z.div_eucl_eq m' m2 ltac:(lia)) as E.
  pose proof (Z.mod_pos_bound m' m2 H2) as R. unfold Z.modulo in R.
  destruct (Z.div_eucl m' m2) as [q r].
  assert (Hq : 0 <= q <= m') by nia.
  split; [lia|].
  pose proof (Zdigits2_nonneg m1).
  assert (Zdigits2 q <= Zdigits2 m1 + (e1 - e2 - e')); [|lia].
  apply Zdigits2_le; lia.
Qed.

Lemma SFdiv_mag x sy my ey Bx :
  mag_le Bx x -> -1074 <= Bx - ey -> Bx - ey <= 970 ->
  mag_le (Bx - ey + 1) (SFdiv 53 1024 x (S754_finite sy my ey)).
Proof.
  destruct x as [sx|sx| |sx mx ex]; cbn [mag_le SFdiv]; try contradiction;
    try (intros; exact I).
  intros Hx Hlow Hhigh.
  pose proof (SFdiv_core_props (Z.pos mx) ex (Z.pos my) ey ltac:(lia) ltac:(lia)) as P.
  destruct (SFdiv_core_binary 53 1024 (Z.pos mx) ex (Z.pos my) ey) as [[q e'] l].
  destruct P as [P1 P2]. apply binary_round_aux_mag; try lia.
  cbn [Zdigits2] in P2. lia.
Qed.

Lemma int_of_float_mag B x : mag_le B x -> is_ok (int_of_float x) = true.
Proof. destruct x; cbn; trivial; contradiction. Qed.

(** Within the range where no intermediate result overflows,
    [scaled_time] returns. *)
Lemma scaled_time_ok a d w k :
  0 <= k <= 400 -> Z.abs a < 2 ^ k -> 1 <= d < 2 ^ k -> Z.abs w < 2 ^ k ->
  is_ok (scaled_time a d w) = true.
Proof.
  intros Hk Ha Hd Hw. unfold scaled_time.
  destruct (float_of_Z_bounded d k ltac:(lia) ltac:(lia)) as (fd & -> & _ & Hfd).
  destruct (Hfd ltac:(lia)) as (sd & md & ed & -> & Hed).
  destruct (float_of_Z_bounded a k ltac:(lia) ltac:(lia)) as (fa & -> & Hfa & _).
  destruct (float_of_Z_bounded w k ltac:(lia) ltac:(lia)) as (fw & Hfw & Hmw & _).
  cbn [mbind result_bind float_div]. rewrite Hfw. cbn [mbind result_bind].
  assert (Hq : mag_le (k + 54) (SFdiv 53 1024 fa (S754_finite sd md ed))).
  { destruct fa as [s|s| |s m e]; cbn [mag_le] in Hfa; try contradiction; [exact I|].
    pose proof (SFdiv_mag (S754_finite s m e) sd md ed (Z.pos (digits2_pos m) + e)) as Q.
    cbn [mag_le] in Q. specialize (Q ltac:(lia)).
    destruct (Z_lt_le_dec (Z.pos (digits2_pos m) + e - ed) (-1074)) as [Hlt|Hge].
    - (* a quotient far below the range: bound it from a larger magnitude *)
      pose proof (SFdiv_mag (S754_finite s m e) sd md ed (-1074 + ed)) as Q'.
      cbn [mag_le] in Q'. specialize (Q' ltac:(lia) ltac:(lia) ltac:(lia)).
      destruct (SFdiv 53 1024 (S754_finite s m e) (S754_finite sd md ed));
        cbn [mag_le] in *; try contradiction; [exact I|lia].
    - specialize (Q ltac:(lia) ltac:(lia)).
      destruct (SFdiv 53 1024 (S754_finite s m e) (S754_finite sd md ed));
        cbn [mag_le] in *; try contradiction; [exact I|lia]. }
  eapply (int_of_float_mag (k + 54 + (k + 1) + 1)).
  apply SFmul_mag; try assumption; try lia.
Qed.

Lemma float_of_Z_raises z e : float_of_Z z = Raise e -> e = OverflowError.
Proof.
  unfold float_of_Z. destruct (binary_normalize 53 1024 z 0 false); congruence.
Qed.

Lemma int_of_float_raises x e :
  int_of_float x = Raise e -> e = OverflowError \/ e = ValueError.
Proof. destruct x; cbn; intros [= <-]; auto. Qed.

(** With a positive divisor, [scaled_time] never divides by zero. *)
Lemma scaled_time_no_zero_division a d w :
  1 <= d -> scaled_time a d w <> Raise ZeroDivisionError.
Proof.
  intros Hd. unfold scaled_time.
  destruct (float_of_Z_nonzero d ltac:(lia)) as [-> | (sd & md & ed & -> & _)];
    [discriminate|].
  cbn [mbind result_bind].
  destruct (float_of_Z a) as [fa|e] eqn:Ha;
    [|apply float_of_Z_raises in Ha as ->; discriminate].
  cbn [mbind result_bind float_div].
  destruct (float_of_Z w) as [fw|e] eqn:Hw;
    [|apply float_of_Z_raises in Hw as ->; discriminate].
  cbn [mbind result_bind].
  destruct (int_of_float (float_mul _ fw)) as [n|e] eqn:Hi; [discriminate|].
  apply int_of_float_raises in Hi as [-> | ->]; discriminate.
Qed.

(** C10. For integers [running >= 0] and [waiting >= 0] and any job-time
    arguments: a pair that [responseTimes] returns satisfies
    [60 <= ERT <= 86400] and [2*ERT <= WRT <= 30*86400]; with fewer than
    ten jobs it returns [(60, 86400)] or [(3600, 86400)]; the divisors
    [running + 10] and [running + 1] are positive, so it never raises
    [ZeroDivisionError]; and it returns whenever [running], [waiting]
    and the two job times are below [2^64] in absolute value. *)
Theorem responseTimes_correct
    (E : Env) (cp : ConfigParser.t) (running waiting : Z)
    (average_job_time max_job_time : pyval) :
  0 <= running -> 0 <= waiting ->
  (forall ERT WRT : Z,
     responseTimes E cp (PyInt running) (PyInt waiting) average_job_time max_job_time
       = Ok (ERT, WRT) ->
     60 <= ERT <= 86400 /\ 2 * ERT <= WRT <= 30 * 86400) /\
  (running + waiting < 10 ->
   responseTimes E cp (PyInt running) (PyInt waiting) average_job_time max_job_time
     = Ok (if (running =? 0) || (waiting =? 0) then (60, 86400) else (3600, 86400))) /\
  responseTimes E cp (PyInt running) (PyInt waiting) average_job_time max_job_time
    <> Raise ZeroDivisionError /\
  (forall a m : Z,
     job_time E cp average_job_time "average_job_time" (4 * 3600) = PyInt a ->
     job_time E cp max_job_time "max_job_time" (24 * 3600) = PyInt m ->
     running < 2 ^ 64 -> waiting < 2 ^ 64 ->
     Z.abs a < 2 ^ 64 -> Z.abs m < 2 ^ 64 ->
     exists ERT WRT : Z,
       responseTimes E cp (PyInt running) (PyInt waiting) average_job_time max_job_time
         = Ok (ERT, WRT)).
Proof.
  intros Hr Hw. split; [|split; [|split]].
  - intros ERT WRT. apply responseTimes_bounds.
  - intros Hlt. now apply responseTimes_few_jobs.
  - destruct (job_time_int E cp average_job_time "average_job_time" (4 * 3600)) as [a Ha].
    destruct (job_time_int E cp max_job_time "max_job_time" (24 * 3600)) as [m Hm].
    rewrite (responseTimes_unfold _ _ _ _ _ _ _ _ Ha Hm). cbv zeta.
    destruct (Z.abs running + Z.abs waiting <? 10).
    + destruct ((Z.abs running =? 0) || (Z.abs waiting =? 0)); discriminate.
    + pose proof (scaled_time_no_zero_division a (running + 10) waiting ltac:(lia)) as Z1.
      destruct (scaled_time a (running + 10) waiting) as [e1|x1];
        cbn [mbind result_bind]; [|congruence].
      pose proof (scaled_time_no_zero_division (if m <? a then 2 * a else m)
                    (running + 1) waiting ltac:(lia)) as Z2.
      destruct (scaled_time _ (running + 1) waiting) as [e2|x2];
        cbn [mbind result_bind]; [discriminate|congruence].
  - intros a m Ha Hm Hr64 Hw64 Ha64 Hm64.
    rewrite (responseTimes_unfold _ _ _ _ _ _ _ _ Ha Hm). cbv zeta.
    destruct (Z.abs running + Z.abs waiting <? 10).
    + destruct ((Z.abs running =? 0) || (Z.abs waiting =? 0)); eauto.
    + assert (P : 2 ^ 65 = 2 * 2 ^ 64) by reflexivity.
      pose proof (scaled_time_ok a (running + 10) waiting 65 ltac:(lia) ltac:(lia)
                    ltac:(lia) ltac:(lia)) as S1.
      assert (Hm' : Z.abs (if m <? a then 2 * a else m) < 2 ^ 65)
        by (destruct (m <? a); lia).
      pose proof (scaled_time_ok _ (running + 1) waiting 65 ltac:(lia) Hm'
                    ltac:(lia) ltac:(lia)) as S2.
      destruct (scaled_time a (running + 10) waiting) as [e1|]; [|discriminate S1].
      destruct (scaled_time _ (running + 1) waiting) as [e2|]; [|discriminate S2].
      cbn [mbind result_bind]. eauto.
Qed.

Lemma responseTimes_correct_witness :
  responseTimes sample_env empty_cp (PyInt 5) (PyInt 20) PyNone PyNone
    = Ok (19200, 288000) /\
  (60 <= 19200 <= 86400 /\ 2 * 19200 <= 288000 <= 30 * 86400) /\
  responseTimes sample_env empty_cp (PyInt 3) (PyInt 4) PyNone PyNone = Ok (3600, 86400) /\
  exists ERT WRT,
    responseTimes sample_env empty_cp (PyInt 100) (PyInt 7) (PyInt 1000) (PyStr "5")
      = Ok (ERT, WRT).
Proof.
  split; [vm_compute; reflexivity|]. split; [|split].
  - refine (proj1 (responseTimes_correct sample_env empty_cp 5 20 PyNone PyNone
                     ltac:(lia) ltac:(lia)) 19200 288000 _).
    vm_compute. reflexivity.
  - refine (proj1 (proj2 (responseTimes_correct sample_env empty_cp 3 4 PyNone PyNone
                            ltac:(lia) ltac:(lia))) _). lia.
  - refine (proj2 (proj2 (proj2 (responseTimes_correct sample_env empty_cp 100 7
                                   (PyInt 1000) (PyStr "5") ltac:(lia) ltac:(lia))))
              1000 5 eq_refl eq_refl _ _ _ _); vm_compute; reflexivity.
Defined.

(** The claim of C10 as it is written fails: a job time beyond the range
    of a double makes [responseTimes] raise [OverflowError], with
    [running = 0] and [waiting = 10]; so does a product that leaves the
    range. *)
Lemma responseTimes_counterexample :
  0 <= 0 /\ 0 <= 10 /\
  responseTimes sample_env empty_cp (PyInt 0) (PyInt 10) (PyInt (2 ^ 1024)) PyNone
    = Raise OverflowError /\
  responseTimes sample_env empty_cp (PyInt 0) (PyInt (10 ^ 6)) (PyInt (10 ^ 305)) PyNone
    = Raise OverflowError /\
  ~ (forall (running waiting : Z) (average_job_time max_job_time : pyval),
       0 <= running -> 0 <= waiting ->
       exists ERT WRT,
         responseTimes sample_env empty_cp (PyInt running) (PyInt waiting)
           average_job_time max_job_time = Ok (ERT, WRT)).
Proof.
  split; [lia|]. split; [lia|].
  split; [vm_compute; reflexivity|]. split; [vm_compute; reflexivity|].
  intros H.
  destruct (H 0 10 (PyInt (2 ^ 1024)) PyNone ltac:(lia) ltac:(lia)) as (ERT & WRT & Hx).
  vm_compute in Hx. discriminate Hx.
Qed.

(* ===================================================================== *)
(** * Further properties of the FQAN functions *)
(* ===================================================================== *)

Lemma prefix_refl s : String.prefix s s = true.
Proof. induction s as [|c s IH]; [reflexivity|]. now rewrite prefix_cons, Ascii.eqb_refl. Qed.

Lemma prefix_trans p q r :
  String.prefix p q = true -> String.prefix q r = true -> String.prefix p r = true.
Proof.
  revert q r; induction p as [|a p IH]; intros q r H1 H2; [apply prefix_nil|].
  destruct q as [|b q]; [discriminate|]. destruct r as [|c r]; [discriminate|].
  rewrite prefix_cons in *. apply andb_true_iff in H1 as [E1 H1], H2 as [E2 H2].
  apply Ascii.eqb_eq in E1, E2. subst. rewrite Ascii.eqb_refl. cbn. eauto.
Qed.

Lemma normalizeFQAN_normal fqan :
  startswith (normalizeFQAN fqan) "/" = true /\ occurs "Role=" (normalizeFQAN fqan) = true.
Proof.
  rewrite normalizeFQAN_refines. unfold normalizeFQAN_spec.
  set (body := ensure_leading_slash _).
  assert (Hb : startswith body "/" = true) by apply ensure_leading_slash_starts.
  assert (Ho : occurs "Role=" body = occurs "Role=" fqan).
  { unfold body. now rewrite occurs_Role_slash, occurs_Role_strip_VO, occurs_Role_strip_VOMS. }
  destruct (occurs "Role=" fqan) eqn:Hr.
  - split; assumption.
  - split.
    + destruct body as [|c b]; [discriminate|].
      unfold startswith in *. rewrite append_cons, prefix_cons in *.
      rewrite prefix_nil in *. exact Hb.
    + clear. induction body as [|c b IH]; [reflexivity|].
      rewrite append_cons. cbn [occurs]. rewrite IH. apply orb_true_r.
Qed.

(** X1. [normalizeFQAN] is idempotent: a normal form is left as it is. *)
Theorem normalizeFQAN_idempotent (fqan : string) :
  normalizeFQAN (normalizeFQAN fqan) = normalizeFQAN fqan.
Proof.
  destruct (normalizeFQAN_normal fqan) as [Hs Ho].
  set (n := normalizeFQAN fqan) in *.
  destruct n as [|c n]; [discriminate|].
  unfold startswith in Hs. rewrite prefix_cons, prefix_nil, andb_true_r in Hs.
  apply Ascii.eqb_eq in Hs. subst c.
  unfold normalizeFQAN, startswith.
  rewrite (prefix_cons "V"). change (Ascii.eqb "V" "/") with false. cbn [andb].
  rewrite (prefix_cons "V"). change (Ascii.eqb "V" "/") with false. cbn [andb].
  rewrite prefix_cons, prefix_nil. cbn [Ascii.eqb Bool.eqb andb negb].
  rewrite find_occurs, Ho. reflexivity.
Qed.

(** X2. Every FQAN on which [matchFQAN] is defined matches itself. *)
Theorem matchFQAN_reflexive (fqan : string) :
  occurrences "/Role=" (normalizeFQAN fqan) = 1%nat ->
  matchFQAN fqan fqan = Ok true.
Proof.
  intros H.
  pose proof (split_Role_length (normalizeFQAN fqan)) as L. rewrite H in L.
  destruct (split (normalizeFQAN fqan) "/Role=") as [|g [|r [|? ?]]] eqn:S; try discriminate.
  rewrite (matchFQAN_split _ _ _ _ _ _ S S). unfold startswith.
  now rewrite prefix_refl, String.eqb_refl, orb_true_r.
Qed.

Lemma matchFQAN_reflexive_witness : matchFQAN "VO:cms" "VO:cms" = Ok true.
Proof. apply (matchFQAN_reflexive "VO:cms"). reflexivity. Defined.

(** X3. [matchFQAN] is transitive: when [fqan1] matches [fqan2] and
    [fqan2] matches [fqan3], then [fqan1] matches [fqan3]. *)
Theorem matchFQAN_transitive (fqan1 fqan2 fqan3 : string) :
  matchFQAN fqan1 fqan2 = Ok true -> matchFQAN fqan2 fqan3 = Ok true ->
  matchFQAN fqan1 fqan3 = Ok true.
Proof.
  intros H12 H23.
  unfold matchFQAN in H12, H23.
  destruct (unpack2 (split (normalizeFQAN fqan1) "/Role=")) as [[g1 r1]|] eqn:U1; [|discriminate].
  destruct (unpack2 (split (normalizeFQAN fqan2) "/Role=")) as [[g2 r2]|] eqn:U2; [|discriminate].
  destruct (unpack2 (split (normalizeFQAN fqan3) "/Role=")) as [[g3 r3]|] eqn:U3; [|discriminate].
  apply unpack2_inv in U1, U2, U3.
  pose proof (matchFQAN_split _ _ _ _ _ _ U1 U2) as M12.
  pose proof (matchFQAN_split _ _ _ _ _ _ U2 U3) as M23.
  unfold matchFQAN in M12, M23. rewrite U1, U2 in M12. rewrite U2, U3 in M23.
  cbn in H12, H23, M12, M23. rewrite M12 in H12. rewrite M23 in H23.
  injection H12 as H12. injection H23 as H23.
  apply andb_true_iff in H12 as [G12 R12], H23 as [G23 R23].
  rewrite (matchFQAN_split _ _ _ _ _ _ U1 U3). f_equal.
  apply andb_true_iff. split.
  - unfold startswith in *. eapply prefix_trans; eassumption.
  - apply orb_true_iff in R12, R23. apply orb_true_iff.
    destruct R23 as [R|R]; [now left|]. apply String.eqb_eq in R. subst r3.
    destruct R12 as [R|R]; [now left|]. now right.
Qed.

Lemma matchFQAN_transitive_witness :
  matchFQAN "/cms/production/Role=pilot" "/cms" = Ok true.
Proof.
  apply (matchFQAN_transitive "/cms/production/Role=pilot" "/cms/production/Role=*" "/cms");
    reflexivity.
Defined.

(* ===================================================================== *)
(** * Small helpers of [gip_common] *)
(* ===================================================================== *)

Lemma lower_ascii_not_upper c : ascii_in_range "A" "Z" (lower_ascii c) = false.
Proof. destruct c as [[] [] [] [] [] [] [] []]; vm_compute; reflexivity. Qed.

Lemma lower_no_upper s : all_chars (fun c => negb (ascii_in_range "A" "Z" c)) (lower s) = true.
Proof.
  induction s as [|c s IH]; [reflexivity|].
  cbn [lower all_chars]. now rewrite lower_ascii_not_upper, IH.
Qed.

Lemma notDefined_str s : notDefined (PyStr s) = Some false.
Proof.
  cbn [notDefined]. rewrite bool_decide_eq_false_2; [reflexivity|].
  intros H. pose proof (lower_no_upper s) as L.
  set_unfold in H. destruct H as [H|[H|[H|H]]]; try (rewrite H in L; discriminate L).
  contradiction.
Qed.

(** X4. [notDefined] never answers yes: the lower-cased value is
    compared with upper-case words, so on every string, [UNKNOWN],
    [UNDEFINED] and [UNAVAILABLE] in any case included, the answer is
    no; on a value that is not a string the call raises. *)
Theorem notDefined_never_true :
  (forall s : string, notDefined (PyStr s) = Some false) /\
  (forall val : pyval, notDefined val = Some false \/ notDefined val = None) /\
  notDefined (PyStr "UNKNOWN") = Some false /\
  notDefined (PyStr "unknown") = Some false.
Proof.
  split; [apply notDefined_str|]. split; [|split; apply notDefined_str].
  intros [| | |s|]; try (right; reflexivity). left. apply notDefined_str.
Qed.

(** X5. [isDefined] holds of a string exactly when the string is neither
    empty nor [DEFAULT]; the check for [UNAVAILABLE], [UNDEFINED] and
    [UNKNOWN] has no effect, and [None] is not defined. *)
Theorem isDefined_string :
  (forall s : string,
     isDefined (PyStr s) = Some (negb (String.eqb s "") && negb (String.eqb s "DEFAULT"))) /\
  isDefined (PyStr "UNKNOWN") = Some true /\
  isDefined PyNone = Some false.
Proof.
  split; [|split; reflexivity].
  intros s. unfold isDefined. cbn [truthy]. rewrite notDefined_str.
  destruct (String.eqb_spec s "") as [->|Hs]; [reflexivity|]. cbn [negb andb].
  destruct (String.eqb_spec s "DEFAULT") as [->|Hd]; [reflexivity|].
  rewrite bool_decide_eq_false_2 by congruence. reflexivity.
Qed.

Lemma occurs_nil s : occurs "" s = true.
Proof. destruct s; reflexivity. Qed.

(** X6. [strContains] gives the same answer on both of its branches:
    whether or not the interpreter is Python 2.3 or later, the result
    tells whether [sub_str] occurs in [main_str]. *)
Theorem strContains_occurs (py23 : bool) (main_str sub_str : string) :
  strContains py23 main_str sub_str = occurs sub_str main_str.
Proof.
  unfold strContains, contains. destruct py23.
  - apply find_nonneg_occurs.
  - pose proof (find_nonneg_occurs main_str sub_str) as H.
    destruct (occurs sub_str main_str).
    + apply Z.leb_le in H. assert (L : (-1 <? find main_str sub_str) = true) by (apply Z.ltb_lt; lia).
      rewrite L. reflexivity.
    + apply Z.leb_gt in H. assert (L : (-1 <? find main_str sub_str) = false) by (apply Z.ltb_ge; lia).
      rewrite L. reflexivity.
Qed.

(* ===================================================================== *)
(** * Formatting a path *)
(* ===================================================================== *)

Lemma last_char_snoc s c : last_char (s +:+ String c "") = Some c.
Proof. unfold last_char. rewrite rev_append. reflexivity. Qed.

Lemma last_char_nonempty s : s <> "" -> exists t c, s = t +:+ String c "".
Proof.
  intros H. rewrite <- (rev_involutive s).
  destruct (String.rev s) as [|c r] eqn:E.
  - exfalso. apply H. rewrite <- (rev_involutive s), E. reflexivity.
  - exists (String.rev r), c. apply rev_cons.
Qed.

Lemma char_eqb_str c d : String.eqb (String c "") (String d "") = Ascii.eqb c d.
Proof. cbn. destruct (Ascii.eqb c d); reflexivity. Qed.

(** X7. With [slash=True], [pathFormatter] raises on the empty path and
    on any other path returns a path that ends with [/]: the path
    itself when it already ends with [/], else the path followed by
    [/]; formatting the result again changes nothing. *)
Theorem pathFormatter_slash :
  pathFormatter "" true = None /\
  (forall path : string, path <> "" ->
     exists r, pathFormatter path true = Some r /\
       last_char r = Some "/"%char /\
       (if bool_decide (last_char path = Some "/"%char) then r = path else r = path +:+ "/") /\
       pathFormatter r true = Some r).
Proof.
  split; [reflexivity|].
  intros path H. destruct (last_char_nonempty path H) as (t & c & ->).
  unfold pathFormatter. rewrite last_char_snoc. cbn [mbind option_bind].
  rewrite char_eqb_str.
  destruct (Ascii.eqb_spec c "/") as [->|Hc]; cbn [negb].
  - eexists; split; [reflexivity|]. rewrite last_char_snoc. split; [reflexivity|].
    rewrite bool_decide_eq_true_2 by reflexivity. split; [reflexivity|].
    cbn [mbind option_bind]. reflexivity.
  - eexists; split; [reflexivity|]. rewrite last_char_snoc. split; [reflexivity|].
    rewrite bool_decide_eq_false_2 by congruence. split; [reflexivity|].
    cbn [mbind option_bind]. reflexivity.
Qed.

Lemma pathFormatter_slash_witness :
  exists r, pathFormatter "/data" true = Some r /\
    last_char r = Some "/"%char /\
    (if bool_decide (last_char "/data" = Some "/"%char) then r = "/data" else r = "/data" +:+ "/") /\
    pathFormatter r true = Some r.
Proof. apply (proj2 pathFormatter_slash "/data"). discriminate. Defined.

Lemma lstrip_chars_slash s :
  exists k t, s = replicate_char k "/" +:+ t /\ lstrip_chars "/" s = t /\
    String.prefix "/" t = false.
Proof.
  induction s as [|c s (k & t & E & L & P)].
  - exists O, "". repeat split.
  - cbn [lstrip_chars char_in]. destruct (Ascii.eqb_spec c "/") as [->|Hc]; cbn [orb].
    + exists (S k), t. cbn [replicate_char]. rewrite append_cons, <- E. repeat split; assumption.
    + exists O, (String c s). repeat split. rewrite prefix_cons.
      apply Ascii.eqb_neq in Hc. rewrite Ascii.eqb_sym, Hc. reflexivity.
Qed.

Lemma rev_replicate_char k c : String.rev (replicate_char k c) = replicate_char k c.
Proof.
  induction k as [|k IH]; [reflexivity|].
  cbn [replicate_char]. rewrite rev_cons, IH. clear.
  induction k as [|k IH]; [reflexivity|]. cbn [replicate_char]. rewrite append_cons. now f_equal.
Qed.

Lemma last_char_rev s : last_char s = match String.rev s with String c _ => Some c | "" => None end.
Proof. reflexivity. Qed.

(** X8. With [slash=False], [pathFormatter] removes all the slashes at
    the end of the path and nothing else: the path is the result
    followed by slashes only, the result does not end with [/], and
    formatting it again changes nothing.  A path made of slashes only,
    the root [/] among them, becomes the empty path. *)
Theorem pathFormatter_noslash :
  (forall path : string,
     exists r k, pathFormatter path false = Some r /\
       path = r +:+ replicate_char k "/" /\
       last_char r <> Some "/"%char /\
       pathFormatter r false = Some r) /\
  (forall k : nat, pathFormatter (replicate_char k "/") false = Some "").
Proof.
  assert (A : forall path, exists r k, rstrip_chars "/" path = r /\
               path = r +:+ replicate_char k "/" /\ last_char r <> Some "/"%char /\
               rstrip_chars "/" r = r).
  { intros path. unfold rstrip_chars.
    destruct (lstrip_chars_slash (String.rev path)) as (k & t & E & L & P).
    exists (String.rev t), k. rewrite L. split; [reflexivity|].
    split; [|split].
    - rewrite <- (rev_involutive path), E, rev_append, rev_replicate_char. reflexivity.
    - rewrite last_char_rev, rev_involutive. destruct t as [|c t]; [discriminate|].
      rewrite prefix_cons, prefix_nil, andb_true_r in P. intros [= ->]. discriminate.
    - rewrite rev_involutive. destruct t as [|c t]; [reflexivity|].
      rewrite prefix_cons, prefix_nil, andb_true_r in P.
      cbn [lstrip_chars char_in]. rewrite Ascii.eqb_sym, P. reflexivity. }
  split.
  - intros path. destruct (A path) as (r & k & R & E & L & I).
    exists r, k. unfold pathFormatter. rewrite R, I. auto.
  - intros k. unfold pathFormatter. f_equal. unfold rstrip_chars.
    rewrite rev_replicate_char. induction k as [|k IH]; [reflexivity|].
    cbn [replicate_char lstrip_chars char_in]. rewrite Ascii.eqb_refl. exact IH.
Qed.

(* ===================================================================== *)
(** * Lists in the configuration *)
(* ===================================================================== *)

Lemma span_space_zero c s : span_space (String c s) = O -> isspace c = false.
Proof. cbn [span_space]. destruct (isspace c); [discriminate|reflexivity]. Qed.

Lemma split_re_match_zero c s :
  split_re_match (String c s) = O -> token_char c = true.
Proof.
  unfold split_re_match, token_char. cbn [span_space].
  destruct (isspace c) eqn:Hs.
  - destruct (drop (S (span_space s)) (String c s)) as [|d u]; [discriminate|].
    destruct d as [[] [] [] [] [] [] [] []]; intros H; try discriminate H; lia.
  - cbn [drop negb andb]. destruct (Ascii.eqb_spec c ",") as [->|Hc]; [discriminate|].
    reflexivity.
Qed.

Lemma string_take_drop n s : take n s +:+ drop n s = s.
Proof.
  revert s; induction n as [|n IH]; intros [|c s]; try reflexivity.
  cbn [take drop]. rewrite append_cons. now f_equal.
Qed.

Lemma span_space_take s : all_chars isspace (take (span_space s) s) = true.
Proof.
  induction s as [|c s IH]; [reflexivity|]. cbn [span_space].
  destruct (isspace c) eqn:Hc; [|reflexivity]. cbn [take all_chars]. now rewrite Hc.
Qed.

Lemma string_drop_drop n m s : drop n (drop m s) = drop (m + n) s.
Proof.
  revert s; induction m as [|m IH]; intros s; [reflexivity|].
  destruct s as [|c s]; [now rewrite drop_nil|]. cbn [drop Nat.add]. apply IH.
Qed.

Lemma take_app_drop n m s : take (n + m) s = take n s +:+ take m (drop n s).
Proof.
  revert s; induction n as [|n IH]; intros s; [reflexivity|].
  destruct s as [|c s]; [destruct m; reflexivity|].
  cbn [Nat.add take drop]. rewrite append_cons. now f_equal.
Qed.

Lemma filter_chars_app P s t :
  filter_chars P (s +:+ t) = filter_chars P s +:+ filter_chars P t.
Proof.
  induction s as [|c s IH]; [reflexivity|].
  rewrite append_cons. cbn [filter_chars]. destruct (P c); [rewrite append_cons|]; now rewrite IH.
Qed.

Lemma filter_chars_none P Q s :
  (forall c, Q c = true -> P c = false) -> all_chars Q s = true -> filter_chars P s = "".
Proof.
  intros H. induction s as [|c s IH]; [reflexivity|]. cbn [all_chars filter_chars].
  intros [Hc Hs]%andb_true_iff. rewrite (H _ Hc). now apply IH.
Qed.

Lemma filter_chars_all P s : all_chars P s = true -> filter_chars P s = s.
Proof.
  induction s as [|c s IH]; [reflexivity|]. cbn [all_chars filter_chars].
  intros [Hc Hs]%andb_true_iff. rewrite Hc. f_equal. now apply IH.
Qed.

(** The characters that a match of [split_re] covers are white space
    and commas. *)
Lemma split_re_match_take s :
  all_chars (fun c => negb (token_char c)) (take (split_re_match s) s) = true.
Proof.
  assert (W : forall u, all_chars (fun c => negb (token_char c)) (take (span_space u) u) = true).
  { intros u. apply (all_chars_weaken isspace); [|apply span_space_take].
    intros c Hc. unfold token_char. now rewrite Hc. }
  unfold split_re_match.
  destruct (drop (span_space s) s) as [|d u] eqn:E; [apply W|].
  assert (D : (if Ascii.eqb d "," then True else
               match d with
               | ","%char => (span_space s + 1 + span_space u)%nat
               | _ => span_space s
               end = span_space s)).
  { destruct d as [[] [] [] [] [] [] [] []]; cbn; auto. }
  destruct (Ascii.eqb_spec d ",") as [->|Hd].
  - rewrite <- Nat.add_assoc, take_app_drop, E, all_chars_app, W. cbn [andb].
    cbn [Nat.add take all_chars]. change (negb (token_char ",")) with true. cbn [andb]. apply W.
  - rewrite D. apply W.
Qed.

Lemma all_chars_take P n s : all_chars P s = true -> all_chars P (take n s) = true.
Proof.
  revert s; induction n as [|n IH]; intros [|c s]; try reflexivity.
  cbn [take all_chars]. intros [Hc Hs]%andb_true_iff. rewrite Hc. now apply IH.
Qed.

(** The state of the splitting loop: [cur] holds token characters only
    and the [skip] characters still to pass over belong to a match. *)
Lemma re_split_go_tokens s skip cur :
  all_chars token_char cur = true ->
  all_chars (fun c => negb (token_char c)) (take skip s) = true ->
  Forall (fun x => all_chars token_char x = true) (re_split_go split_re_match s skip cur) /\
  join "" (re_split_go split_re_match s skip cur)
    = String.rev cur +:+ filter_chars token_char s.
Proof.
  revert skip cur; induction s as [|c s IH]; intros skip cur Hcur Hskip.
  - cbn [re_split_go join filter_chars]. rewrite append_nil_r. split; [|reflexivity].
    constructor; [|constructor]. now rewrite all_chars_rev.
  - cbn [re_split_go]. destruct skip as [|k].
    + destruct (split_re_match (String c s)) as [|k] eqn:M.
      * apply split_re_match_zero in M.
        destruct (IH O (String c cur)) as [F J]; [cbn [all_chars]; now rewrite M, Hcur|reflexivity|].
        split; [exact F|]. rewrite J. cbn [filter_chars]. rewrite M, rev_cons, append_assoc.
        reflexivity.
      * pose proof (split_re_match_take (String c s)) as T. rewrite M in T.
        cbn [take all_chars] in T. apply andb_true_iff in T as [Tc T].
        destruct (IH k "") as [F J]; [reflexivity|exact T|].
        split.
        -- constructor; [now rewrite all_chars_rev|exact F].
        -- assert (N : re_split_go split_re_match s k "" <> []).
           { clear. revert k. generalize "". induction s as [|c s IH]; intros cur k; [discriminate|].
             cbn [re_split_go]. destruct k; [|apply IH].
             destruct (split_re_match (String c s)); [apply IH|discriminate]. }
           rewrite join_cons by exact N. rewrite J. cbn [filter_chars].
           apply negb_true_iff in Tc. rewrite Tc. reflexivity.
    + cbn [take all_chars] in Hskip. apply andb_true_iff in Hskip as [Hc Hskip].
      destruct (IH k cur Hcur Hskip) as [F J]. split; [exact F|].
      rewrite J. cbn [filter_chars]. apply negb_true_iff in Hc. rewrite Hc. reflexivity.
Qed.

Lemma split_re_split_tokens s :
  Forall (fun x => all_chars token_char x = true) (split_re_split s) /\
  join "" (split_re_split s) = filter_chars token_char s.
Proof.
  destruct (re_split_go_tokens s O "") as [F J]; try reflexivity. split; assumption.
Qed.

(** X9. A stored option read by [cp_getList] comes back as a list of
    tokens: no item has white space or a comma in it, and the items put
    together are the stored value without its white space and commas. *)
Theorem cp_getList_tokens
    (E : Env) (cp : ConfigParser.t) (section option v : string) (default : pyval) :
  section <> "" -> option <> "" ->
  get E cp section option = Ok v ->
  exists l, cp_getList E cp section option default = Ok (PyList l) /\
    Forall (fun x => all_chars token_char x = true) l /\
    join "" l = filter_chars token_char v.
Proof.
  intros Hs Ho Hg. exists (split_re_split v). split.
  - unfold cp_getList. rewrite (cp_get_stored_value _ _ _ _ _ default Hs Ho Hg). reflexivity.
  - apply split_re_split_tokens.
Qed.

Lemma cp_getList_tokens_witness :
  exists l, cp_getList sample_env sample_cp "se_a" "mount_point" PyNone = Ok (PyList l) /\
    Forall (fun x => all_chars token_char x = true) l /\
    join "" l = filter_chars token_char "/mnt/a,/b".
Proof.
  apply (cp_getList_tokens sample_env sample_cp "se_a" "mount_point" "/mnt/a,/b" PyNone);
    [discriminate|discriminate|reflexivity].
Defined.

(* ===================================================================== *)
(** * The classic SE *)
(* ===================================================================== *)

Lemma cp_getBoolean_bool E cp section option (default : bool) v :
  cp_getBoolean E cp section option (PyBool default) = Ok v -> exists b, v = PyBool b.
Proof.
  unfold cp_getBoolean.
  destruct (cp_get E cp section option (PyBool default)) as [w|e]; [|discriminate].
  cbn [mbind result_bind].
  repeat match goal with |- context [if ?c then _ else _] => destruct c end;
    intros [= <-]; eauto.
Qed.

(** X10. [getClassicSEList] returns no identifier when the classic SE is
    not advertised and exactly one otherwise: the [unique_name] of the
    section [classic_se] when it is stored and not empty, else the
    [unique_name] of the site (or [UNKNOWN]) followed by [_classicSE].
    The identifier is never empty. *)
Theorem getClassicSEList_shape (E : Env) (cp : ConfigParser.t) (l : list string) :
  getClassicSEList E cp = Ok l ->
  exists b : bool,
    cp_getBoolean E cp "classic_se" "advertise_se" (PyBool true) = Ok (PyBool b) /\
    if b then
      exists name, l = [name] /\ name <> "" /\
        (cp_get E cp "classic_se" "unique_name" PyNone = Ok (PyStr name) \/
         exists site,
           (cp_get E cp "classic_se" "unique_name" PyNone = Ok PyNone \/
            cp_get E cp "classic_se" "unique_name" PyNone = Ok (PyStr "")) /\
           cp_get E cp "site" "unique_name" (PyStr "UNKNOWN") = Ok (PyStr site) /\
           name = site +:+ "_classicSE")
    else l = [].
Proof.
  unfold getClassicSEList. intros H.
  destruct (cp_getBoolean E cp "classic_se" "advertise_se" (PyBool true)) as [a|e] eqn:A;
    [|discriminate].
  destruct (cp_getBoolean_bool _ _ _ _ _ _ A) as [b ->]. exists b. split; [reflexivity|].
  cbn [mbind result_bind truthy] in H. destruct b; [|now injection H as <-].
  destruct (cp_get E cp "classic_se" "unique_name" PyNone) as [c|e] eqn:C; [|discriminate].
  cbn [mbind result_bind] in H.
  destruct (cp_get_None_cases _ _ _ _ _ C) as [->|[s ->]].
  - cbn [truthy] in H.
    destruct (cp_get E cp "site" "unique_name" (PyStr "UNKNOWN")) as [u|e] eqn:U; [|discriminate].
    cbn [mbind result_bind] in H. destruct u as [| | |site|]; try discriminate.
    cbn in H. injection H as <-. eexists; split; [reflexivity|]. split.
    + destruct site; discriminate.
    + right. exists site. auto.
  - cbn [truthy] in H. destruct (String.eqb_spec s "") as [Hs|Hs]; cbn [negb] in H; [subst s|].
    + destruct (cp_get E cp "site" "unique_name" (PyStr "UNKNOWN")) as [u|e] eqn:U; [|discriminate].
      cbn [mbind result_bind] in H. destruct u as [| | |site|]; try discriminate.
      cbn in H. injection H as <-. eexists; split; [reflexivity|]. split.
      * destruct site; discriminate.
      * right. exists site. auto.
    + cbn in H. injection H as <-. eexists; split; [reflexivity|]. split; [assumption|].
      now left.
Qed.

Lemma getClassicSEList_shape_witness :
  exists b : bool,
    cp_getBoolean sample_env sample_cp "classic_se" "advertise_se" (PyBool true) = Ok (PyBool b) /\
    if b then
      exists name, ["UNKNOWN_classicSE"] = [name] /\ name <> "" /\
        (cp_get sample_env sample_cp "classic_se" "unique_name" PyNone = Ok (PyStr name) \/
         exists site,
           (cp_get sample_env sample_cp "classic_se" "unique_name" PyNone = Ok PyNone \/
            cp_get sample_env sample_cp "classic_se" "unique_name" PyNone = Ok (PyStr "")) /\
           cp_get sample_env sample_cp "site" "unique_name" (PyStr "UNKNOWN") = Ok (PyStr site) /\
           name = site +:+ "_classicSE")
    else ["UNKNOWN_classicSE"] = [].
Proof.
  apply (getClassicSEList_shape sample_env sample_cp ["UNKNOWN_classicSE"]). reflexivity.
Defined.

(* ===================================================================== *)
(** * The port of HTCondor-CE *)
(* ===================================================================== *)

Lemma count_char_app c s t :
  count_char c (s +:+ t) = (count_char c s + count_char c t)%nat.
Proof.
  induction s as [|d s IH]; [reflexivity|].
  rewrite append_cons. cbn [count_char]. rewrite IH. lia.
Qed.

Lemma count_char_zero c s :
  count_char c s = O -> all_chars (fun d => negb (Ascii.eqb c d)) s = true.
Proof.
  induction s as [|d s IH]; [reflexivity|]. cbn [count_char all_chars].
  destruct (Ascii.eqb c d); [discriminate|]. cbn. exact IH.
Qed.

Lemma all_chars_count_zero c s :
  all_chars (fun d => negb (Ascii.eqb c d)) s = true -> count_char c s = O.
Proof.
  induction s as [|d s IH]; [reflexivity|]. cbn [count_char all_chars].
  destruct (Ascii.eqb c d); [discriminate|]. cbn. exact IH.
Qed.

Lemma string_drop_app_length s t : drop (String.length s) (s +:+ t) = t.
Proof. induction s as [|c s IH]; [reflexivity|]. exact IH. Qed.

Lemma span_digits_all s : all_chars isdigit s = true -> span_digits s = String.length s.
Proof.
  induction s as [|c s IH]; [reflexivity|]. cbn [all_chars span_digits String.length].
  intros [Hc Hs]%andb_true_iff. rewrite Hc. f_equal. now apply IH.
Qed.

Lemma take_length s : take (String.length s) s = s.
Proof. induction s as [|c s IH]; [reflexivity|]. cbn [String.length take]. now f_equal. Qed.

Lemma drop_length s : drop (String.length s) s = "".
Proof. induction s as [|c s IH]; [reflexivity|]. exact IH. Qed.

(** The search finds the digits at the end when the first character of
    the literal does not occur before it. *)
Lemma re_search_digits_end_found a pre head digits :
  all_chars (fun d => negb (Ascii.eqb a d)) head = true ->
  digits <> "" -> all_chars isdigit digits = true ->
  re_search_digits_end (String a pre) (head +:+ String a pre +:+ digits) = Some digits.
Proof.
  intros Hh Hn Hd. induction head as [|c head IH].
  - rewrite append_nil_l, append_cons. cbn [re_search_digits_end].
    rewrite <- append_cons, prefix_app_same, string_drop_app_length, (span_digits_all _ Hd).
    rewrite drop_length, take_length.
    destruct digits as [|d ds]; [congruence|]. reflexivity.
  - cbn [all_chars] in Hh. apply andb_true_iff in Hh as [Hc Hh].
    rewrite append_cons. cbn [re_search_digits_end]. rewrite prefix_cons.
    apply negb_true_iff in Hc. rewrite Hc. cbn [andb]. now apply IH.
Qed.

Lemma re_search_digits_end_none pre s :
  occurs pre s = false -> re_search_digits_end pre s = None.
Proof.
  induction s as [|c s IH]; [reflexivity|]. cbn [occurs re_search_digits_end].
  intros [Hp Hs]%orb_false_iff. rewrite Hp. now apply IH.
Qed.

Lemma str_of_Z_digits p : 0 <= p -> str_of_Z p <> "" /\ all_chars isdigit (str_of_Z p) = true.
Proof.
  intros Hp. destruct p as [|p|p]; [split; [discriminate|reflexivity]| |lia].
  rewrite str_of_Z_pos. split; [|apply all_chars_string_of_uint].
  apply string_of_uint_nonempty, DecimalPos.Unsigned.to_uint_nonnil.
Qed.

Lemma int_of_str_of_Z n : int_of_str (str_of_Z n) = Ok n.
Proof.
  rewrite <- (int_of_str_str_of_Z n). f_equal. symmetry. apply strip_no_space.
  apply (all_chars_weaken digit_or_minus);
    [apply digit_or_minus_no_space|apply all_chars_str_of_Z].
Qed.

Lemma isdigit_not_colon c : isdigit c = true -> negb (Ascii.eqb ":" c) = true.
Proof. destruct c as [[] [] [] [] [] [] [] []]; vm_compute; congruence. Qed.

Lemma occurs_first_char a pre s :
  all_chars (fun d => negb (Ascii.eqb a d)) s = true -> occurs (String a pre) s = false.
Proof.
  induction s as [|c s IH]; [reflexivity|]. cbn [all_chars occurs].
  intros [Hc Hs]%andb_true_iff. rewrite prefix_cons. apply negb_true_iff in Hc.
  rewrite Hc. cbn. now apply IH.
Qed.

Lemma getHTCondorCEPort_host E h :
  getCondorCEConfigVal E "COLLECTOR_HOST" = Some h ->
  getHTCondorCEPort E =
    match (if truthy (PyStr h) then
             if (1 <? count_char ":" h)%nat
             then re_search_digits_end "]:" h else re_search_digits_end ":" h
           else None) with
    | Some g => match int_of_str g with Ok n => n | Raise _ => 9619 end
    | None =>
        match getCondorCEConfigVal E "COLLECTOR_PORT" with
        | Some v => match int_of_str v with Ok n => n | Raise _ => 9619 end
        | None => 9619
        end
    end.
Proof. intros H. unfold getHTCondorCEPort. rewrite H. reflexivity. Qed.

(** X11. When [COLLECTOR_HOST] is a host name or an IPv4 address
    followed by a colon and a port, or a bracketed address followed by
    a colon and a port, [getHTCondorCEPort] returns that port, whatever
    [COLLECTOR_PORT] says. *)
Theorem getHTCondorCEPort_of_host :
  (forall (E : Env) (host : string) (p : Z),
     0 <= p -> count_char ":" host = O ->
     getCondorCEConfigVal E "COLLECTOR_HOST" = Some (host +:+ ":" +:+ str_of_Z p) ->
     getHTCondorCEPort E = p) /\
  (forall (E : Env) (addr : string) (p : Z),
     0 <= p -> count_char "]" addr = O ->
     getCondorCEConfigVal E "COLLECTOR_HOST" = Some ("[" +:+ addr +:+ "]:" +:+ str_of_Z p) ->
     getHTCondorCEPort E = p).
Proof.
  assert (C : forall p, 0 <= p -> count_char ":" (str_of_Z p) = O).
  { intros p Hp. apply all_chars_count_zero.
    apply (all_chars_weaken isdigit); [apply isdigit_not_colon|].
    now apply str_of_Z_digits. }
  split.
  - intros E host p Hp Hc H. rewrite (getHTCondorCEPort_host _ _ H).
    destruct (str_of_Z_digits p Hp) as [Dn Dd].
    rewrite truthy_nonempty by (destruct host; [|discriminate]; rewrite append_nil_l; discriminate).
    rewrite !count_char_app, Hc, (C p Hp). cbn [count_char].
    change (Ascii.eqb ":" ":") with true. cbn [Nat.add Nat.ltb Nat.leb].
    rewrite re_search_digits_end_found by (try apply count_char_zero; assumption).
    now rewrite int_of_str_of_Z.
  - intros E addr p Hp Hc H. rewrite (getHTCondorCEPort_host _ _ H).
    destruct (str_of_Z_digits p Hp) as [Dn Dd].
    rewrite truthy_nonempty by discriminate.
    destruct (1 <? count_char ":" ("[" +:+ addr +:+ "]:" +:+ str_of_Z p))%nat eqn:L.
    + change ("[" +:+ addr +:+ "]:" +:+ str_of_Z p)
        with (("[" +:+ addr) +:+ "]:" +:+ str_of_Z p).
      rewrite re_search_digits_end_found; [now rewrite int_of_str_of_Z| |assumption..].
      rewrite append_cons. cbn [all_chars]. rewrite append_nil_l.
      change (negb (Ascii.eqb "]" "[")) with true. cbn [andb]. now apply count_char_zero.
    + apply Nat.ltb_ge in L.
      rewrite !count_char_app, (C p Hp) in L. cbn [count_char] in L.
      change (Ascii.eqb ":" "[") with false in L. change (Ascii.eqb ":" "]") with false in L.
      change (Ascii.eqb ":" ":") with true in L.
      cbv iota in L. assert (A : count_char ":" addr = O) by lia.
      replace ("[" +:+ addr +:+ "]:" +:+ str_of_Z p)
        with (("[" +:+ addr +:+ "]") +:+ ":" +:+ str_of_Z p).
      * rewrite re_search_digits_end_found; [now rewrite int_of_str_of_Z| |assumption..].
        rewrite append_cons, append_nil_l. cbn [all_chars].
        change (negb (Ascii.eqb ":" "[")) with true. cbn [andb].
        rewrite all_chars_app, (count_char_zero _ _ A). reflexivity.
      * rewrite !append_cons, !append_nil_l, append_assoc. reflexivity.
Qed.

Lemma getHTCondorCEPort_of_host_witness :
  getHTCondorCEPort
    (condor_env [("COLLECTOR_HOST", String.app "ce.example.org:9620" (String newline ""))])
  = 9620.
Proof.
  apply (proj1 getHTCondorCEPort_of_host _ "ce.example.org" 9620); [lia|reflexivity|reflexivity].
Defined.

(** X12. When [COLLECTOR_HOST] cannot be read, has no colon at all, or
    has several colons but no bracket before a colon (an IPv6 address
    that is not bracketed, with or without a port), the port is taken
    from [COLLECTOR_PORT], and it is 9619 when that cannot be read. *)
Theorem getHTCondorCEPort_fallback (E : Env) :
  getCondorCEConfigVal E "COLLECTOR_HOST" = None \/
  (exists h, getCondorCEConfigVal E "COLLECTOR_HOST" = Some h /\
     (count_char ":" h = O \/ ((1 < count_char ":" h)%nat /\ occurs "]:" h = false))) ->
  (getCondorCEConfigVal E "COLLECTOR_PORT" = None -> getHTCondorCEPort E = 9619) /\
  (forall n : Z, getCondorCEConfigVal E "COLLECTOR_PORT" = Some (str_of_Z n) ->
     getHTCondorCEPort E = n).
Proof.
  intros H.
  assert (F : getHTCondorCEPort E =
              match getCondorCEConfigVal E "COLLECTOR_PORT" with
              | Some v => match int_of_str v with Ok n => n | Raise _ => 9619 end
              | None => 9619
              end).
  { destruct H as [H|(h & H & C)].
    - unfold getHTCondorCEPort. rewrite H. reflexivity.
    - rewrite (getHTCondorCEPort_host _ _ H).
      destruct (truthy (PyStr h)); [|reflexivity].
      destruct C as [C|[C O]].
      + rewrite C. change (1 <? 0)%nat with false. cbv iota.
        rewrite re_search_digits_end_none; [reflexivity|].
        apply occurs_first_char. now apply count_char_zero.
      + apply Nat.ltb_lt in C. rewrite C.
        rewrite re_search_digits_end_none by assumption. reflexivity. }
  rewrite F. split.
  - intros ->. reflexivity.
  - intros n ->. now rewrite int_of_str_of_Z.
Qed.

Lemma getHTCondorCEPort_fallback_witness :
  getHTCondorCEPort (condor_env [("COLLECTOR_HOST", "::1:9620"); ("COLLECTOR_PORT", "9700")])
  = 9700.
Proof.
  apply (proj2 (getHTCondorCEPort_fallback
    (condor_env [("COLLECTOR_HOST", "::1:9620"); ("COLLECTOR_PORT", "9700")])
    ltac:(right; exists "::1:9620"; split;
          [reflexivity|right; split; [cbn; lia|reflexivity]])) 9700).
  reflexivity.
Defined.

(* ===================================================================== *)
(** * Splitting on one character *)
(* ===================================================================== *)

Section SplitChar.
Variable a : ascii.
Let sep := String a "".
Let free (s : string) := all_chars (fun d => negb (Ascii.eqb a d)) s.

Lemma split_go_char_cons c s cur :
  split_go sep (String c s) O cur =
    if Ascii.eqb a c then String.rev cur :: split_go sep s O ""
    else split_go sep s O (String c cur).
Proof.
  cbn [split_go]. unfold sep. rewrite prefix_cons, prefix_nil, andb_true_r.
  destruct (Ascii.eqb a c); reflexivity.
Qed.

Lemma split_go_char_app s t cur :
  split_go sep (s +:+ String a t) O cur
  = (split_go sep s O cur ++ split_go sep t O "")%list.
Proof.
  revert cur; induction s as [|c s IH]; intros cur.
  - rewrite append_nil_l, split_go_char_cons, Ascii.eqb_refl. reflexivity.
  - rewrite append_cons, !split_go_char_cons.
    destruct (Ascii.eqb a c); rewrite IH; reflexivity.
Qed.

Lemma split_go_char_free s cur :
  free s = true -> split_go sep s O cur = [String.rev cur +:+ s].
Proof.
  unfold free. revert cur; induction s as [|c s IH]; intros cur H.
  - cbn [split_go]. now rewrite append_nil_r.
  - cbn [all_chars] in H. apply andb_true_iff in H as [Hc H].
    rewrite split_go_char_cons. apply negb_true_iff in Hc. rewrite Hc.
    rewrite IH by assumption. now rewrite rev_cons, append_assoc.
Qed.

Lemma split_go_char_pieces s cur :
  free cur = true -> Forall (fun x => free x = true) (split_go sep s O cur).
Proof.
  unfold free. revert cur; induction s as [|c s IH]; intros cur H.
  - cbn [split_go]. constructor; [|constructor]. now rewrite all_chars_rev.
  - rewrite split_go_char_cons. destruct (Ascii.eqb a c) eqn:Hc.
    + constructor; [now rewrite all_chars_rev|]. now apply IH.
    + apply IH. cbn [all_chars]. now rewrite Hc.
Qed.

Lemma split_char_app s t : split (s +:+ String a t) sep = (split s sep ++ split t sep)%list.
Proof. apply split_go_char_app. Qed.

Lemma split_char_free s : free s = true -> split s sep = [s].
Proof. intros H. unfold split. now rewrite split_go_char_free. Qed.

Lemma split_char_pieces s : Forall (fun x => free x = true) (split s sep).
Proof. now apply split_go_char_pieces. Qed.

Lemma split_char_length s : length (split s sep) = S (count_char a s).
Proof.
  unfold split. generalize "". induction s as [|c s IH]; intros cur; [reflexivity|].
  rewrite split_go_char_cons. cbn [count_char]. destruct (Ascii.eqb a c).
  - cbn [length]. now rewrite IH.
  - now rewrite IH.
Qed.

(** Splitting what was joined gives the pieces back. *)
Lemma split_char_join l :
  l <> [] -> Forall (fun x => free x = true) l -> split (join sep l) sep = l.
Proof.
  induction l as [|x l IH]; [congruence|]. intros _ F.
  apply Forall_cons in F as [Fx F].
  destruct l as [|y l].
  - cbn [join]. now apply split_char_free.
  - rewrite join_cons by discriminate. unfold sep at 1. rewrite append_cons, append_nil_l.
    rewrite split_char_app, split_char_free by assumption.
    rewrite IH by (try discriminate; assumption). reflexivity.
Qed.

End SplitChar.

(* ===================================================================== *)
(** * The search path *)
(* ===================================================================== *)

Lemma uniquepathlist_of_cons e l set :
  uniquepathlist_of (e :: l) set =
    match set !! e with
    | None => e :: uniquepathlist_of l (<[e := e]> set)
    | Some _ => uniquepathlist_of l set
    end.
Proof.
  cbn [uniquepathlist_of]. unfold setdefault. destruct (set !! e) eqn:L; reflexivity.
Qed.

Lemma uniquepathlist_of_elem l set x :
  x ∈ uniquepathlist_of l set <-> x ∈ l /\ set !! x = None.
Proof.
  revert set; induction l as [|e l IH]; intros set.
  - cbn [uniquepathlist_of]. split; [intros H|intros [H _]]; inversion H.
  - rewrite uniquepathlist_of_cons. destruct (set !! e) eqn:L.
    + rewrite IH. split.
      * intros [H1 H2]. split; [now right|assumption].
      * intros [H1 H2]. split; [|assumption].
        apply elem_of_cons in H1 as [->|H1]; [congruence|assumption].
    + rewrite elem_of_cons, IH. split.
      * intros [->|[H1 H2]]; [split; [left|assumption]|].
        split; [now right|]. destruct (decide (e = x)) as [->|Hn]; [assumption|].
        now rewrite lookup_insert_ne in H2.
      * intros [H1 H2]. apply elem_of_cons in H1 as [->|H1]; [now left|].
        destruct (decide (x = e)) as [->|Hn]; [now left|]. right. split; [assumption|].
        rewrite lookup_insert_ne by congruence. assumption.
Qed.

Lemma uniquepathlist_of_NoDup l set : NoDup (uniquepathlist_of l set).
Proof.
  revert set; induction l as [|e l IH]; intros set; [constructor|].
  rewrite uniquepathlist_of_cons. destruct (set !! e) eqn:L; [apply IH|].
  constructor; [|apply IH]. rewrite uniquepathlist_of_elem.
  intros [_ H]. rewrite lookup_insert_eq in H. discriminate.
Qed.

Lemma uniquepathlist_of_app l1 l2 set :
  exists set',
    uniquepathlist_of (l1 ++ l2) set
      = (uniquepathlist_of l1 set ++ uniquepathlist_of l2 set')%list /\
    (forall x, set' !! x = None <-> set !! x = None /\ x ∉ l1).
Proof.
  revert set; induction l1 as [|e l1 IH]; intros set.
  - exists set. split; [reflexivity|]. intros x.
    split; [intros H; split; [assumption|apply not_elem_of_nil]|tauto].
  - cbn [app]. rewrite !uniquepathlist_of_cons. destruct (set !! e) eqn:L.
    + destruct (IH set) as (set' & E & C). exists set'. split; [exact E|].
      intros x. rewrite C, not_elem_of_cons. split; [|tauto].
      intros [H1 H2]. repeat split; try assumption. congruence.
    + destruct (IH (<[e := e]> set)) as (set' & E & C). exists set'. split.
      * rewrite E. reflexivity.
      * intros x. rewrite C, not_elem_of_cons.
        destruct (decide (x = e)) as [->|Hn].
        -- rewrite lookup_insert_eq. split; [intros [H _]; discriminate|tauto].
        -- rewrite lookup_insert_ne by congruence. tauto.
Qed.

Lemma uniquepathlist_of_id l set :
  NoDup l -> (forall x, x ∈ l -> set !! x = None) -> uniquepathlist_of l set = l.
Proof.
  revert set; induction l as [|e l IH]; intros set N H; [reflexivity|].
  apply NoDup_cons in N as [Ne N].
  rewrite uniquepathlist_of_cons, (H e) by left. f_equal. apply IH; [assumption|].
  intros x Hx. rewrite lookup_insert_ne by (intros ->; contradiction).
  apply H. now right.
Qed.

Lemma uniquepathlist_of_nil l set :
  (forall x, x ∈ l -> set !! x <> None) -> uniquepathlist_of l set = [].
Proof.
  induction l as [|e l IH]; intros H; [reflexivity|].
  rewrite uniquepathlist_of_cons. destruct (set !! e) eqn:L.
  - apply IH. intros x Hx. apply H. now right.
  - exfalso. apply (H e); [left|assumption].
Qed.

(** Removing the duplicates a second time, behind the same head, gives
    the same list. *)
Lemma uniquepathlist_of_again A R :
  uniquepathlist_of (A ++ uniquepathlist_of (A ++ R) ∅) ∅ = uniquepathlist_of (A ++ R) ∅.
Proof.
  destruct (uniquepathlist_of_app A R ∅) as (s1 & E1 & C1). rewrite E1.
  destruct (uniquepathlist_of_app A (uniquepathlist_of A ∅ ++ uniquepathlist_of R s1) ∅)
    as (s2 & E2 & C2). rewrite E2. f_equal.
  destruct (uniquepathlist_of_app (uniquepathlist_of A ∅) (uniquepathlist_of R s1) s2)
    as (s3 & E3 & C3). rewrite E3.
  rewrite uniquepathlist_of_nil.
  - cbn [app]. apply uniquepathlist_of_id; [apply uniquepathlist_of_NoDup|].
    intros x Hx. apply uniquepathlist_of_elem in Hx as [_ Hx].
    apply C1 in Hx as [_ Hx]. apply C3. split.
    + apply C2. split; [apply lookup_empty|assumption].
    + rewrite uniquepathlist_of_elem. tauto.
  - intros x Hx. apply uniquepathlist_of_elem in Hx as [Hx _].
    rewrite C2. tauto.
Qed.

Lemma format_path a b : format "%s:%s" [PyStr a; b] = Ok (a +:+ ":" +:+ str b).
Proof.
  unfold format. cbn. destruct b; cbn; rewrite ?append_nil_r; reflexivity.
Qed.

(** The components of the old search path; an unset [PATH] is printed as
    [None]. *)
Lemma addToPath_unfold environ new_element :
  addToPath environ new_element =
    environ_set environ "PATH"
      (join ":" (uniquepathlist_of
         (split (str new_element) ":" ++ split (old_path environ) ":") ∅)).
Proof.
  unfold addToPath, old_path. rewrite format_path. cbn [mbind result_bind].
  rewrite (append_cons ":" ""), append_nil_l, (split_char_app ":").
  destruct (environ !! "PATH"); reflexivity.
Qed.

Lemma environ_set_inv environ key value environ' :
  environ_set environ key value = Ok environ' ->
  char_in (ascii_of_N 0) value = false /\ environ' = <[key := value]> environ.
Proof.
  unfold environ_set. destruct (char_in (ascii_of_N 0) value); [discriminate|].
  intros [= <-]. split; reflexivity.
Qed.

Lemma uniquepathlist_of_head a A R :
  uniquepathlist_of ((a :: A) ++ R) ∅ = a :: uniquepathlist_of (A ++ R) (<[a := a]> ∅).
Proof. cbn [app]. rewrite uniquepathlist_of_cons, lookup_empty. reflexivity. Qed.

Lemma split_cons_inv s sep : exists a A, split s sep = a :: A.
Proof.
  pose proof (split_go_not_nil sep s O "") as N. unfold split.
  destruct (split_go sep s O "") as [|a A]; [congruence|eauto].
Qed.

(** The new search path, as a list of components. *)
Lemma addToPath_list environ new_element :
  let l := uniquepathlist_of
             (split (str new_element) ":" ++ split (old_path environ) ":") ∅ in
  split (join ":" l) ":" = l /\ NoDup l /\
  (forall x, x ∈ l <-> x ∈ split (str new_element) ":" \/ x ∈ split (old_path environ) ":") /\
  head l = head (split (str new_element) ":").
Proof.
  intros l.
  assert (M : forall x, x ∈ l <->
                x ∈ split (str new_element) ":" \/ x ∈ split (old_path environ) ":").
  { intros x. unfold l. rewrite uniquepathlist_of_elem, elem_of_app, lookup_empty. tauto. }
  assert (Hd : head l = head (split (str new_element) ":")).
  { unfold l. destruct (split_cons_inv (str new_element) ":") as (a & A & ->).
    rewrite uniquepathlist_of_head. reflexivity. }
  split; [|split; [apply uniquepathlist_of_NoDup|split; assumption]].
  apply (split_char_join ":").
  - destruct (split_cons_inv (str new_element) ":") as (a & A & E).
    rewrite E in Hd. destruct l; [discriminate|discriminate].
  - apply Forall_forall. intros x Hx. apply M in Hx.
    pose proof (split_char_pieces ":" (str new_element)) as P1.
    pose proof (split_char_pieces ":" (old_path environ)) as P2.
    rewrite Forall_forall in P1, P2. destruct Hx as [Hx|Hx]; auto.
Qed.

(** X13. [addToPath] changes [PATH] only.  The components of the new
    [PATH] are those of the new element and of the old [PATH], each
    once, and the first component of the new element comes first. *)
Theorem addToPath_components
    (environ environ' : gmap string string) (new_element : pyval) :
  addToPath environ new_element = Ok environ' ->
  exists l : list string,
    environ' = <["PATH" := join ":" l]> environ /\
    split (join ":" l) ":" = l /\
    NoDup l /\
    (forall x, x ∈ l <->
       x ∈ split (str new_element) ":" \/ x ∈ split (old_path environ) ":") /\
    head l = head (split (str new_element) ":").
Proof.
  rewrite addToPath_unfold. intros H. apply environ_set_inv in H as [_ ->].
  eexists. split; [reflexivity|]. apply addToPath_list.
Qed.

Lemma addToPath_components_witness :
  exists l : list string,
    <["PATH" := "/opt/sge/bin:/usr/bin:/bin"]> (∅ : gmap string string)
      = <["PATH" := join ":" l]> (<["PATH" := "/usr/bin:/bin:/usr/bin"]> ∅) /\
    split (join ":" l) ":" = l /\
    NoDup l /\
    (forall x, x ∈ l <->
       x ∈ split (str (PyStr "/opt/sge/bin")) ":" \/
       x ∈ split (old_path (<["PATH" := "/usr/bin:/bin:/usr/bin"]> ∅)) ":") /\
    head l = head (split (str (PyStr "/opt/sge/bin")) ":").
Proof.
  apply (addToPath_components (<["PATH" := "/usr/bin:/bin:/usr/bin"]> ∅)
           (<["PATH" := "/opt/sge/bin:/usr/bin:/bin"]> ∅) (PyStr "/opt/sge/bin")).
  vm_compute. reflexivity.
Defined.

(** X14. Adding the same element to the search path a second time
    changes nothing. *)
Theorem addToPath_idempotent
    (environ environ' : gmap string string) (new_element : pyval) :
  addToPath environ new_element = Ok environ' ->
  addToPath environ' new_element = Ok environ'.
Proof.
  rewrite !addToPath_unfold. intros H. apply environ_set_inv in H as [N ->].
  destruct (addToPath_list environ new_element) as (S & _).
  unfold old_path at 2. rewrite lookup_insert_eq, S, uniquepathlist_of_again.
  unfold environ_set. rewrite N. f_equal. apply insert_insert_eq.
Qed.

Lemma addToPath_idempotent_witness :
  addToPath (<["PATH" := "/opt/sge/bin:/usr/bin"]> ∅) (PyStr "/opt/sge/bin")
  = Ok (<["PATH" := "/opt/sge/bin:/usr/bin"]> ∅).
Proof.
  apply (addToPath_idempotent (<["PATH" := "/usr/bin"]> ∅)). vm_compute. reflexivity.
Defined.

Lemma char_in_app c s t : char_in c (s +:+ t) = char_in c s || char_in c t.
Proof.
  induction s as [|d s IH]; [reflexivity|].
  rewrite append_cons. cbn [char_in]. rewrite IH. apply orb_assoc.
Qed.

(** X15. When [PATH] is not set, [addToPath] prints the missing value:
    the new [PATH] is the new element followed by the component
    [None]. *)
Theorem addToPath_unset (environ : gmap string string) (d : string) :
  environ !! "PATH" = None ->
  count_char ":" d = O -> char_in (ascii_of_N 0) d = false -> d <> "None" ->
  addToPath environ (PyStr d) = Ok (<["PATH" := d +:+ ":None"]> environ).
Proof.
  intros HP Hc Hn Hd. rewrite addToPath_unfold. unfold old_path. rewrite HP.
  cbn [str]. rewrite (split_char_free ":") by now apply count_char_zero.
  change (split "None" ":") with ["None"]. cbn [app].
  rewrite !uniquepathlist_of_cons, lookup_empty, lookup_insert_ne by assumption.
  rewrite lookup_empty. cbn [uniquepathlist_of join].
  unfold environ_set. rewrite char_in_app, Hn. reflexivity.
Qed.

Lemma addToPath_unset_witness :
  addToPath ∅ (PyStr "/opt/sge/bin") = Ok (<["PATH" := "/opt/sge/bin" +:+ ":None"]> ∅).
Proof.
  apply (addToPath_unset ∅ "/opt/sge/bin");
    [reflexivity|reflexivity|reflexivity|discriminate].
Defined.

(* ===================================================================== *)
(** * Hours, minutes and seconds *)
(* ===================================================================== *)

Lemma HMSToMin_seconds_check :
  forallb (fun n => match rounded_minutes (Z.of_nat n) with
                    | Ok r => r =? (Z.of_nat n + 30) / 60
                    | Raise _ => false
                    end)
          (seq 0 3600) = true.
Proof. vm_compute. reflexivity. Qed.

Lemma rounded_minutes_ok s :
  0 <= s < 3600 -> rounded_minutes s = Ok ((s + 30) / 60).
Proof.
  intros H. pose proof HMSToMin_seconds_check as C.
  rewrite forallb_forall in C. specialize (C (Z.to_nat s)).
  rewrite Z2Nat.id in C by lia.
  destruct (rounded_minutes s) as [r|e].
  - f_equal. apply Z.eqb_eq. apply C. apply in_seq. lia.
  - discriminate C. apply in_seq. lia.
Qed.

Lemma digit_or_minus_not_colon c : digit_or_minus c = true -> negb (Ascii.eqb ":" c) = true.
Proof. destruct c as [[] [] [] [] [] [] [] []]; vm_compute; congruence. Qed.

Lemma str_of_Z_no_colon n : all_chars (fun d => negb (Ascii.eqb ":" d)) (str_of_Z n) = true.
Proof.
  apply (all_chars_weaken digit_or_minus); [apply digit_or_minus_not_colon|].
  apply all_chars_str_of_Z.
Qed.

Lemma HMSToMin_unfold h m s :
  split (h +:+ ":" +:+ m +:+ ":" +:+ s) ":" = (split h ":" ++ split m ":" ++ split s ":")%list.
Proof.
  rewrite (append_cons ":" "" (m +:+ _)), append_nil_l, (split_char_app ":").
  rewrite (append_cons ":" "" s), append_nil_l, (split_char_app ":"). reflexivity.
Qed.

(** X16. [HMSToMin] turns hours, minutes and seconds written as
    decimal numbers into minutes, the seconds being rounded to the
    nearest minute and half a minute counting as a whole one. *)
Theorem HMSToMin_rounds (h m s : Z) :
  0 <= s < 3600 ->
  HMSToMin (str_of_Z h +:+ ":" +:+ str_of_Z m +:+ ":" +:+ str_of_Z s)
  = Ok (h * 60 + m + (s + 30) / 60).
Proof.
  intros Hs. unfold HMSToMin.
  rewrite HMSToMin_unfold, !(split_char_free ":") by apply str_of_Z_no_colon.
  cbn [app unpack3 mbind result_bind int]. rewrite !int_of_str_of_Z.
  cbn [mbind result_bind].
  change (x ← float_of_Z s; q ← float_div x float_60; int_of_float (round q))
    with (rounded_minutes s).
  rewrite rounded_minutes_ok by assumption. reflexivity.
Qed.

Lemma HMSToMin_rounds_witness :
  HMSToMin (str_of_Z 1 +:+ ":" +:+ str_of_Z 29 +:+ ":" +:+ str_of_Z 30)
  = Ok (1 * 60 + 29 + (30 + 30) / 60).
Proof. apply (HMSToMin_rounds 1 29 30). lia. Defined.

(** X17. [HMSToMin] raises [ValueError] unless its argument has exactly
    two colons. *)
Theorem HMSToMin_fields (hms : string) :
  count_char ":" hms <> 2%nat -> HMSToMin hms = Raise ValueError.
Proof.
  intros H. unfold HMSToMin.
  pose proof (split_char_length ":" hms) as L.
  destruct (split hms ":") as [|a [|b [|c [|d l]]]]; try reflexivity.
  cbn [length] in L. congruence.
Qed.

Lemma HMSToMin_fields_witness : HMSToMin "12:30" = Raise ValueError.
Proof. apply (HMSToMin_fields "12:30"). cbn. lia. Defined.

(* ===================================================================== *)
(** * Command-line options *)
(* ===================================================================== *)

(** What [parseOpts] makes of one argument: a keyword, or no keyword. *)
Lemma parseOpts_loop_cons c o rest keywordOpts passedOpts givenOpts :
  exists hasKeyword : option string,
    parseOpts_loop (String c o :: rest) keywordOpts passedOpts givenOpts =
      match hasKeyword with
      | Some keyword =>
          if 0 <=? find keyword "=" then
            match split_max1 keyword "=" with
            | [keyword; value] =>
                parseOpts_loop rest (<[keyword := value]> keywordOpts) passedOpts givenOpts
            | _ => None
            end
          else
            match rest with
            | [] => parseOpts_loop rest keywordOpts (passedOpts ++ [keyword]) givenOpts
            | next :: rest' =>
                c ← head_char next;
                if String.eqb (String c "") "-"
                then parseOpts_loop rest keywordOpts (passedOpts ++ [keyword]) givenOpts
                else parseOpts_loop rest' (<[keyword := next]> keywordOpts)
                       passedOpts givenOpts
            end
      | None => parseOpts_loop rest keywordOpts passedOpts (givenOpts ++ [String c o])
      end /\
    hasKeyword =
      (if (2 <? String.length (String c o))%nat && String.eqb (take 2 (String c o)) "--"
       then Some (drop 2 (String c o))
       else if Ascii.eqb c "-" then Some o else None).
Proof.
  cbn [parseOpts_loop].
  destruct ((2 <? String.length (String c o))%nat && String.eqb (take 2 (String c o)) "--").
  - exists (Some (drop 2 (String c o))). split; reflexivity.
  - cbn [head_char mbind option_bind]. rewrite char_eqb_str.
    destruct (Ascii.eqb c "-"); [exists (Some o)|exists None]; split; reflexivity.
Qed.

Lemma split_max1_found keyword :
  (0 <=? find keyword "=") = true -> exists k v, split_max1 keyword "=" = [k; v].
Proof.
  intros H. unfold split_max1. apply Z.leb_le in H.
  assert (L : (find keyword "=" <? 0) = false) by (apply Z.ltb_ge; lia).
  rewrite L. eauto.
Qed.

Lemma parseOpts_loop_raises n :
  forall args keywordOpts passedOpts givenOpts,
    (length args <= n)%nat ->
    (parseOpts_loop args keywordOpts passedOpts givenOpts = None <-> "" ∈ args).
Proof.
  induction n as [|n IH]; intros args kw p g Hn.
  - destruct args; [|cbn in Hn; lia]. cbn. split; [discriminate|intros H; inversion H].
  - destruct args as [|opt rest].
    + cbn. split; [discriminate|intros H; inversion H].
    + cbn [length] in Hn. destruct opt as [|c o].
      * split; [intros _; left|reflexivity].
      * assert (E : "" ∈ String c o :: rest <-> "" ∈ rest).
        { rewrite elem_of_cons. split; [intros [H|H]; [discriminate|assumption]|auto]. }
        rewrite E.
        destruct (parseOpts_loop_cons c o rest kw p g) as (hk & -> & _).
        destruct hk as [keyword|]; [|apply IH; lia].
        destruct (0 <=? find keyword "=") eqn:F.
        -- destruct (split_max1_found _ F) as (k & v & ->). apply IH; lia.
        -- destruct rest as [|next rest']; [apply IH; cbn; lia|].
           cbn [length] in Hn. destruct next as [|d nx].
           ++ cbn. split; [intros _; left|reflexivity].
           ++ assert (E' : "" ∈ String d nx :: rest' <-> "" ∈ rest').
              { rewrite elem_of_cons. split; [intros [H|H]; [discriminate|assumption]|auto]. }
              cbn [head_char mbind option_bind].
              destruct (String.eqb (String d "") "-").
              ** apply IH. cbn [length]. lia.
              ** rewrite E'. apply IH. lia.
Qed.

(** X18. [parseOpts] fails exactly when one of the arguments is the
    empty string: indexing its first character raises [IndexError]. *)
Theorem parseOpts_raises_iff (args : list string) :
  parseOpts args = None <-> "" ∈ args.
Proof. unfold parseOpts. now apply (parseOpts_loop_raises (length args)). Qed.

(** Arguments that are followed by an option are parsed without regard
    to what follows. *)
Lemma parseOpts_loop_app n :
  forall pre keywordOpts passedOpts givenOpts o t,
    (length pre <= n)%nat ->
    parseOpts_loop (pre ++ String "-" o :: t) keywordOpts passedOpts givenOpts =
      match parseOpts_loop pre keywordOpts passedOpts givenOpts with
      | Some (keywordOpts', passedOpts', givenOpts') =>
          parseOpts_loop (String "-" o :: t) keywordOpts' passedOpts' givenOpts'
      | None => None
      end.
Proof.
  induction n as [|n IH]; intros pre kw p g o t Hn.
  - destruct pre; [reflexivity|cbn in Hn; lia].
  - destruct pre as [|opt rest]; [reflexivity|]. cbn [length] in Hn.
    destruct opt as [|c x]; [reflexivity|].
    cbn [app].
    destruct (parseOpts_loop_cons c x (rest ++ String "-" o :: t) kw p g) as (hk & -> & ->).
    destruct (parseOpts_loop_cons c x rest kw p g) as (hk' & -> & ->).
    match goal with |- context [if ?b then Some (drop 2 _) else _] => destruct b end.
    + destruct (0 <=? find (drop 2 (String c x)) "=") eqn:F.
      * destruct (split_max1_found _ F) as (k & v & ->). apply IH; lia.
      * destruct rest as [|next rest']; [reflexivity|]. cbn [app length] in *.
        destruct next as [|d nx]; [reflexivity|].
        cbn [head_char mbind option_bind].
        destruct (String.eqb (String d "") "-").
        -- apply (IH (String d nx :: rest')). cbn [length]. lia.
        -- apply IH. lia.
    + destruct (Ascii.eqb c "-"); [|apply IH; lia].
      destruct (0 <=? find x "=") eqn:F.
      * destruct (split_max1_found _ F) as (k & v & ->). apply IH; lia.
      * destruct rest as [|next rest']; [reflexivity|]. cbn [app length] in *.
        destruct next as [|d nx]; [reflexivity|].
        cbn [head_char mbind option_bind].
        destruct (String.eqb (String d "") "-").
        -- apply (IH (String d nx :: rest')). cbn [length]. lia.
        -- apply IH. lia.
Qed.

Lemma find_from_free_app k v i :
  count_char "=" k = O ->
  find_from "=" (k +:+ "=" +:+ v) i = i + Z.of_nat (String.length k).
Proof.
  revert i; induction k as [|c k IH]; intros i H.
  - rewrite append_nil_l, (append_cons "=" ""), append_nil_l.
    cbn [find_from String.length]. rewrite prefix_cons, prefix_nil. cbn. lia.
  - cbn [count_char] in H. destruct (Ascii.eqb "=" c) eqn:Hc; [discriminate|].
    rewrite append_cons. cbn [find_from]. rewrite prefix_cons, Hc. cbn [andb].
    rewrite IH by exact H. cbn [String.length]. lia.
Qed.

Lemma find_from_free k i :
  count_char "=" k = O -> find_from "=" k i = -1.
Proof.
  revert i; induction k as [|c k IH]; intros i H; [reflexivity|].
  cbn [count_char] in H. destruct (Ascii.eqb "=" c) eqn:Hc; [discriminate|].
  cbn [find_from]. rewrite prefix_cons, Hc. cbn [andb]. now apply IH.
Qed.

Lemma string_take_app_length s t : take (String.length s) (s +:+ t) = s.
Proof.
  induction s as [|c s IH]; [destruct t; reflexivity|].
  rewrite append_cons. cbn [String.length take]. now f_equal.
Qed.

Lemma split_max1_keyword k v :
  count_char "=" k = O -> split_max1 (k +:+ "=" +:+ v) "=" = [k; v].
Proof.
  intros H. unfold split_max1, find. rewrite find_from_free_app by exact H.
  assert (L : (0 + Z.of_nat (String.length k) <? 0) = false) by (apply Z.ltb_ge; lia).
  rewrite L. replace (Z.to_nat (0 + Z.of_nat (String.length k))) with (String.length k) by lia.
  rewrite string_take_app_length. f_equal. f_equal.
  rewrite <- string_drop_drop, string_drop_app_length. reflexivity.
Qed.

Lemma length_app_string s t :
  String.length (s +:+ t) = (String.length s + String.length t)%nat.
Proof. induction s as [|c s IH]; [reflexivity|]. rewrite append_cons. cbn. now rewrite IH. Qed.

(** X19. The two spellings of a keyword option agree: after any
    arguments, [--k=v] and the pair [-k], [v] both bind [k] to [v] and
    leave the other results as they were. *)
Theorem parseOpts_keyword_forms
    (pre : list string) (keywordOpts : gmap string string)
    (passedOpts givenOpts : list string) (k v : string) :
  parseOpts pre = Some (keywordOpts, passedOpts, givenOpts) ->
  count_char "=" k = O -> startswith k "-" = false ->
  v <> "" -> startswith v "-" = false ->
  parseOpts (pre ++ ["--" +:+ k +:+ "=" +:+ v])
    = Some (<[k := v]> keywordOpts, passedOpts, givenOpts) /\
  parseOpts (pre ++ ["-" +:+ k; v])
    = Some (<[k := v]> keywordOpts, passedOpts, givenOpts).
Proof.
  intros Hpre Hk Hkd Hv Hvd. unfold parseOpts in *. split.
  - change ("--" +:+ k +:+ "=" +:+ v) with (String "-" (String "-" (k +:+ "=" +:+ v))).
    rewrite (parseOpts_loop_app (length pre)) by lia. rewrite Hpre.
    destruct (parseOpts_loop_cons "-" (String "-" (k +:+ "=" +:+ v)) [] keywordOpts
                passedOpts givenOpts) as (hk & -> & ->).
    cbn [String.length take drop]. rewrite length_app_string.
    change (String.length ("=" +:+ v)) with (S (String.length v)).
    replace (2 <? S (S (String.length k + S (String.length v))))%nat with true
      by (symmetry; apply Nat.ltb_lt; lia).
    cbn [andb String.eqb Ascii.eqb Bool.eqb].
    unfold find at 1. rewrite find_from_free_app by exact Hk.
    replace (0 <=? 0 + Z.of_nat (String.length k)) with true by (symmetry; apply Z.leb_le; lia).
    rewrite split_max1_keyword by exact Hk. reflexivity.
  - change ("-" +:+ k) with (String "-" k).
    rewrite (parseOpts_loop_app (length pre)) by lia. rewrite Hpre.
    destruct (parseOpts_loop_cons "-" k [v] keywordOpts passedOpts givenOpts)
      as (hk & -> & ->).
    assert (T : String.eqb (take 2 (String "-" k)) "--" = false).
    { destruct k as [|c k]; [reflexivity|]. unfold startswith in Hkd.
      rewrite prefix_cons, prefix_nil, andb_true_r in Hkd. cbn [take].
      destruct k; cbn; rewrite Ascii.eqb_sym, Hkd; reflexivity. }
    rewrite T, andb_false_r. cbn [Ascii.eqb Bool.eqb].
    unfold find. rewrite find_from_free by exact Hk. cbn [Z.leb Z.compare].
    destruct v as [|d v]; [congruence|]. cbn [head_char mbind option_bind].
    unfold startswith in Hvd. rewrite prefix_cons, prefix_nil, andb_true_r in Hvd.
    rewrite char_eqb_str, Ascii.eqb_sym, Hvd. reflexivity.
Qed.

Lemma parseOpts_keyword_forms_witness :
  parseOpts (["-v"; "input"] ++ ["--" +:+ "config" +:+ "=" +:+ "gip.conf"])
    = Some (<["config" := "gip.conf"]> (<["v" := "input"]> ∅), [], []) /\
  parseOpts (["-v"; "input"] ++ ["-" +:+ "config"; "gip.conf"])
    = Some (<["config" := "gip.conf"]> (<["v" := "input"]> ∅), [], []).
Proof.
  apply (parseOpts_keyword_forms ["-v"; "input"] (<["v" := "input"]> ∅) [] []
           "config" "gip.conf");
    [reflexivity|reflexivity|reflexivity|discriminate|reflexivity].
Defined.

Lemma parseOpts_loop_positional args keywordOpts passedOpts givenOpts :
  Forall (fun a => a <> "" /\ startswith a "-" = false) args ->
  parseOpts_loop args keywordOpts passedOpts givenOpts
    = Some (keywordOpts, passedOpts, (givenOpts ++ args)%list).
Proof.
  revert givenOpts; induction args as [|a args IH]; intros g F.
  - cbn. now rewrite app_nil_r.
  - apply Forall_cons in F as [[Hn Hd] F]. destruct a as [|c x]; [congruence|].
    destruct (parseOpts_loop_cons c x args keywordOpts passedOpts g) as (hk & -> & ->).
    unfold startswith in Hd. rewrite prefix_cons, prefix_nil, andb_true_r in Hd.
    assert (T : String.eqb (take 2 (String c x)) "--" = false).
    { destruct x as [|d x]; cbn [take]; cbn; rewrite Ascii.eqb_sym, Hd; reflexivity. }
    rewrite T, andb_false_r, Ascii.eqb_sym, Hd.
    rewrite IH by assumption. now rewrite <- app_assoc.
Qed.

(** X20. Arguments none of which is empty or starts with a dash are all
    returned as given options, in their order, and nothing else is
    returned. *)
Theorem parseOpts_positional (args : list string) :
  Forall (fun a => a <> "" /\ startswith a "-" = false) args ->
  parseOpts args = Some (∅, [], args).
Proof. intros F. unfold parseOpts. now rewrite parseOpts_loop_positional. Qed.

Lemma parseOpts_positional_witness :
  parseOpts ["site.ldif"; "out"] = Some (∅, [], ["site.ldif"; "out"]).
Proof.
  apply (parseOpts_positional ["site.ldif"; "out"]).
  repeat constructor; discriminate.
Defined.

(* ===================================================================== *)
(** * The user-to-VO map *)
(* ===================================================================== *)

Lemma string_prefix_app_l p q x : String.prefix (p +:+ q) x = true -> String.prefix p x = true.
Proof.
  revert x; induction p as [|a p IH]; intros x H; [apply prefix_nil|].
  destruct x as [|b x]; [discriminate|]. rewrite append_cons, prefix_cons in H.
  rewrite prefix_cons. apply andb_true_iff in H as [-> H]. cbn. now apply IH.
Qed.

Lemma rev_nonempty s : s <> "" -> String.rev s <> "".
Proof.
  intros H E. apply H. rewrite <- (rev_involutive s), E. reflexivity.
Qed.

(** The pieces of [s.split()] are not empty and have no white space. *)
Lemma split_ws_go_pieces s cur :
  no_space cur = true ->
  Forall (fun x => x <> "" /\ no_space x = true) (split_ws_go s cur).
Proof.
  unfold no_space. revert cur; induction s as [|c s IH]; intros cur H.
  - cbn [split_ws_go]. destruct cur as [|d cur]; [constructor|].
    constructor; [|constructor]. split; [now apply rev_nonempty|now rewrite all_chars_rev].
  - cbn [split_ws_go]. destruct (isspace c) eqn:Hc.
    + destruct cur as [|d cur]; [now apply IH|].
      constructor; [|now apply IH].
      split; [now apply rev_nonempty|now rewrite all_chars_rev].
    + apply IH. cbn [all_chars]. now rewrite Hc.
Qed.

(** The first piece starts with the run that is being read. *)
Lemma split_ws_go_first s cur :
  cur <> "" ->
  exists x rest, split_ws_go s cur = x :: rest /\ String.prefix (String.rev cur) x = true.
Proof.
  revert cur; induction s as [|c s IH]; intros cur H.
  - cbn [split_ws_go]. destruct cur as [|d cur]; [congruence|].
    eexists _, _. split; [reflexivity|apply prefix_refl].
  - cbn [split_ws_go]. destruct (isspace c).
    + destruct cur as [|d cur]; [congruence|].
      eexists _, _. split; [reflexivity|apply prefix_refl].
    + destruct (IH (String c cur)) as (x & rest & E & P); [discriminate|].
      exists x, rest. split; [exact E|]. rewrite rev_cons in P. now apply string_prefix_app_l in P.
Qed.

Lemma split_ws_go_run x s cur :
  no_space x = true -> split_ws_go (x +:+ s) cur = split_ws_go s (String.rev x +:+ cur).
Proof.
  unfold no_space. revert cur; induction x as [|c x IH]; intros cur H; [reflexivity|].
  cbn [all_chars] in H. apply andb_true_iff in H as [Hc H]. apply negb_true_iff in Hc.
  rewrite append_cons. cbn [split_ws_go]. rewrite Hc, IH by assumption.
  now rewrite rev_cons, append_assoc.
Qed.

Lemma split_ws_pair user vo :
  user <> "" -> vo <> "" -> no_space user = true -> no_space vo = true ->
  split_ws (user +:+ " " +:+ vo) = [user; vo].
Proof.
  intros Hu Hv Su Sv. unfold split_ws.
  rewrite split_ws_go_run, append_nil_r by assumption.
  rewrite (append_cons " " ""), append_nil_l. cbn [split_ws_go].
  change (isspace " ") with true. cbv iota.
  pose proof (rev_nonempty _ Hu) as Ru. destruct (String.rev user) as [|a ru] eqn:E; [congruence|].
  rewrite <- E, rev_involutive. f_equal.
  rewrite <- (append_nil_r vo) at 1. rewrite split_ws_go_run, append_nil_r by assumption.
  cbn [split_ws_go].
  pose proof (rev_nonempty _ Hv) as Rv. destruct (String.rev vo) as [|b rv] eqn:E'; [congruence|].
  now rewrite <- E', rev_involutive.
Qed.

Lemma lstrip_snoc w c :
  isspace c = false -> exists w', lstrip (w +:+ String c "") = w' +:+ String c "".
Proof.
  intros Hc. induction w as [|d w IH].
  - exists "". rewrite append_nil_l. cbn [lstrip]. now rewrite Hc.
  - rewrite append_cons. cbn [lstrip]. destruct (isspace d); [exact IH|].
    exists (String d w). now rewrite append_cons.
Qed.

(** A stripped line is empty or starts with a character that is not
    white space. *)
Lemma strip_head s :
  strip s = "" \/ exists c u, strip s = String c u /\ isspace c = false.
Proof.
  unfold strip, rstrip.
  assert (L : lstrip s = "" \/ exists c u, lstrip s = String c u /\ isspace c = false).
  { induction s as [|c s IH]; [now left|]. cbn [lstrip].
    destruct (isspace c) eqn:Hc; [exact IH|]. right. eauto. }
  destruct L as [->|(c & u & -> & Hc)]; [now left|]. right.
  rewrite rev_cons. destruct (lstrip_snoc (String.rev u) c Hc) as (w' & ->).
  rewrite rev_append. exists c, (String.rev w'). split; [reflexivity|assumption].
Qed.

Lemma strip_line s c d t :
  s = String c t -> isspace c = false ->
  last_char s = Some d -> isspace d = false ->
  strip (s +:+ String newline "") = s.
Proof.
  intros -> Hc Hl Hd. unfold strip, rstrip.
  rewrite append_cons, (lstrip_head _ _ Hc), <- append_cons.
  rewrite rev_append. change (String.rev (String newline "")) with (String newline "").
  rewrite append_cons, append_nil_l. cbn [lstrip]. change (isspace newline) with true. cbv iota.
  rewrite last_char_rev in Hl. destruct (String.rev (String c t)) as [|d' r] eqn:E; [discriminate|].
  injection Hl as ->. rewrite (lstrip_head _ _ Hd), <- E. apply rev_involutive.
Qed.

Lemma all_chars_drop P n s : all_chars P s = true -> all_chars P (drop n s) = true.
Proof.
  revert s; induction n as [|n IH]; intros s H; [exact H|].
  destruct s as [|c s]; [reflexivity|].
  cbn [all_chars] in H. apply andb_true_iff in H as [_ H]. now apply IH.
Qed.

Lemma recorded_vo_ok vo :
  vo <> "" -> no_space vo = true ->
  recorded_vo vo <> "" /\ no_space (recorded_vo vo) = true /\
  startswith (recorded_vo vo) "uscms" = false /\
  startswith (recorded_vo vo) "usatlas" = false.
Proof.
  intros Hn Hs. unfold recorded_vo, startswith.
  destruct (String.prefix "uscms" vo) eqn:P1.
  - apply prefix_split in P1. cbn [orb]. rewrite P1. cbn [String.length drop].
    rewrite !append_cons. cbn [drop]. rewrite !prefix_cons. cbn [Ascii.eqb Bool.eqb andb].
    split; [discriminate|]. split; [|split; reflexivity].
    unfold no_space in *. rewrite P1, !append_cons in Hs. cbn [all_chars] in Hs.
    cbn [all_chars]. apply andb_true_iff in Hs as [_ Hs]. apply andb_true_iff in Hs as [_ Hs].
    exact Hs.
  - cbn [orb]. destruct (String.prefix "usatlas" vo) eqn:P2.
    + apply prefix_split in P2. rewrite P2. cbn [String.length drop].
      rewrite !append_cons. cbn [drop]. rewrite !prefix_cons. cbn [Ascii.eqb Bool.eqb andb].
      split; [discriminate|]. split; [|split; reflexivity].
      unfold no_space in *. rewrite P2, !append_cons in Hs. cbn [all_chars] in Hs.
      cbn [all_chars]. apply andb_true_iff in Hs as [_ Hs]. apply andb_true_iff in Hs as [_ Hs].
      exact Hs.
    + auto.
Qed.

(** What a line can add to the map. *)
Lemma parse_line_userMap self line :
  VoMapper.userMap (VoMapper.parse_line self line) = VoMapper.userMap self \/
  exists user vo,
    VoMapper.userMap (VoMapper.parse_line self line)
      = <[user := recorded_vo vo]> (VoMapper.userMap self) /\
    user <> "" /\ no_space user = true /\ startswith user "#" = false /\
    vo <> "" /\ no_space vo = true.
Proof.
  unfold VoMapper.parse_line.
  destruct (startswith (strip line) "#voi"); [now left|].
  destruct (startswith (strip line) "#VOc"); [now left|].
  destruct (startswith (strip line) "#") eqn:Hh; [now left|].
  destruct (unpack2 (split_ws (strip line))) as [[user vo]|e] eqn:U; [|now left].
  right. exists user, vo. split; [reflexivity|].
  apply unpack2_inv in U.
  pose proof (split_ws_go_pieces (strip line) "" eq_refl) as F.
  fold (split_ws (strip line)) in F. rewrite U in F.
  apply Forall_cons in F as [[Hu Su] F]. apply Forall_cons in F as [[Hv Sv] _].
  repeat split; try assumption.
  destruct (strip_head line) as [E|(c & u & E & Hc)].
  - rewrite E in U. discriminate U.
  - rewrite E in U, Hh. unfold split_ws in U. cbn [split_ws_go] in U. rewrite Hc in U.
    destruct (split_ws_go_first u (String c "")) as (x & rest & E' & P); [discriminate|].
    rewrite E' in U. injection U as -> _.
    unfold startswith in *. rewrite prefix_cons, prefix_nil, andb_true_r in Hh.
    change (String.rev (String c "")) with (String c "") in P.
    destruct user as [|c' user]; [discriminate|].
    rewrite prefix_cons in P. apply andb_true_iff in P as [P _]. apply Ascii.eqb_eq in P.
    subst c'. now rewrite prefix_cons, prefix_nil, andb_true_r.
Qed.

(** The property that [parse] keeps of every entry of the map. *)
Lemma parse_lines_invariant (P : string -> string -> Prop) fp self :
  (forall user vo,
     user <> "" -> no_space user = true -> startswith user "#" = false ->
     vo <> "" -> no_space vo = true -> P user (recorded_vo vo)) ->
  (forall user vo, VoMapper.userMap self !! user = Some vo -> P user vo) ->
  forall user vo,
    VoMapper.userMap (foldl VoMapper.parse_line self fp) !! user = Some vo -> P user vo.
Proof.
  intros HP. revert self; induction fp as [|line fp IH]; intros self H; [exact H|].
  cbn [foldl]. apply IH. intros user vo.
  destruct (parse_line_userMap self line) as [->|(u & v & -> & Hu & Su & Hh & Hv & Sv)];
    [apply H|].
  destruct (decide (u = user)) as [->|Hn].
  - rewrite lookup_insert_eq. intros [= <-]. now apply HP.
  - rewrite lookup_insert_ne by assumption. apply H.
Qed.

(** X21. A [VoMapper] that was built has at least one user in its map,
    and in every entry the user name and the VO are not empty and have
    no white space, the user name does not start with [#], and the VO
    starts neither with [uscms] nor with [usatlas]. *)
Theorem VoMapper_userMap_invariant
    (E : Env) (O : OS) (cp : ConfigParser.t) (self : VoMapper.t) :
  VoMapper.__init__ E O cp = Ok self ->
  VoMapper.userMap self <> ∅ /\
  forall user vo : string,
    VoMapper.userMap self !! user = Some vo ->
    user <> "" /\ no_space user = true /\ startswith user "#" = false /\
    vo <> "" /\ no_space vo = true /\
    startswith vo "uscms" = false /\ startswith vo "usatlas" = false.
Proof.
  unfold VoMapper.__init__. intros H.
  destruct (cp_get E cp "vo" "user_vo_map" _) as [[| | |loc|]|e]; try discriminate H.
  cbn [mbind result_bind] in H. unfold VoMapper.parse in H. cbn [VoMapper.map_location] in H.
  destruct (open_lines O (expandvars O loc)) as [fp|]; [|discriminate H].
  cbn [mbind result_bind] in H.
  destruct (bool_decide (VoMapper.userMap _ = ∅)) eqn:B; [discriminate H|].
  injection H as <-. apply bool_decide_eq_false in B. split; [exact B|].
  apply (parse_lines_invariant
           (fun user vo => user <> "" /\ no_space user = true /\ startswith user "#" = false /\
                           vo <> "" /\ no_space vo = true /\
                           startswith vo "uscms" = false /\ startswith vo "usatlas" = false)).
  - intros user vo Hu Su Hh Hv Sv.
    destruct (recorded_vo_ok vo Hv Sv) as (? & ? & ? & ?). repeat split; assumption.
  - cbn [VoMapper.userMap]. intros user vo L. rewrite lookup_empty in L. discriminate L.
Qed.

Lemma VoMapper_userMap_invariant_witness :
  VoMapper.userMap sample_vo_map <> ∅ /\
  forall user vo : string,
    VoMapper.userMap sample_vo_map !! user = Some vo ->
    user <> "" /\ no_space user = true /\ startswith user "#" = false /\
    vo <> "" /\ no_space vo = true /\
    startswith vo "uscms" = false /\ startswith vo "usatlas" = false.
Proof.
  apply (VoMapper_userMap_invariant sample_env sample_os empty_cp sample_vo_map).
  vm_compute. reflexivity.
Defined.

(** X22. A line with a user name and a VO name binds the user to the VO
    that is recorded for it, whatever the lines before it say; looking
    the user up afterwards gives that VO. *)
Theorem VoMapper_parse_binds
    (O : OS) (self : VoMapper.t) (fp : list string) (user vo : string) :
  user <> "" -> no_space user = true -> startswith user "#" = false ->
  vo <> "" -> no_space vo = true ->
  open_lines O (expandvars O (VoMapper.map_location self))
    = Some (fp ++ [user +:+ " " +:+ vo +:+ String newline ""])%list ->
  exists self',
    VoMapper.parse O self = Ok self' /\
    VoMapper.__getitem__ self' user = Ok (recorded_vo vo).
Proof.
  intros Hu Su Hh Hv Sv Hf. unfold VoMapper.parse. rewrite Hf.
  eexists. split; [reflexivity|]. rewrite foldl_app. cbn [foldl].
  set (before := foldl VoMapper.parse_line self fp).
  unfold VoMapper.__getitem__, VoMapper.parse_line.
  assert (S : strip (user +:+ " " +:+ vo +:+ String newline "") = user +:+ " " +:+ vo).
  { destruct user as [|c u]; [congruence|].
    destruct (last_char_nonempty vo Hv) as (t & d & Ev).
    replace (String c u +:+ " " +:+ vo +:+ String newline "")
      with ((String c u +:+ " " +:+ vo) +:+ String newline "")
      by (rewrite !append_assoc; reflexivity).
    apply (strip_line _ c d (u +:+ " " +:+ vo)).
    - now rewrite append_cons.
    - unfold no_space in Su. cbn [all_chars] in Su. apply andb_true_iff in Su as [Su _].
      now apply negb_true_iff.
    - rewrite Ev, <- !append_assoc. apply last_char_snoc.
    - unfold no_space in Sv. rewrite Ev, all_chars_app in Sv. cbn [all_chars] in Sv.
      apply andb_true_iff in Sv as [_ Sv]. apply andb_true_iff in Sv as [Sv _].
      now apply negb_true_iff. }
  rewrite S.
  assert (N : forall p, String.prefix (String "#" p) (user +:+ " " +:+ vo) = false).
  { intros p. destruct user as [|c u]; [congruence|]. unfold startswith in Hh.
    rewrite prefix_cons, prefix_nil, andb_true_r in Hh.
    rewrite append_cons, prefix_cons, Hh. reflexivity. }
  unfold startswith. rewrite !N. rewrite split_ws_pair by assumption.
  cbn [unpack2 VoMapper.userMap]. fold (startswith vo "uscms"). fold (startswith vo "usatlas").
  fold (recorded_vo vo). now rewrite lookup_insert_eq.
Qed.

Lemma VoMapper_parse_binds_witness :
  exists self',
    VoMapper.parse sample_os (VoMapper.mk empty_cp "/var/lib/osg/user-vo-map" [] [] ∅)
      = Ok self' /\
    VoMapper.__getitem__ self' "osguser" = Ok (recorded_vo "osg").
Proof.
  apply (VoMapper_parse_binds sample_os
           (VoMapper.mk empty_cp "/var/lib/osg/user-vo-map" [] [] ∅)
           [ String.app "#voi cms atlas" (String newline "");
             String.app "# comment" (String newline "");
             String.app "cmsuser uscms" (String newline "");
             String.app "broken" (String newline "");
             String.app " atlasuser   usatlas01 " (String newline "") ]
           "osguser" "osg");
    try reflexivity; discriminate.
Defined.

(* ===================================================================== *)
(** * The list of VOs *)
(* ===================================================================== *)

Lemma foldl_add_spec (l init : list string) :
  NoDup init ->
  NoDup (foldl append_new init l) /\
  forall x, x ∈ foldl append_new init l <-> x ∈ init \/ x ∈ l.
Proof.
  revert init; induction l as [|e l IH]; intros init N.
  - cbn [foldl]. split; [exact N|]. intros x. rewrite elem_of_nil. tauto.
  - cbn [foldl]. unfold append_new at 2 4. case_bool_decide as He.
    + destruct (IH init N) as [N' M]. split; [exact N'|].
      intros x. rewrite M, elem_of_cons. split; [tauto|].
      intros [H|[->|H]]; auto.
    + assert (N2 : NoDup (init ++ [e])).
      { apply NoDup_app. split; [exact N|]. split; [|apply NoDup_singleton].
        intros x Hx Hx'. apply list_elem_of_singleton in Hx'. subst. contradiction. }
      destruct (IH _ N2) as [N' M]. split; [exact N'|].
      intros x. rewrite M, elem_of_app, list_elem_of_singleton, elem_of_cons. tauto.
Qed.

Lemma list_remove_spec x l :
  NoDup l ->
  NoDup (list_remove x l) /\ forall y, y ∈ list_remove x l <-> y ∈ l /\ y <> x.
Proof.
  induction l as [|e l IH]; intros N.
  - cbn. split; [constructor|]. intros y. rewrite elem_of_nil. tauto.
  - apply NoDup_cons in N as [Ne N]. cbn [list_remove]. case_bool_decide as He.
    + subst e. split; [exact N|]. intros y. rewrite elem_of_cons. split.
      * intros H. split; [now right|]. intros ->. contradiction.
      * intros [[->|H] Hn]; [congruence|assumption].
    + destruct (IH N) as [N' M]. split.
      * constructor; [|exact N']. rewrite M. tauto.
      * intros y. rewrite !elem_of_cons, M. split.
        -- intros [->|[H Hn]]; [split; [now left|congruence]|split; [now right|assumption]].
        -- intros [[->|H] Hn]; [now left|right; split; assumption].
Qed.

Lemma foldl_remove_spec (l init : list string) :
  NoDup init ->
  NoDup (foldl remove_present init l) /\
  forall x, x ∈ foldl remove_present init l <-> x ∈ init /\ x ∉ l.
Proof.
  revert init; induction l as [|e l IH]; intros init N.
  - cbn [foldl]. split; [exact N|]. intros x. rewrite elem_of_nil. tauto.
  - cbn [foldl]. unfold remove_present at 2 4. case_bool_decide as He.
    + destruct (list_remove_spec e init N) as [N1 M1].
      destruct (IH _ N1) as [N' M]. split; [exact N'|].
      intros x. rewrite M, M1, not_elem_of_cons. tauto.
    + destruct (IH init N) as [N' M]. split; [exact N'|].
      intros x. rewrite M, not_elem_of_cons. split; [|tauto].
      intros [H1 H2]. repeat split; try assumption. intros ->. contradiction.
Qed.

Lemma voList_given E O cp vo_map :
  exists vos : list string,
    voList E O cp (Some vo_map) = Ok vos /\
    NoDup vos /\
    forall vo : string,
      vo ∈ vos <->
      (vo ∈ dict_values O (VoMapper.userMap vo_map) \/
       vo ∈ vo_list_option E cp "vo_whitelist") /\
      vo ∉ vo_list_option E cp "vo_blacklist".
Proof.
  unfold voList. cbn [mbind result_bind]. eexists. split; [reflexivity|].
  destruct (foldl_add_spec (dict_values O (VoMapper.userMap vo_map)) [] (NoDup_nil_2))
    as [N1 M1].
  destruct (foldl_add_spec (vo_list_option E cp "vo_whitelist") _ N1) as [N2 M2].
  destruct (foldl_remove_spec (vo_list_option E cp "vo_blacklist") _ N2) as [N3 M3].
  split; [exact N3|]. intros vo. rewrite M3, M2, M1, elem_of_nil. tauto.
Qed.

(** The values of a dictionary, in the order of [map_to_list]. *)
Lemma map_to_list_values (d : gmap string string) (x : string) :
  x ∈ (map_to_list d).*2 <-> exists k, d !! k = Some x.
Proof.
  rewrite list_elem_of_fmap. split.
  - intros ([k y] & -> & H). exists k. now apply elem_of_map_to_list in H.
  - intros [k H]. exists (k, x). split; [reflexivity|]. now apply elem_of_map_to_list.
Qed.

(** X23. Given a user-to-VO map whose values the dictionary yields,
    [voList] returns without raising a list without duplicates that
    holds exactly the VOs of the map and of the white list that are not
    on the black list.  A white list that is stored and empty adds the
    empty name to the VOs, unless the black list removes it. *)
Theorem voList_members (E : Env) (O : OS) (cp : ConfigParser.t) (vo_map : VoMapper.t) :
  (forall vo : string,
     vo ∈ dict_values O (VoMapper.userMap vo_map) <->
     exists user, VoMapper.userMap vo_map !! user = Some vo) ->
  exists vos : list string,
    voList E O cp (Some vo_map) = Ok vos /\
    NoDup vos /\
    (forall vo : string,
       vo ∈ vos <->
       ((exists user, VoMapper.userMap vo_map !! user = Some vo) \/
        vo ∈ vo_list_option E cp "vo_whitelist") /\
       vo ∉ vo_list_option E cp "vo_blacklist") /\
    (get E cp "vo" "vo_whitelist" = Ok "" ->
     "" ∉ vo_list_option E cp "vo_blacklist" ->
     "" ∈ vos).
Proof.
  intros HV. destruct (voList_given E O cp vo_map) as (vos & H & N & M).
  exists vos. split; [exact H|]. split; [exact N|]. split.
  - intros vo. rewrite M, HV. reflexivity.
  - intros Hw Hb. apply M. split; [|exact Hb].
    right. unfold vo_list_option. rewrite Hw. cbn. left.
Qed.

Lemma voList_members_witness :
  exists vos : list string,
    voList sample_env sample_os empty_whitelist_cp (Some sample_vo_map) = Ok vos /\
    NoDup vos /\ "cms" ∈ vos /\ "" ∈ vos.
Proof.
  destruct (voList_members sample_env sample_os empty_whitelist_cp sample_vo_map)
    as (vos & H & N & M & W).
  - intros vo. apply map_to_list_values.
  - exists vos. split; [exact H|]. split; [exact N|]. split.
    + apply M. split; [|vm_compute; intros K; inversion K].
      left. exists "cmsuser". reflexivity.
    + apply W; [reflexivity|]. vm_compute. intros K. inversion K.
Defined.

(* ===================================================================== *)
(** * The location of the installation *)
(* ===================================================================== *)

(** X24. When [check_gip_location] returns, it has changed no variable
    but [GIP_LOCATION], and [gipDir] afterwards chooses the directory
    of a tar install exactly when [GIP_LOCATION] or [VDT_LOCATION] was
    set before. *)
Theorem check_gip_location_gipDir
    (O : OS) (environ' : gmap string string) (tarDir RPMDir : string) :
  check_gip_location O = Ok environ' ->
  gipDir (with_environ O environ') tarDir RPMDir = (if located O then tarDir else RPMDir) /\
  forall k : string, k <> "GIP_LOCATION" -> environ' !! k = environ O !! k.
Proof.
  unfold check_gip_location, gipDir, pickDir, located. cbn [environ with_environ].
  destruct (bool_decide (is_Some (environ O !! "GIP_LOCATION"))) eqn:G;
    destruct (bool_decide (is_Some (environ O !! "VDT_LOCATION"))) eqn:V;
    cbn [negb andb orb].
  - destruct (path_exists O _) as [[]|]; cbn; try discriminate.
    intros [= <-]. rewrite G. auto.
  - destruct (path_exists O _) as [[]|]; cbn; try discriminate.
    intros [= <-]. rewrite G. auto.
  - destruct (path_exists O _) as [[]|]; cbn [mbind result_bind]; try discriminate.
    intros H. apply environ_set_inv in H as [_ ->]. split.
    + rewrite bool_decide_eq_true_2; [reflexivity|]. rewrite lookup_insert_eq. eauto.
    + intros k Hk. now rewrite lookup_insert_ne by congruence.
  - intros [= <-]. rewrite G. auto.
Qed.

Lemma check_gip_location_gipDir_witness :
  gipDir (with_environ vdt_os (<["GIP_LOCATION" := "/opt/vdt/gip"]> (environ vdt_os)))
         "/opt/vdt/gip/etc/gip.conf" "/etc/gip/gip.conf"
    = (if located vdt_os then "/opt/vdt/gip/etc/gip.conf" else "/etc/gip/gip.conf") /\
  forall k : string, k <> "GIP_LOCATION" ->
    <["GIP_LOCATION" := "/opt/vdt/gip"]> (environ vdt_os) !! k = environ vdt_os !! k.
Proof.
  apply (check_gip_location_gipDir vdt_os). vm_compute. reflexivity.
Defined.

(* ===================================================================== *)
(** * The sections of the storage elements *)
(* ===================================================================== *)

Lemma getSESections_scan_sound E cp sects m0 m :
  getSESections_scan E cp sects m0 = Ok m ->
  forall x sect, m !! x = Some sect ->
    m0 !! x = Some sect \/
    (sect ∈ sects /\ skipped_section sect = false /\ advertised E cp sect /\
     get E cp sect "unique_name" = Ok x).
Proof.
  revert m0; induction sects as [|s sects IH]; intros m0 H x sect L.
  - cbn in H. injection H as <-. now left.
  - cbn [getSESections_scan] in H.
    assert (W : forall m1, getSESections_scan E cp sects m1 = Ok m ->
                (m1 !! x = Some sect -> m0 !! x = Some sect \/
                   (sect ∈ s :: sects /\ skipped_section sect = false /\
                    advertised E cp sect /\ get E cp sect "unique_name" = Ok x)) ->
                m0 !! x = Some sect \/
                (sect ∈ s :: sects /\ skipped_section sect = false /\
                 advertised E cp sect /\ get E cp sect "unique_name" = Ok x)).
    { intros m1 H1 K. destruct (IH m1 H1 x sect L) as [L1|(I & R)]; [now apply K|].
      right. split; [now right|exact R]. }
    destruct (skipped_section s) eqn:Sk; [apply (W m0 H); tauto|].
    destruct (cp_getBoolean E cp s "advertise_se" (PyBool true)) as [a|e] eqn:A;
      [|discriminate H].
    cbn [mbind result_bind] in H.
    destruct (truthy a) eqn:Ta; cbn [negb] in H; [|apply (W m0 H); tauto].
    destruct (get E cp s "unique_name") as [v|e] eqn:G; [|apply (W m0 H); tauto].
    apply (W _ H). destruct (decide (v = x)) as [->|Hn].
    + rewrite lookup_insert_eq. intros [= <-]. right.
      split; [left|]. split; [exact Sk|]. split; [exists a; auto|exact G].
    + rewrite lookup_insert_ne by assumption. tauto.
Qed.

Lemma getSESections_scan_mono E cp sects m0 m x :
  getSESections_scan E cp sects m0 = Ok m -> is_Some (m0 !! x) -> is_Some (m !! x).
Proof.
  revert m0; induction sects as [|s sects IH]; intros m0 H I.
  - cbn in H. now injection H as <-.
  - cbn [getSESections_scan] in H.
    destruct (skipped_section s); [now apply (IH m0)|].
    destruct (cp_getBoolean E cp s "advertise_se" (PyBool true)) as [a|e]; [|discriminate H].
    cbn [mbind result_bind] in H.
    destruct (negb (truthy a)); [now apply (IH m0)|].
    destruct (get E cp s "unique_name") as [v|e]; [|now apply (IH m0)].
    apply (IH _ H). destruct (decide (v = x)) as [->|Hn].
    + rewrite lookup_insert_eq. eauto.
    + now rewrite lookup_insert_ne.
Qed.

Lemma advertised_truthy E cp sect a :
  cp_getBoolean E cp sect "advertise_se" (PyBool true) = Ok a ->
  advertised E cp sect -> truthy a = true.
Proof. intros H (a' & H' & T). rewrite H in H'. now injection H' as <-. Qed.

Lemma getSESections_scan_complete E cp sects m0 m :
  getSESections_scan E cp sects m0 = Ok m ->
  forall sect x, sect ∈ sects -> skipped_section sect = false -> advertised E cp sect ->
    get E cp sect "unique_name" = Ok x -> is_Some (m !! x).
Proof.
  revert m0; induction sects as [|s sects IH]; intros m0 H sect x I Sk Ad G.
  - inversion I.
  - cbn [getSESections_scan] in H. apply elem_of_cons in I as [->|I].
    + rewrite Sk in H.
      destruct (cp_getBoolean E cp s "advertise_se" (PyBool true)) as [a|e] eqn:A;
        [|discriminate H].
      cbn [mbind result_bind] in H. rewrite (advertised_truthy _ _ _ _ A Ad), G in H.
      cbn [negb] in H. apply (getSESections_scan_mono _ _ _ _ _ _ H).
      rewrite lookup_insert_eq. eauto.
    + destruct (skipped_section s); [now apply (IH m0 H sect)|].
      destruct (cp_getBoolean E cp s "advertise_se" (PyBool true)) as [a|e];
        [|discriminate H].
      cbn [mbind result_bind] in H.
      destruct (negb (truthy a)); [now apply (IH m0 H sect)|].
      destruct (get E cp s "unique_name") as [v|e]; now apply (IH _ H sect).
Qed.

(** X25. The map of [getSESections] sends a name only to a section of
    the configuration that passes the filter on section names, is
    advertised and has that name as its [unique_name]; and the
    [unique_name] of every such section is a key of the map. *)
Theorem getSESections_correct (E : Env) (cp : ConfigParser.t) (se_map : gmap string string) :
  getSESections E cp = Ok se_map ->
  (forall x sect : string,
     se_map !! x = Some sect ->
     sect ∈ sections cp /\ skipped_section sect = false /\ advertised E cp sect /\
     get E cp sect "unique_name" = Ok x) /\
  (forall sect x : string,
     sect ∈ sections cp -> skipped_section sect = false -> advertised E cp sect ->
     get E cp sect "unique_name" = Ok x ->
     is_Some (se_map !! x)).
Proof.
  unfold getSESections. intros H. split.
  - intros x sect L.
    destruct (getSESections_scan_sound _ _ _ _ _ H x sect L) as [L0|R]; [|exact R].
    rewrite lookup_empty in L0. discriminate L0.
  - now apply (getSESections_scan_complete _ _ _ _ _ H).
Qed.

Lemma getSESections_correct_witness :
  (forall x sect : string,
     (<["sea" := "se_b"]> ∅ : gmap string string) !! x = Some sect ->
     sect ∈ sections se_sections_cp /\ skipped_section sect = false /\
     advertised sample_env se_sections_cp sect /\
     get sample_env se_sections_cp sect "unique_name" = Ok x) /\
  (forall sect x : string,
     sect ∈ sections se_sections_cp -> skipped_section sect = false ->
     advertised sample_env se_sections_cp sect ->
     get sample_env se_sections_cp sect "unique_name" = Ok x ->
     is_Some ((<["sea" := "se_b"]> ∅ : gmap string string) !! x)).
Proof.
  apply (getSESections_correct sample_env se_sections_cp (<["sea" := "se_b"]> ∅)).
  vm_compute. reflexivity.
Defined.

(** The two scans go through the sections in step. *)
Lemma scans_in_step E cp sects acc m0 :
  match getSEList_scan E cp sects acc, getSESections_scan E cp sects m0 with
  | Ok l, Ok m =>
      exists news, l = (acc ++ news)%list /\
        forall x, is_Some (m !! x) <-> is_Some (m0 !! x) \/ x ∈ news
  | Raise e1, Raise e2 => e1 = e2
  | _, _ => False
  end.
Proof.
  revert acc m0; induction sects as [|s sects IH]; intros acc m0.
  - cbn. exists []. split; [now rewrite app_nil_r|]. intros x. rewrite elem_of_nil. tauto.
  - cbn [getSEList_scan getSESections_scan].
    destruct (skipped_section s); [apply IH|].
    destruct (cp_getBoolean E cp s "advertise_se" (PyBool true)) as [a|e]; [|reflexivity].
    cbn [mbind result_bind]. destruct (negb (truthy a)); [apply IH|].
    destruct (get E cp s "unique_name") as [v|e]; [|apply IH].
    specialize (IH (acc ++ [v])%list (<[v := s]> m0)).
    destruct (getSEList_scan E cp sects (acc ++ [v])) as [l|e1];
      destruct (getSESections_scan E cp sects (<[v := s]> m0)) as [m|e2]; try exact IH.
    destruct IH as (news & -> & M). exists (v :: news). split; [now rewrite <- app_assoc|].
    intros x. rewrite M, elem_of_cons. destruct (decide (v = x)) as [->|Hn].
    + rewrite lookup_insert_eq. split; [auto|]. intros _. left. eauto.
    + rewrite lookup_insert_ne by assumption. split; [tauto|].
      intros [H|[H|H]]; [tauto|congruence|tauto].
Qed.

(** X26. In simple mode, and when the set of [gip_sets] keeps the
    elements it is given, the SEs of [getSEList] are those that
    [getSESections] maps to a section, the [unique_name] of the
    section [se] when that section is advertised, and the classic SE
    when it is asked for. *)
Theorem getSEList_simple_sections
    (depth : nat) (E : Env) (cp : ConfigParser.t) (classicSEs : bool)
    (se_list : list string) :
  getboolean E cp cesebind "simple" = Ok true ->
  (forall l x, x ∈ list_of_Set E l <-> x ∈ l) ->
  getSEList (S depth) E cp classicSEs = Ok se_list ->
  exists (se_map : gmap string string) (classic : list string),
    getSESections E cp = Ok se_map /\
    (if classicSEs then getClassicSEList E cp = Ok classic else classic = []) /\
    forall x : string,
      x ∈ se_list <->
      is_Some (se_map !! x) \/
      (advertised E cp se /\ get E cp se "unique_name" = Ok x) \/
      x ∈ classic.
Proof.
  intros Hs HS H. cbn [getSEList] in H. rewrite Hs in H. cbn [mbind result_bind] in H.
  set (first := match _ with Ok l => l | Raise _ => [] end) in H.
  assert (F : forall x, x ∈ first <->
                advertised E cp se /\ get E cp se "unique_name" = Ok x).
  { intros x. unfold first, advertised.
    destruct (cp_getBoolean E cp se "advertise_se" (PyBool true)) as [a|e];
      cbn [mbind result_bind].
    - destruct (truthy a) eqn:Ta.
      + destruct (get E cp se "unique_name") as [v|e]; cbn [mbind result_bind].
        * rewrite list_elem_of_singleton. split.
          -- intros ->. split; [eauto|reflexivity].
          -- intros [_ [= ->]]. reflexivity.
        * rewrite elem_of_nil. split; [tauto|]. intros [_ K]. discriminate K.
      + rewrite elem_of_nil. split; [tauto|].
        intros [(a' & [= <-] & T) _]. congruence.
    - rewrite elem_of_nil. split; [tauto|]. intros [(a' & K & _) _]. discriminate K. }
  pose proof (scans_in_step E cp (sections cp) first ∅) as St.
  destruct (getSEList_scan E cp (sections cp) first) as [l|e]; [|discriminate H].
  cbn [mbind result_bind] in H. fold (getSESections E cp) in St.
  destruct (getSESections E cp) as [m|e]; [|contradiction].
  destruct St as (news & -> & M).
  exists m. destruct classicSEs.
  - destruct (getClassicSEList E cp) as [classic|e]; [|discriminate H].
    cbn [mbind result_bind] in H. injection H as <-.
    exists classic. split; [reflexivity|]. split; [reflexivity|].
    intros x. rewrite HS, !elem_of_app, F, M, lookup_empty.
    split; [|intros [[K|K]|[K|K]]; auto; destruct K as [? K]; discriminate K].
    tauto.
  - cbn [mbind result_bind] in H. injection H as <-.
    exists []. split; [reflexivity|]. split; [reflexivity|].
    intros x. rewrite HS, !elem_of_app, F, M, lookup_empty, elem_of_nil.
    split; [tauto|]. intros [[K|K]|[K|K]]; auto; try tauto.
    destruct K as [? K]; discriminate K.
Qed.

Lemma getSEList_simple_sections_witness :
  exists (se_map : gmap string string) (classic : list string),
    getSESections sample_env se_sections_cp = Ok se_map /\
    getClassicSEList sample_env se_sections_cp = Ok classic /\
    forall x : string,
      x ∈ ["main"; "sea"; "mysite_classicSE"] <->
      is_Some (se_map !! x) \/
      (advertised sample_env se_sections_cp se /\
       get sample_env se_sections_cp se "unique_name" = Ok x) \/
      x ∈ classic.
Proof.
  apply (getSEList_simple_sections 0 sample_env se_sections_cp true
           ["main"; "sea"; "mysite_classicSE"]).
  - reflexivity.
  - intros l x. apply elem_of_remove_dups.
  - vm_compute. reflexivity.
Defined.

(* ===================================================================== *)
(** * Writing to the configuration *)
(* ===================================================================== *)

Lemma assoc_app_l {V} k (l1 l2 : list (string * V)) v :
  assoc k l1 = Some v -> assoc k (l1 ++ l2) = Some v.
Proof.
  induction l1 as [|[k' w] l1 IH]; [discriminate|]. cbn [assoc app].
  destruct (String.eqb k k'); [auto|exact IH].
Qed.

Lemma assoc_app_r {V} k (l1 l2 : list (string * V)) :
  assoc k l1 = None -> assoc k (l1 ++ l2) = assoc k l2.
Proof.
  induction l1 as [|[k' w] l1 IH]; [reflexivity|]. cbn [assoc app].
  destruct (String.eqb k k'); [discriminate|exact IH].
Qed.

Lemma assoc_app_other {V} k k' (l : list (string * V)) v :
  k <> k' -> assoc k (l ++ [(k', v)]) = assoc k l.
Proof.
  intros Hn. induction l as [|[k2 w] l IH]; cbn [assoc app].
  - apply String.eqb_neq in Hn. now rewrite Hn.
  - destruct (String.eqb k k2); [reflexivity|exact IH].
Qed.

Lemma assoc_set_same {V} k (v : V) l w :
  assoc k l = Some w -> assoc k (assoc_set k v l) = Some v.
Proof.
  induction l as [|[k' u] l IH]; [discriminate|]. cbn [assoc assoc_set].
  destruct (String.eqb k k') eqn:E; cbn [assoc]; rewrite E; [reflexivity|exact IH].
Qed.

Lemma assoc_set_other {V} k k' (v : V) l :
  k <> k' -> assoc k (assoc_set k' v l) = assoc k l.
Proof.
  intros Hn. induction l as [|[k2 u] l IH]; [reflexivity|]. cbn [assoc assoc_set].
  destruct (String.eqb k' k2) eqn:E; cbn [assoc].
  - apply String.eqb_eq in E. subst k2. apply String.eqb_neq in Hn. now rewrite Hn.
  - destruct (String.eqb k k2); [reflexivity|exact IH].
Qed.

Lemma assoc_set_keys {V} k (v : V) l : (assoc_set k v l).*1 = l.*1.
Proof.
  induction l as [|[k' u] l IH]; [reflexivity|]. cbn [assoc_set].
  destruct (String.eqb k k'); cbn [fmap list_fmap fst]; [reflexivity|]. f_equal. exact IH.
Qed.

(** The configuration in which [__write_config] sets the option: the
    given one, with the section added when it was missing. *)
Lemma write_config_section cp section :
  section <> "" -> lower section <> "default" ->
  exists cp1 d,
    (if negb (has_section cp section) then add_section cp section else Ok cp) = Ok cp1 /\
    assoc section (_sections cp1) = Some d /\
    _defaults cp1 = _defaults cp /\
    (forall s, s <> section -> assoc s (_sections cp1) = assoc s (_sections cp)) /\
    sections cp1 = (sections cp ++ (if has_section cp section then [] else [section]))%list.
Proof.
  intros Hs Hd. unfold has_section, add_section, has_section.
  destruct (assoc section (_sections cp)) as [d|] eqn:A.
  - rewrite bool_decide_eq_true_2 by eauto. cbn [negb].
    exists cp, d. repeat split; try assumption. now rewrite app_nil_r.
  - rewrite bool_decide_eq_false_2 by (intros [? K]; discriminate K). cbn [negb].
    apply String.eqb_neq in Hd. rewrite Hd.
    eexists _, ∅. split; [reflexivity|]. cbn [_sections _defaults]. repeat split.
    + rewrite assoc_app_r by assumption. cbn [assoc]. now rewrite String.eqb_refl.
    + intros s Hn. now apply assoc_app_other.
    + unfold sections. cbn [_sections]. now rewrite fmap_app.
Qed.

Lemma section_is_named section :
  section <> "" -> lower section <> "default" ->
  negb (truthy (PyStr section)) || String.eqb section DEFAULTSECT = false.
Proof.
  intros Hs Hd. rewrite (truthy_nonempty _ Hs). cbn [negb orb].
  apply String.eqb_neq. intros ->. apply Hd. reflexivity.
Qed.

(** X27. Without [override], [__write_config] stores the value of the
    key under the section and the option, adding the section when it is
    missing: the value is read back by [cp.get], and by [cp_get] unless
    the option name is empty, in which case [cp_get] returns the default
    without reading; every other section reads as before. *)
Theorem write_config_round_trip
    (E : Env) (cp : ConfigParser.t) (dict_object : gmap string string)
    (key section option new_val : string) :
  dict_object !! key = Some new_val ->
  section <> "" -> lower section <> "default" ->
  contains new_val "%(" = false ->
  exists cp',
    __write_config cp false dict_object key section option = Ok cp' /\
    get E cp' section option = Ok new_val /\
    (forall default : pyval,
       cp_get E cp' section option default
         = Ok (if String.eqb option "" then default else PyStr new_val)) /\
    (forall s o : string, s <> section -> get E cp' s o = get E cp s o) /\
    sections cp' = (sections cp ++ (if has_section cp section then [] else [section]))%list.
Proof.
  intros Hk Hs Hd Hv. unfold __write_config. rewrite Hk.
  destruct (write_config_section cp section Hs Hd) as (cp1 & d & -> & A & D & Fr & Sec).
  cbn [mbind result_bind andb negb]. unfold set.
  rewrite (section_is_named _ Hs Hd), A.
  eexists. split; [reflexivity|].
  match goal with |- get E ?c _ _ = _ /\ _ =>
    assert (G : get E c section option = Ok new_val) end.
  { unfold get. cbn [_sections _defaults].
    rewrite (assoc_set_same _ _ _ _ A). cbn [mbind result_bind].
    rewrite lookup_union, lookup_insert_eq.
    assert (U : Some new_val ∪ _defaults cp1 !! optionxform option = Some new_val)
      by (destruct (_defaults cp1 !! optionxform option); reflexivity).
    rewrite U. unfold _interpolate. now rewrite Hv, andb_false_r. }
  split; [exact G|]. split; [|split].
  - intros default. destruct (String.eqb_spec option "") as [Ho|Ho].
    + apply cp_get_unnamed. now right.
    + now apply cp_get_stored_value.
  - intros s o Hn. unfold get. cbn [_sections _defaults].
    rewrite (assoc_set_other _ _ _ _ Hn), (Fr s Hn), D. reflexivity.
  - rewrite <- Sec. unfold sections. cbn [_sections]. apply assoc_set_keys.
Qed.

Lemma write_config_round_trip_witness :
  exists cp',
    __write_config sample_cp false (<["OSG_SITE_NAME" := "mysite"]> ∅)
      "OSG_SITE_NAME" "site" "name" = Ok cp' /\
    get sample_env cp' "site" "name" = Ok "mysite" /\
    (forall default : pyval,
       cp_get sample_env cp' "site" "name" default
         = Ok (if String.eqb "name" "" then default else PyStr "mysite")) /\
    (forall s o : string, s <> "site" -> get sample_env cp' s o = get sample_env sample_cp s o) /\
    sections cp' = (sections sample_cp ++ (if has_section sample_cp "site" then [] else ["site"]))%list.
Proof.
  apply (write_config_round_trip sample_env sample_cp (<["OSG_SITE_NAME" := "mysite"]> ∅)
           "OSG_SITE_NAME" "site" "name" "mysite");
    try reflexivity; discriminate.
Defined.

(* ===================================================================== *)
(** * The exceptions of the accessors *)
(* ===================================================================== *)

Lemma interpolate_raises E section option rawval vars e :
  _interpolate E section option rawval vars = Raise e ->
  contains rawval "%(" = true /\ interpolate E section option rawval vars = Raise e.
Proof.
  unfold _interpolate. destruct (truthy (PyStr rawval)); cbn [andb]; [|discriminate].
  destruct (contains rawval "%("); [auto|discriminate].
Qed.

Lemma get_raises E cp section option e :
  get E cp section option = Raise e ->
  e = NoSectionError \/ e = NoOptionError \/ interpolation_raises E cp section option e.
Proof.
  unfold get, interpolation_raises. destruct (assoc section (_sections cp)) as [d|].
  - cbn [mbind result_bind].
    destruct ((d ∪ _defaults cp) !! optionxform option) as [rawval|] eqn:L.
    + intros [Hc Hi]%interpolate_raises. right; right. exists d, rawval. auto.
    + intros [= <-]. auto.
  - destruct (String.eqb_spec section DEFAULTSECT) as [Hd|Hd]; cbn [mbind result_bind].
    + destruct ((∅ ∪ _defaults cp) !! optionxform option) as [rawval|] eqn:L.
      * intros [Hc Hi]%interpolate_raises. right; right. exists ∅, rawval. auto 6.
      * intros [= <-]. auto.
    + intros [= <-]. auto.
Qed.

Lemma cp_get_raises E cp section option default e :
  cp_get E cp section option default = Raise e ->
  get E cp section option = Raise e /\
  e <> NoSectionError /\ e <> NoOptionError /\
  interpolation_raises E cp section option e.
Proof.
  unfold cp_get. destruct (negb (truthy (PyStr section)) || negb (truthy (PyStr option)));
    [discriminate|].
  destruct (get E cp section option) as [v|e'] eqn:G; [discriminate|].
  destruct (get_raises _ _ _ _ _ G) as [-> | [-> | I]]; try discriminate.
  destruct e'; try discriminate; intros [= <-]; repeat split; try discriminate; exact I.
Qed.

(** X28. The accessors never let [NoSectionError] or [NoOptionError]
    out.  [cp_get] raises exactly when the section and option names are
    not empty and [cp.get] raises something else, and it raises the
    same exception, which comes from the interpolation of the stored
    value: [InterpolationError], or what the [%] operator raises
    ([ValueError], [TypeError]).  [cp_getBoolean] raises exactly when
    [cp_get] does, and the same exception.  [cp_getList] then falls
    back on [list(default)], which gives the characters of a string
    default, the default itself when it is a list, and raises
    [TypeError] for any other default. *)
Theorem accessors_raise_only :
  (forall E cp section option default e,
     cp_get E cp section option default = Raise e <->
     section <> "" /\ option <> "" /\
     get E cp section option = Raise e /\
     e <> NoSectionError /\ e <> NoOptionError) /\
  (forall E cp section option default e,
     cp_get E cp section option default = Raise e ->
     interpolation_raises E cp section option e) /\
  (forall E cp section option default e,
     cp_getBoolean E cp section option default = Raise e <->
     cp_get E cp section option default = Raise e) /\
  (forall E cp section option default e,
     cp_get E cp section option default = Raise e ->
     cp_getList E cp section option default = list_of default).
Proof.
  split; [|split; [|split]].
  - intros E cp section option default e. split.
    + intros H. destruct (String.eqb_spec section "") as [Hs|Hs];
        [subst section; discriminate H|].
      destruct (String.eqb_spec option "") as [Ho|Ho].
      { subst option. rewrite cp_get_unnamed in H by now right. discriminate H. }
      apply cp_get_raises in H as (G & N1 & N2 & _). auto.
    + intros (Hs & Ho & G & N1 & N2). unfold cp_get.
      rewrite (truthy_nonempty _ Hs), (truthy_nonempty _ Ho), G.
      cbn [negb orb]. destruct e; try reflexivity; contradiction.
  - intros E cp section option default e H. now apply cp_get_raises in H.
  - intros E cp section option default e. unfold cp_getBoolean.
    destruct (cp_get E cp section option default) as [v|e'] eqn:G; cbn [mbind result_bind].
    + split; [|discriminate].
      repeat match goal with |- context [if ?c then _ else _] => destruct c end; discriminate.
    + reflexivity.
  - intros E cp section option default e C. unfold cp_getList. now rewrite C.
Qed.

Lemma accessors_raise_only_witness :
  cp_get incomplete_key_env incomplete_key_cp "gip" "dirs" (PyStr "a,b") = Raise ValueError /\
  cp_getList incomplete_key_env incomplete_key_cp "gip" "dirs" (PyStr "a,b")
    = Ok (PyList ["a"; ","; "b"]).
Proof.
  split; [reflexivity|].
  exact (proj2 (proj2 (proj2 accessors_raise_only)) incomplete_key_env incomplete_key_cp
           "gip" "dirs" (PyStr "a,b") ValueError eq_refl).
Defined.

(* ===================================================================== *)
(** * RVF files *)
(* ===================================================================== *)

Lemma rvf_value_line v rest :
  all_chars (fun c => negb (Ascii.eqb c newline)) v = true ->
  rvf_value (v +:+ String newline rest) = Some (v, S (String.length v)).
Proof.
  induction v as [|c v IH]; intros H.
  - rewrite append_nil_l. cbn [rvf_value]. now rewrite Ascii.eqb_refl.
  - cbn [all_chars] in H. apply andb_true_iff in H as [Hc H]. apply negb_true_iff in Hc.
    rewrite append_cons. cbn [rvf_value]. rewrite Hc, IH by assumption. reflexivity.
Qed.

Lemma rvf_key_line k v rest key :
  all_chars (fun c => negb (Ascii.eqb c newline) && negb (Ascii.eqb c ":")) k = true ->
  all_chars (fun c => negb (Ascii.eqb c newline)) v = true ->
  rvf_key (k +:+ ": " +:+ v +:+ String newline rest) key
  = Some (String.rev key +:+ k, v,
          (String.length key + String.length k + 2 + S (String.length v))%nat).
Proof.
  intros Hk Hv. revert key; induction k as [|c k IH]; intros key.
  - rewrite append_nil_l, append_nil_r.
    change (": " +:+ v +:+ String newline rest)
      with (String ":" (String " " (v +:+ String newline rest))).
    cbn [rvf_key]. rewrite !prefix_cons, prefix_nil. cbn [Ascii.eqb Bool.eqb andb drop].
    rewrite rvf_value_line by assumption. cbn [String.length]. do 2 f_equal. lia.
  - cbn [all_chars] in Hk. apply andb_true_iff in Hk as [Hc Hk].
    apply andb_true_iff in Hc as [Hn Hc]. apply negb_true_iff in Hn, Hc.
    rewrite append_cons. cbn [rvf_key]. rewrite prefix_cons, (Ascii.eqb_sym ":"), Hc.
    cbn [andb]. rewrite Hn, IH by assumption.
    rewrite rev_cons, append_assoc. cbn [String.length]. f_equal. f_equal. lia.
Qed.

Lemma rvf_findall_go_skip a b :
  rvf_pattern_findall_go (a +:+ b) (String.length a) = rvf_pattern_findall_go b O.
Proof.
  induction a as [|c a IH]; [reflexivity|].
  rewrite append_cons. cbn [String.length rvf_pattern_findall_go]. exact IH.
Qed.

Lemma rvf_findall_line kv rest :
  rvf_pair_ok kv = true ->
  rvf_pattern_findall_go (rvf_line kv +:+ rest) O = kv :: rvf_pattern_findall_go rest O.
Proof.
  destruct kv as [k v]. unfold rvf_pair_ok, rvf_line. cbn [fst snd].
  intros H. apply andb_true_iff in H as [H Hv]. apply andb_true_iff in H as [Hn Hk].
  destruct k as [|c k]; [discriminate|]. clear Hn.
  cbn [all_chars] in Hk. apply andb_true_iff in Hk as [Hc Hk].
  apply andb_true_iff in Hc as [Hc _]. apply negb_true_iff in Hc.
  replace ((String c k +:+ ": " +:+ v +:+ String newline "") +:+ rest)
    with (String c (k +:+ ": " +:+ v +:+ String newline rest))
    by (rewrite !append_assoc; reflexivity).
  cbn [rvf_pattern_findall_go rvf_pattern_match]. rewrite Hc, rvf_key_line by assumption.
  change (String.rev (String c "")) with (String c ""). rewrite append_cons, append_nil_l.
  f_equal.
  replace (k +:+ ": " +:+ v +:+ String newline rest)
    with ((k +:+ ": " +:+ v +:+ String newline "") +:+ rest)
    by (rewrite !append_assoc; reflexivity).
  rewrite <- (rvf_findall_go_skip (k +:+ ": " +:+ v +:+ String newline "") rest). f_equal.
  rewrite !length_app_string. cbn [String.length]. lia.
Qed.

(** The pattern finds the pairs of a file in which every line is a kv. *)
Lemma rvf_findall_text pairs :
  forallb rvf_pair_ok pairs = true -> rvf_pattern_findall (rvf_text pairs) = pairs.
Proof.
  unfold rvf_pattern_findall. induction pairs as [|kv pairs IH]; [reflexivity|].
  cbn [forallb rvf_text]. intros [Hp H]%andb_true_iff.
  rewrite rvf_findall_line by assumption. f_equal. now apply IH.
Qed.

Lemma rvf_step_header header :
  forallb not_attribute header = true ->
  foldl rvf_step (None, ∅) header = (None, ∅).
Proof.
  induction header as [|[k v] header IH]; [reflexivity|].
  cbn [forallb foldl]. unfold not_attribute at 1. cbn [fst].
  intros [Hk H]%andb_true_iff. apply negb_true_iff in Hk.
  unfold rvf_step at 2. rewrite Hk. now apply IH.
Qed.

Lemma rvf_step_body body attr entry results :
  forallb not_attribute body = true ->
  foldl rvf_step (Some attr, <[attr := entry]> results) body
  = (Some attr,
     <[attr := foldl (fun entry kv => <[kv.1 := kv.2]> entry) entry body]> results).
Proof.
  revert entry; induction body as [|[k v] body IH]; intros entry; [reflexivity|].
  cbn [forallb foldl]. unfold not_attribute at 1. cbn [fst snd].
  intros [Hk H]%andb_true_iff. apply negb_true_iff in Hk.
  unfold rvf_step at 2. rewrite Hk, lookup_insert_eq, insert_insert_eq. now apply IH.
Qed.

Lemma rvf_step_blocks blocks curAttr results :
  forallb (fun block => forallb not_attribute block.2) blocks = true ->
  blocks <> [] ->
  snd (foldl rvf_step (curAttr, results) (concat (rvf_block_pairs <$> blocks)))
  = foldl (fun results block => <[block.1 := rvf_entry block.2]> results) results blocks.
Proof.
  revert curAttr results; induction blocks as [|[a body] blocks IH];
    intros curAttr results H N; [congruence|].
  cbn [forallb fmap list_fmap concat] in *. apply andb_true_iff in H as [Hb H].
  unfold rvf_block_pairs at 1. cbn [fst snd] in *.
  rewrite foldl_app. cbn [foldl]. unfold rvf_step at 3.
  destruct curAttr; cbn [String.eqb Ascii.eqb Bool.eqb]; rewrite rvf_step_body by assumption;
    (destruct blocks as [|b blocks]; [reflexivity|apply IH; [assumption|discriminate]]).
Qed.

Lemma parseRvfHelper_blocks :
  (forall (O : OS) (filepath : string) (header : list (string * string))
          (blocks : list (string * list (string * string))),
     read_file O filepath
       = Some (rvf_text (header ++ concat (rvf_block_pairs <$> blocks))) ->
     forallb rvf_pair_ok (header ++ concat (rvf_block_pairs <$> blocks)) = true ->
     forallb not_attribute header = true ->
     forallb (fun block => forallb not_attribute block.2) blocks = true ->
     _parseRvfHelper O filepath = rvf_results blocks) /\
  (forall (O : OS) (filepath : string),
     read_file O filepath = None -> _parseRvfHelper O filepath = ∅).
Proof.
  split.
  - intros O filepath header blocks Hr Hok Hh Hb. unfold _parseRvfHelper. rewrite Hr.
    rewrite rvf_findall_text by assumption. rewrite foldl_app, rvf_step_header by assumption.
    destruct blocks as [|b blocks]; [reflexivity|].
    unfold rvf_results. now apply rvf_step_blocks.
  - intros O filepath Hr. unfold _parseRvfHelper. now rewrite Hr.
Qed.

(** X29. [_parseRvfHelper] reads back a file of [Key: Value] lines that
    come as attribute blocks: the lines before the first [Attribute]
    are dropped, every attribute gets the keys and values of its block,
    and a later block replaces an earlier one of the same attribute.  A
    file that cannot be read gives the empty dictionary. *)
Theorem parseRvfHelper_reads_blocks :
  (forall (O : OS) (filepath : string) (header : list (string * string))
          (blocks : list (string * list (string * string))),
     read_file O filepath
       = Some (rvf_text (header ++ concat (rvf_block_pairs <$> blocks))) ->
     forallb rvf_pair_ok (header ++ concat (rvf_block_pairs <$> blocks)) = true ->
     forallb not_attribute header = true ->
     forallb (fun block => forallb not_attribute block.2) blocks = true ->
     _parseRvfHelper O filepath = rvf_results blocks) /\
  (forall (O : OS) (filepath : string),
     read_file O filepath = None -> _parseRvfHelper O filepath = ∅).
Proof.
  exact parseRvfHelper_blocks.
Qed.

Lemma parseRvfHelper_reads_blocks_witness :
  _parseRvfHelper rvf_os "/opt/globus/share/globus_gram_job_manager/pbs.rvf"
  = rvf_results [ ("queue", [("Default", "batch"); ("Publish", "true")]);
                  ("maxtime", [("Default", "60")]) ].
Proof.
  apply (proj1 parseRvfHelper_reads_blocks rvf_os
           "/opt/globus/share/globus_gram_job_manager/pbs.rvf"
           [("Comment", "defaults")]
           [ ("queue", [("Default", "batch"); ("Publish", "true")]);
             ("maxtime", [("Default", "60")]) ]); reflexivity.
Defined.

Lemma rvf_results_from blocks (r0 : gmap string (gmap string string)) :
  foldl (fun results block => <[block.1 := rvf_entry block.2]> results) r0 blocks
  = rvf_results blocks ∪ r0.
Proof.
  unfold rvf_results. induction blocks as [|b blocks IH] using rev_ind.
  - cbn [foldl]. now rewrite (left_id_L ∅ (∪)).
  - rewrite !foldl_app. cbn [foldl]. rewrite IH. now rewrite insert_union_l.
Qed.

Lemma rvf_results_app blocks1 blocks2 :
  rvf_results (blocks1 ++ blocks2) = rvf_results blocks2 ∪ rvf_results blocks1.
Proof. unfold rvf_results at 1. rewrite foldl_app. apply rvf_results_from. Qed.

Lemma path_join_relative a c name :
  startswith name "/" = false -> c <> "/"%char ->
  path_join (a +:+ String c "") name = (a +:+ String c "") +:+ "/" +:+ name.
Proof.
  intros Hn Hc. unfold path_join. rewrite Hn, last_char_snoc.
  rewrite bool_decide_eq_false_2 by congruence.
  destruct a; reflexivity.
Qed.

(** X30. When the file of defaults under [GLOBUS_LOCATION] and the
    customized file under [/etc/globus/gram] are made of attribute
    blocks, [parseRvf] gives what the blocks of the defaults followed
    by those of the customized file give: a customized attribute
    replaces the default one of the same name as a whole, with all its
    keys. *)
Theorem parseRvf_customized
    (O : OS) (name loc : string)
    (header1 header2 : list (string * string))
    (blocks1 blocks2 : list (string * list (string * string))) :
  environ O !! "GLOBUS_LOCATION" = Some loc ->
  startswith name "/" = false ->
  read_file O (loc +:+ "/share/globus_gram_job_manager/" +:+ name)
    = Some (rvf_text (header1 ++ concat (rvf_block_pairs <$> blocks1))) ->
  read_file O ("/etc/globus/gram/" +:+ name)
    = Some (rvf_text (header2 ++ concat (rvf_block_pairs <$> blocks2))) ->
  forallb rvf_pair_ok (header1 ++ concat (rvf_block_pairs <$> blocks1)) = true ->
  forallb rvf_pair_ok (header2 ++ concat (rvf_block_pairs <$> blocks2)) = true ->
  forallb not_attribute (header1 ++ header2) = true ->
  forallb (fun block => forallb not_attribute block.2) (blocks1 ++ blocks2) = true ->
  parseRvf O name = rvf_results (blocks1 ++ blocks2) /\
  rvf_results (blocks1 ++ blocks2) = rvf_results blocks2 ∪ rvf_results blocks1.
Proof.
  intros HG Hn R1 R2 K1 K2 Hh Hb. split; [|apply rvf_results_app].
  rewrite forallb_app in Hh, Hb.
  apply andb_true_iff in Hh as [Hh1 Hh2], Hb as [Hb1 Hb2].
  unfold parseRvf. rewrite HG. cbn [foldl].
  replace (loc +:+ "/share/globus_gram_job_manager")
    with ((loc +:+ "/share/globus_gram_job_manage") +:+ "r")
    by (rewrite append_assoc; reflexivity).
  rewrite (path_join_relative _ "r") by (assumption || discriminate).
  change "/etc/globus/gram" with ("/etc/globus/gra" +:+ "m").
  rewrite (path_join_relative _ "m") by (assumption || discriminate).
  replace (((loc +:+ "/share/globus_gram_job_manage") +:+ "r") +:+ "/" +:+ name)
    with (loc +:+ "/share/globus_gram_job_manager/" +:+ name)
    by (rewrite !append_assoc; reflexivity).
  change (("/etc/globus/gra" +:+ "m") +:+ "/" +:+ name) with ("/etc/globus/gram/" +:+ name).
  rewrite (proj1 parseRvfHelper_blocks _ _ _ _ R1 K1 Hh1 Hb1).
  rewrite (proj1 parseRvfHelper_blocks _ _ _ _ R2 K2 Hh2 Hb2).
  rewrite (right_id_L ∅ (∪)). symmetry. apply rvf_results_app.
Qed.

Lemma parseRvf_customized_witness :
  parseRvf rvf_os "pbs.rvf"
    = rvf_results ([ ("queue", [("Default", "batch"); ("Publish", "true")]);
                     ("maxtime", [("Default", "60")]) ] ++
                   [ ("queue", [("Default", "long")]) ]) /\
  rvf_results ([ ("queue", [("Default", "batch"); ("Publish", "true")]);
                 ("maxtime", [("Default", "60")]) ] ++
               [ ("queue", [("Default", "long")]) ])
    = rvf_results [ ("queue", [("Default", "long")]) ] ∪
      rvf_results [ ("queue", [("Default", "batch"); ("Publish", "true")]);
                    ("maxtime", [("Default", "60")]) ].
Proof.
  apply (parseRvf_customized rvf_os "pbs.rvf" "/opt/globus"
           [("Comment", "defaults")] []); reflexivity.
Defined.
